(** * ContextGNN: index bookkeeping of the sampled-softmax path

    A shallow embedding of
    - [ContextGNN.sample_step], [ContextGNN.construct_logits],
      [ContextGNN.forward_sample_softmax] and [ContextGNN.forward]
      (contextgnn/nn/models/contextgnn.py), and
    - [get_rhs_index], [load_data_dict], [train], [test],
      [MultiVAE.__init__] with [reset_parameters], and [main]
      (benchmark/relbench_multi_vae.py),
    together with the tensor primitives they call ([torch] indexing and
    [topk], [torch_geometric.utils.map.map_index],
    [torch_geometric.utils.coalesce],
    [torch_frame.data.multi_tensor._batched_arange]).  The networks and
    float arithmetic are parameters.  Where releases of torch differ (the
    exception of [torch.cat] for an empty list, the default of
    [weights_only] in [torch.load]), the model follows the recent ones.

    One-dimensional integer tensors are lists of [Z]; a tensor operation
    that can raise returns a [result]. *)

From Stdlib Require Import ZArith QArith Lia.
From stdpp Require Import base list sorting.
From Stdlib Require String.

Local Open Scope Z_scope.

(** ** Exceptions *)

Inductive exn : Set :=
  | IndexError | AssertionError | RuntimeError | ValueError | TypeError.

Inductive result (A : Type) : Type :=
  | Raise (e : exn)
  | Return (a : A).
Arguments Raise {A} e.
Arguments Return {A} a.

#[global] Instance result_ret : MRet result := @Return.
#[global] Instance result_bind : MBind result := λ A B f m,
  match m with Raise e => Raise e | Return a => f a end.
#[global] Instance result_fmap : FMap result := λ A B f m,
  match m with Raise e => Raise e | Return a => Return (f a) end.

(** ** Tensor indexing *)

(** A Python index into a dimension of size [n]: [-n <= i < 0] counts from
    the end, anything outside [-n, n) is an [IndexError]. *)
Definition norm_index (n : nat) (i : Z) : result nat :=
  if bool_decide (0 ≤ i < Z.of_nat n) then Return (Z.to_nat i)
  else if bool_decide (- Z.of_nat n ≤ i < 0) then Return (Z.to_nat (i + Z.of_nat n))
  else Raise IndexError.

Definition getitem {A} (t : list A) (i : Z) : result A :=
  p ← norm_index (length t) i;
  match t !! p with Some x => Return x | None => Raise IndexError end.

(** [t[idx]] for an integer tensor [idx]. *)
Fixpoint index_select {A} (t : list A) (idx : list Z) : result (list A) :=
  match idx with
  | [] => Return []
  | i :: idx => x ← getitem t i; xs ← index_select t idx; Return (x :: xs)
  end.

(** [t[idx] = v] for a scalar [v]. *)
Fixpoint index_fill {A} (t : list A) (idx : list Z) (v : A) : result (list A) :=
  match idx with
  | [] => Return t
  | i :: idx => p ← norm_index (length t) i; index_fill (<[p:=v]> t) idx v
  end.

(** [t[idx] = vals] for a tensor [vals] with one value per index, written
    in index order.  (For repeated indices torch leaves the winner
    unspecified; the claims below only use it with distinct indices.
    Broadcasting of a single value is [index_fill].) *)
Fixpoint index_put {A} (t : list A) (idx : list Z) (vals : list A)
  : result (list A) :=
  match idx, vals with
  | [], [] => Return t
  | i :: idx, v :: vals =>
      p ← norm_index (length t) i; index_put (<[p:=v]> t) idx vals
  | _, _ => Raise RuntimeError
  end.

(** The entries of [t] kept by a boolean mask (no length check). *)
Fixpoint filter_mask {A} (t : list A) (mask : list bool) : list A :=
  match t, mask with
  | x :: t, b :: mask => if b then x :: filter_mask t mask else filter_mask t mask
  | _, _ => []
  end.

(** [t[mask]] for a boolean tensor [mask]: the shapes must agree. *)
Definition bool_index {A} (t : list A) (mask : list bool) : result (list A) :=
  if bool_decide (length mask = length t) then Return (filter_mask t mask)
  else Raise IndexError.

(** [t.max()] of a one-dimensional tensor; empty tensors have no maximum. *)
Definition tensor_max (t : list Z) : result Z :=
  match t with
  | [] => Raise RuntimeError
  | x :: t => Return (foldr Z.max x t)
  end.

(** ** [torch.rand] and [topk] *)

(** The random generator: the stream of raw draws fixed by the seed and the
    number of draws consumed so far. *)
Record Generator : Type := { gen_bits : nat → N; gen_pos : nat }.

(** A uniform float32 in [0, 1): 24 random bits scaled by 2^-24. *)
Definition uniform_float (bits : N) : Q :=
  Z.of_N (bits mod 2 ^ 24) # 2 ^ 24.

(** [torch.rand(n)]. *)
Definition torch_rand (n : nat) (g : Generator) : list Q * Generator :=
  ((λ i, uniform_float (gen_bits g (gen_pos g + i)%nat)) <$> seq 0 n,
   {| gen_bits := gen_bits g; gen_pos := (gen_pos g + n)%nat |}).

#[global] Instance Qle_decision (x y : Q) : Decision (x <= y)%Q.
Proof.
  destruct (Qle_bool x y) eqn:E.
  - left. by apply Qle_bool_iff.
  - right. intros H. apply Qle_bool_iff in H. congruence.
Defined.

(** Order of the [(index, value)] pairs: larger value first. *)
Definition prio_ge (a b : Z * Q) : Prop := (b.2 <= a.2)%Q.

#[global] Instance prio_ge_dec : RelDecision prio_ge.
Proof. intros a b. unfold prio_ge. apply _. Defined.

(** [t.topk(k, sorted=True).indices]: the positions of the [k] largest
    values, largest first.  torch does not say which of several equal
    values comes first; the properties below rest on [topk_Return] alone,
    which holds for any such choice. *)
Definition topk (k : Z) (t : list Q) : result (list Z) :=
  if bool_decide (0 ≤ k ≤ Z.of_nat (length t)) then
    Return (take (Z.to_nat k)
              (fst <$> merge_sort prio_ge (zip (seqZ 0 (Z.of_nat (length t))) t)))
  else Raise RuntimeError.

(** ** int64 arithmetic, as tensor arithmetic wraps *)

Definition wrap64 (z : Z) : Z := (z + 2 ^ 63) mod 2 ^ 64 - 2 ^ 63.
Definition add64 (a b : Z) : Z := wrap64 (a + b).
Definition sub64 (a b : Z) : Z := wrap64 (a - b).

(** ** [torch_frame.data.multi_tensor._batched_arange] *)

(** [torch.cumsum(count, dim=0)], started from the running total [acc]. *)
Fixpoint cumsum_from (acc : Z) (count : list Z) : list Z :=
  match count with
  | [] => []
  | c :: count => let acc := add64 acc c in acc :: cumsum_from acc count
  end.

(** [vals.repeat_interleave(repeats)]: negative repeats are rejected.  (The
    [output_size] argument only saves recomputing the total.) *)
Definition repeat_interleave (vals repeats : list Z) : result (list Z) :=
  if bool_decide (Forall (λ c, 0 ≤ c) repeats) then
    if bool_decide (length vals = length repeats) then
      Return (mjoin (zip_with (λ v c, replicate (Z.to_nat c) v) vals repeats))
    else Raise RuntimeError
  else Raise RuntimeError.

(** Docstring of the source: [batch = cat([full((c,), i) for i, c in
    enumerate(count)])], [arange = cat([arange(c) for c in count])]; the
    body computes them from prefix sums. *)
Definition _batched_arange (count : list Z) : result (list Z * list Z) :=
  let ptr := 0 :: cumsum_from 0 count in
  batch ← repeat_interleave (seqZ 0 (Z.of_nat (length count))) count;
  let arange := seqZ 0 (Z.of_nat (length batch)) in
  ptr_batch ← index_select ptr batch;
  let arange := zip_with sub64 arange ptr_batch in
  Return (batch, arange).

(** ** [get_rhs_index] (benchmark/relbench_multi_vae.py) *)

Definition get_rhs_index (src_index rowptr col : list Z)
  : result (list Z * list Z) :=
  hi ← index_select rowptr ((λ r, add64 r 1) <$> src_index);
  lo ← index_select rowptr src_index;
  '(src_batch, arange) ← _batched_arange (zip_with sub64 hi lo);
  row_start ← index_select rowptr src_index;
  start ← index_select row_start src_batch;
  dst_index ← index_select col (zip_with add64 arange start);
  Return (src_batch, dst_index).

(** ** [torch_geometric.utils.map.map_index] *)

Definition THRESHOLD (is_cuda : bool) : Z :=
  if is_cuda then 40000000 else 10000000.

(** [src.new_full((n,), v)] and [src.new_empty(n)]; the latter holds whatever
    the allocator left there, given by [uninit]. *)
Definition new_full (n : Z) (v : Z) : result (list Z) :=
  if bool_decide (0 ≤ n) then Return (replicate (Z.to_nat n) v)
  else Raise RuntimeError.
Definition new_empty (uninit : nat → Z) (n : Z) : result (list Z) :=
  if bool_decide (0 ≤ n) then Return (uninit <$> seq 0 (Z.to_nat n))
  else Raise RuntimeError.

(** The positions of [s] in [index], in increasing order, counted from
    [p]. *)
Fixpoint positions_from (p : Z) (index : list Z) (s : Z) : list Z :=
  match index with
  | [] => []
  | x :: index =>
      if bool_decide (x = s) then p :: positions_from (p + 1) index s
      else positions_from (p + 1) index s
  end.
Definition positions_of (index : list Z) (s : Z) : list Z :=
  positions_from 0 index s.

(** The [right_ser] column of [pd.merge(left_ser, right_ser, how='left',
    left_on='left_ser', right_index=True)]: one row per match, in the order
    of [src]; [None] (NaN) where [src] has no match. *)
Definition left_merge (src index : list Z) : list (option Z) :=
  s ← src;
  match positions_of index s with
  | [] => [None]
  | ps => Some <$> ps
  end.

Definition ne_minus_one (o : Z) : bool := bool_decide (o ≠ -1).
Definition notnan (o : option Z) : bool :=
  match o with Some _ => true | None => false end.

Section Device.
(** Where the tensors live, and what freshly allocated memory holds. *)
Variable is_cuda : bool.
Variable uninit : nat → Z.

Definition map_index (src index : list Z) (max_index : option Z)
    (inclusive : bool) : result (list Z * option (list bool)) :=
  max_index ← match max_index with
              | Some m => Return m
              | None => a ← tensor_max src; b ← tensor_max index;
                        Return (Z.max a b)
              end;
  if bool_decide (max_index ≤ THRESHOLD is_cuda) then
    assoc ← (if inclusive then new_empty uninit (max_index + 1)
             else new_full (max_index + 1) (-1));
    assoc ← index_put assoc index (seqZ 0 (Z.of_nat (length index)));
    out ← index_select assoc src;
    if inclusive then Return (out, None)
    else
      let mask := ne_minus_one <$> out in
      Return (filter_mask out mask, Some mask)
  else
    let rows := left_merge src index in
    if forallb notnan rows then
      let out := omap id rows in
      if inclusive then Return (out, None)
      else
        let mask := ne_minus_one <$> out in
        Return (filter_mask out mask, Some mask)
    else
      if inclusive then Raise ValueError
      else
        let mask := notnan <$> rows in
        Return (omap id rows, Some mask).
End Device.

(** ** [ContextGNN] (contextgnn/nn/models/contextgnn.py) *)

(** The fields of [self] that the sampled path reads. *)
Record ContextGNN : Type := {
  num_rhs_nodes : nat;
  rhs_sample_size : option Z;
}.

(** [x[i, j] = vals] on a matrix, one value per coordinate pair, written
    in order. *)
Fixpoint index_put2 {A} (t : list (list A)) (rows cols : list Z)
    (vals : list A) : result (list (list A)) :=
  match rows, cols, vals with
  | [], [], [] => Return t
  | i :: rows, j :: cols, v :: vals =>
      row ← getitem t i;
      p ← norm_index (length t) i;
      q ← norm_index (length row) j;
      index_put2 (<[p := <[q := v]> row]> t) rows cols vals
  | _, _, _ => Raise RuntimeError
  end.

(** An element-wise operation on two tensors of the same length. *)
Definition zip_same {A B C} (f : A → B → C) (xs : list A) (ys : list B)
  : result (list C) :=
  if bool_decide (length xs = length ys) then Return (zip_with f xs ys)
  else Raise RuntimeError.

(** [assert x is not None]. *)
Definition assert_not_None {A} (x : option A) : result A :=
  match x with Some a => Return a | None => Raise AssertionError end.

(** The first position of [s] in [index], and whether it has one. *)
Definition position_in (index : list Z) (s : Z) : option Z :=
  head (positions_of index s).
Definition present (index : list Z) (s : Z) : bool :=
  bool_decide (s ∈ index).

(** The Candidate Sampler, lines 100-107 of [sample_step]: the priority
    array [rnd] after both assignments, and its top-k. *)
Definition priority_array (rnd : list Q) (rhs_idgnn_index : list Z)
    (rhs_y_index : option (list Z)) : result (list Q) :=
  rnd ← index_fill rnd rhs_idgnn_index (3 : Q);
  rhs_y_index ← assert_not_None rhs_y_index;
  index_fill rnd rhs_y_index (4 : Q).

Definition candidate_sampler (self : ContextGNN) (rnd : list Q)
    (rhs_idgnn_index : list Z) (rhs_y_index : option (list Z))
  : result (list Z) :=
  rnd ← priority_array rnd rhs_idgnn_index rhs_y_index;
  k ← match rhs_sample_size self with
      | Some k => Return k
      | None => Raise TypeError
      end;
  topk k rnd.

Section Model.
Variable is_cuda : bool.
Variable uninit : nat → Z.

(** Scores are floats; their arithmetic is kept abstract: [dot] is one
    entry of the matrix product, [mul_sum u v] is [(u * v).sum(dim=-1)]. *)
Variable R : Type.
Variable Radd : R → R → R.
Variable dot : list R → list R → R.
Variable mul_sum : list R → list R → R.

(** The learned layers, each acting on one embedding row:
    [self.head], [self.lin_offset_idgnn], [self.lin_offset_embgnn],
    [self.lhs_projector], and [self.rhs_embedding] (a module of the
    repository outside these files: one embedding row per candidate
    id). *)
Variable head : list R → R.
Variable lin_offset_idgnn : list R → R.
Variable lin_offset_embgnn : list R → R.
Variable lhs_projector : list R → list R.
Variable rhs_embedding_row : Z → list R.

(** [sample_step] after the draw [rnd = torch.rand(self.num_rhs_nodes)]. *)
Definition sample_step_from (self : ContextGNN) (rnd : list Q)
    (rhs_idgnn_index lhs_idgnn_batch : list Z)
    (rhs_gnn_embedding : list (list R))
    (lhs_y_batch rhs_y_index : option (list Z))
  : result (list Z * list (list R) * list Z * list (list R)
            * option (list Z) * list Z) :=
  (* Prioritize idgnn logits *)
  rnd ← index_fill rnd rhs_idgnn_index (3 : Q);
  (* Ensure we always sample positives *)
  rhs_y_index ← assert_not_None rhs_y_index;
  rnd ← index_fill rnd rhs_y_index (4 : Q);
  k ← match rhs_sample_size self with
      | Some k => Return k
      | None => Raise TypeError
      end;
  rhs_index ← topk k rnd;
  let inclusive := bool_decide (Z.of_nat (length rhs_y_index) ≤ k) in
  '(rhs_y_index, mask) ←
    map_index is_cuda uninit rhs_y_index rhs_index
      (Some (Z.of_nat (num_rhs_nodes self))) inclusive;
  lhs_y_batch ←
    (if inclusive then Return lhs_y_batch
     else match lhs_y_batch, mask with
          | Some b, Some mask => Some <$> bool_index b mask
          | _, _ => Raise TypeError
          end);
  let rhs_embedding := rhs_embedding_row <$> rhs_index in
  let inclusive :=
    bool_decide (Z.of_nat (length rhs_y_index)
                 + Z.of_nat (length rhs_idgnn_index) ≤ k) in
  '(rhs_idgnn_index, mask) ←
    map_index is_cuda uninit rhs_idgnn_index rhs_index None inclusive;
  '(lhs_idgnn_batch, rhs_gnn_embedding) ←
    (if inclusive then Return (lhs_idgnn_batch, rhs_gnn_embedding)
     else match mask with
          | Some mask =>
              b ← bool_index lhs_idgnn_batch mask;
              e ← bool_index rhs_gnn_embedding mask;
              Return (b, e)
          | None => Raise TypeError
          end);
  Return (rhs_idgnn_index, rhs_embedding, lhs_idgnn_batch,
          rhs_gnn_embedding, lhs_y_batch, rhs_y_index).

Definition sample_step (self : ContextGNN) (g : Generator)
    (rhs_idgnn_index lhs_idgnn_batch : list Z)
    (rhs_gnn_embedding : list (list R))
    (lhs_y_batch rhs_y_index : option (list Z)) :=
  let '(rnd, g) := torch_rand (num_rhs_nodes self) g in
  (sample_step_from self rnd rhs_idgnn_index lhs_idgnn_batch
     rhs_gnn_embedding lhs_y_batch rhs_y_index, g).

Definition construct_logits
    (lhs_embedding_projected lhs_embedding rhs_gnn_embedding
       rhs_embedding : list (list R))
    (lhs_idgnn_batch rhs_idgnn_index : list Z)
  : result (list (list R)) :=
  let embgnn_logits :=
    (λ u, dot u <$> rhs_embedding) <$> lhs_embedding_projected in
  (* Model the importance of embedding-GNN prediction for each lhs node *)
  let embgnn_offset_logits :=
    lin_offset_embgnn <$> lhs_embedding_projected in
  let embgnn_logits :=
    zip_with (λ row off, (λ x, Radd x off) <$> row)
      embgnn_logits embgnn_offset_logits in
  (* Calculate idgnn logits *)
  let idgnn_logits := head <$> rhs_gnn_embedding in
  lhs_rows ← index_select lhs_embedding lhs_idgnn_batch;
  prod ← zip_same mul_sum lhs_rows rhs_gnn_embedding;
  idgnn_logits ← zip_same Radd idgnn_logits prod;
  (* Model the importance of ID-GNN prediction for each lhs node *)
  let idgnn_offset_logits :=
    lin_offset_idgnn <$> lhs_embedding_projected in
  offs ← index_select idgnn_offset_logits lhs_idgnn_batch;
  idgnn_logits ← zip_same Radd idgnn_logits offs;
  index_put2 embgnn_logits lhs_idgnn_batch rhs_idgnn_index idgnn_logits.

(** [forward_sample_softmax] from the outputs of [forward_gnn] on:
    [lhs_embedding = x_dict[entity_table][:batch_size]],
    [rhs_gnn_embedding = x_dict[dst_table]],
    [rhs_idgnn_index = batch.n_id_dict[dst_table]],
    [lhs_idgnn_batch = batch.batch_dict[dst_table]]. *)
Definition forward_sample_softmax (self : ContextGNN) (g : Generator)
    (lhs_embedding rhs_gnn_embedding : list (list R))
    (rhs_idgnn_index lhs_idgnn_batch : list Z)
    (src_batch dst_index : option (list Z))
  : result (list (list R) * option (list Z) * list Z) * Generator :=
  let lhs_embedding_projected := lhs_projector <$> lhs_embedding in
  let '(sampled, g) :=
    sample_step self g rhs_idgnn_index lhs_idgnn_batch rhs_gnn_embedding
      src_batch dst_index in
  ('(rhs_idgnn_index, rhs_embedding, lhs_idgnn_batch, rhs_gnn_embedding,
     lhs_y_batch, rhs_y_index) ← sampled;
   embgnn_logits ←
     construct_logits lhs_embedding_projected lhs_embedding
       rhs_gnn_embedding rhs_embedding lhs_idgnn_batch rhs_idgnn_index;
   Return (embgnn_logits, lhs_y_batch, rhs_y_index), g).
End Model.

(** ** Notions used to state the properties *)

(** The cells an index tensor addresses once negative indices are counted
    from the end. *)
Definition wrap_ids (n : nat) (idx : list Z) : list Z :=
  (λ i, i mod Z.of_nat n) <$> idx.

Definition unit_draws (rnd : list Q) : Prop :=
  Forall (λ q, (0 <= q)%Q ∧ (q < 1)%Q) rnd.

Definition in_range (n : nat) (i : Z) : Prop :=
  - Z.of_nat n ≤ i < Z.of_nat n.

(** The priority of cell [p] once both assignments are done. *)
Definition priority_of (rnd : list Q) (rhs_idgnn_index rhs_y_index : list Z)
    (p : nat) : option Q :=
  if bool_decide (Z.of_nat p ∈ wrap_ids (length rnd) rhs_y_index)
  then (λ _, 4 : Q) <$> rnd !! p
  else if bool_decide (Z.of_nat p ∈ wrap_ids (length rnd) rhs_idgnn_index)
       then (λ _, 3 : Q) <$> rnd !! p
       else rnd !! p.

(** Candidate ids proper: inside [0, n). *)
Definition valid_ids (n : nat) (ids : list Z) : Prop :=
  Forall (λ i, 0 ≤ i < Z.of_nat n) ids.

(** The candidate set drawn by [sample_step] from generator [g]. *)
Definition sampled_rhs_index (self : ContextGNN) (g : Generator)
    (rhs_idgnn_index : list Z) (rhs_y_index : option (list Z))
  : result (list Z) :=
  candidate_sampler self (torch_rand (num_rhs_nodes self) g).1
    rhs_idgnn_index rhs_y_index.

(** The entry of a matrix at row [p], column [q]. *)
Definition cell {A} (t : list (list A)) (p q : nat) : option A :=
  row ← t !! p; row !! q.

(** The dense score matrix with its row offsets. *)
Definition dense_logits {R} (Radd : R → R → R) (dot : list R → list R → R)
    (lin_offset_embgnn : list R → R)
    (lhs_embedding_projected rhs_embedding : list (list R))
  : list (list R) :=
  zip_with (λ row off, (λ x, Radd x off) <$> row)
    ((λ u, dot u <$> rhs_embedding) <$> lhs_embedding_projected)
    (lin_offset_embgnn <$> lhs_embedding_projected).

Definition sumZ (l : list Z) : Z := foldr Z.add 0 l.

(** [cat([full((c,), i) for i, c in enumerate(count, start=b)])]. *)
Fixpoint batch_of (b : Z) (count : list Z) : list Z :=
  match count with
  | [] => []
  | c :: count => replicate (Z.to_nat c) b ++ batch_of (b + 1) count
  end.

(** [cat([arange(c) for c in count])]. *)
Definition arange_of (count : list Z) : list Z := c ← count; seqZ 0 c.

(** Out-degree of row [r], and its stored neighbours
    [col[rowptr[r]:rowptr[r+1]]]. *)
Definition row_start (rowptr : list Z) (r : Z) : Z := rowptr !!! Z.to_nat r.
Definition degree (rowptr : list Z) (r : Z) : Z :=
  row_start rowptr (r + 1) - row_start rowptr r.
Definition neighbours (rowptr col : list Z) (r : Z) : list Z :=
  take (Z.to_nat (degree rowptr r)) (drop (Z.to_nat (row_start rowptr r)) col).

(** The output elements that carry batch id [i]. *)
Definition elements_with_batch (i : Z) (batchId neighborId : list Z)
  : list Z :=
  (filter (λ e, e.1 = i) (zip batchId neighborId)).*2.

(** A well-formed CSR adjacency. *)
Record csr_well_formed (rowptr col : list Z) : Prop := {
  csr_start : ∃ x, rowptr !! 0%nat = Some x ∧ 0 ≤ x;
  csr_monotone : ∀ i x y,
    rowptr !! i = Some x → rowptr !! S i = Some y → x ≤ y;
  csr_end : last rowptr = Some (Z.of_nat (length col));
}.

(** Row ids of the adjacency: [0 <= r < numSources], where [rowptr] has
    [numSources + 1] entries. *)
Definition valid_rows (rowptr : list Z) (rows : list Z) : Prop :=
  Forall (λ r, 0 ≤ r ∧ r + 1 < Z.of_nat (length rowptr)) rows.

(** [m] does not fail an assertion. *)
Definition no_assert {A} (m : result A) : Prop := m ≠ Raise AssertionError.

(** ** A small batch

    A catalog of ten candidates and a budget of four; scores are integers. *)

Definition example_model : ContextGNN :=
  {| num_rhs_nodes := 10; rhs_sample_size := Some 4 |}.

Definition example_generator : Generator :=
  {| gen_bits := λ i, (N.of_nat i * 7919 + 13)%N; gen_pos := 0 |}.


Definition int_dot (u v : list Z) : Z := sumZ (zip_with Z.mul u v).

(** ** The rest of the two files *)

(** *** [ContextGNN.forward]: scores over the whole catalog *)

Section FullCatalog.
Variable R : Type.
Variable Radd : R → R → R.
Variable dot : list R → list R → R.
Variable mul_sum : list R → list R → R.
Variable head : list R → R.
Variable lin_offset_idgnn : list R → R.
Variable lin_offset_embgnn : list R → R.
Variable lhs_projector : list R → list R.
Variable rhs_embedding_row : Z → list R.

(** [forward] from the outputs of [forward_gnn]; [self.rhs_embedding()] is
    the embedding of every candidate, [num_rhs_nodes] rows. *)
Definition forward (self : ContextGNN)
    (lhs_embedding rhs_gnn_embedding : list (list R))
    (rhs_idgnn_index lhs_idgnn_batch : list Z) : result (list (list R)) :=
  let lhs_embedding_projected := lhs_projector <$> lhs_embedding in
  let rhs_embedding :=
    rhs_embedding_row <$> seqZ 0 (Z.of_nat (num_rhs_nodes self)) in
  construct_logits R Radd dot mul_sum head lin_offset_idgnn lin_offset_embgnn
    lhs_embedding_projected lhs_embedding rhs_gnn_embedding rhs_embedding
    lhs_idgnn_batch rhs_idgnn_index.
End FullCatalog.

(** *** Building the adjacency: [load_data_dict]
    (benchmark/relbench_multi_vae.py)

    A [2 x E] tensor [edge_index] is the list of its columns:
    [edge_index[0]] is [edge_index.*1], [edge_index[1]] is
    [edge_index.*2]. *)

Definition MAX_INT64 : Z := 2 ^ 63 - 1.
Definition mul64 (a b : Z) : Z := wrap64 (a * b).

(** [maybe_num_nodes(edge_index, None)] of torch_geometric:
    [int(edge_index.max()) + 1], and [0] for no edge. *)
Definition maybe_num_nodes (edge_index : list (Z * Z)) : Z :=
  match edge_index.*1 ++ edge_index.*2 with
  | [] => 0
  | x :: t => foldr Z.max x t + 1
  end.

(** The sort key of an edge, [row * num_nodes + col] in int64. *)
Definition edge_key (num_nodes : Z) (e : Z * Z) : Z :=
  add64 (mul64 e.1 num_nodes) e.2.

Definition key_le (num_nodes : Z) (a b : Z * Z) : Prop :=
  edge_key num_nodes a ≤ edge_key num_nodes b.

#[global] Instance key_le_dec num_nodes : RelDecision (key_le num_nodes).
Proof. intros a b. unfold key_le. apply _. Defined.

(** [torch_geometric.utils.coalesce(edge_index)], from its body: an
    overflow check on the square of the node count, then the edges sorted
    by key ([index_sort]); an edge is kept when its key exceeds the key
    before it, the first one when its key exceeds [-1].  ([index_sort] does
    not say which of two edges of equal key comes first; for edges with
    non-negative ids equal keys mean equal edges.) *)
Definition coalesce (edge_index : list (Z * Z)) : result (list (Z * Z)) :=
  let num_nodes := maybe_num_nodes edge_index in
  if bool_decide (num_nodes * num_nodes > MAX_INT64) then Raise ValueError
  else
    let edge_index := merge_sort (key_le num_nodes) edge_index in
    let idx := -1 :: (edge_key num_nodes <$> edge_index) in
    let mask := zip_with (λ cur prev, bool_decide (cur > prev)) (tail idx) idx in
    if forallb id mask then Return edge_index
    else Return (filter_mask edge_index mask).

(** [torch._convert_indices_from_coo_to_csr(input, size)] for sorted row
    indices in [[0, size)]: entry [i] of the [size + 1] row pointers is
    the number of indices below [i]. *)
Definition _convert_indices_from_coo_to_csr (input : list Z) (size : Z)
  : result (list Z) :=
  if bool_decide (0 ≤ size + 1) then
    Return ((λ i, Z.of_nat (length (filter (λ r, r < i) input)))
              <$> seqZ 0 (size + 1))
  else Raise RuntimeError.

(** One round of the loop of [load_data_dict]: the split's edges, as read
    from its table, to [(rowptr, edge_index)]. *)
Definition load_split (num_src_nodes : Z) (edge_index : list (Z * Z))
  : result (list Z * list (Z * Z)) :=
  edge_index ← coalesce edge_index;
  rowptr ← _convert_indices_from_coo_to_csr edge_index.*1 num_src_nodes;
  Return (rowptr, edge_index).

(** [data_dict], with its three keys. *)
Record DataDict : Type := {
  dd_train : list Z * list (Z * Z);
  dd_val : list Z * list (Z * Z);
  dd_test : list Z * list (Z * Z);
}.

Definition load_data_dict (num_src_nodes : Z)
    (train_edges val_edges test_edges : list (Z * Z)) : result DataDict :=
  tr ← load_split num_src_nodes train_edges;
  va ← load_split num_src_nodes val_edges;
  te ← load_split num_src_nodes test_edges;
  Return {| dd_train := tr; dd_val := va; dd_test := te |}.

(** Edges in the order of the stored adjacency: by source, then by
    destination. *)
Definition lex_lt (a b : Z * Z) : Prop :=
  a.1 < b.1 ∨ (a.1 = b.1 ∧ a.2 < b.2).

(** Edges between non-negative node ids. *)
Definition valid_edges (edges : list (Z * Z)) : Prop :=
  Forall (λ e, 0 ≤ e.1 ∧ 0 ≤ e.2) edges.

(** Both ends of an edge are node ids below [n]. *)
Definition in_square (n : Z) (e : Z * Z) : Prop := 0 ≤ e.1 < n ∧ 0 ≤ e.2 < n.

(** What the mask of [coalesce] keeps of the sorted edges, [p] being the
    key before the first one. *)
Definition kept (n p : Z) (l : list (Z * Z)) : list (Z * Z) :=
  filter_mask l
    (zip_with (λ cur prev, bool_decide (cur > prev))
       (edge_key n <$> l) (p :: (edge_key n <$> l))).

(** The number of row indices below [i]. *)
Definition count_below (input : list Z) (i : Z) : Z :=
  Z.of_nat (length (filter (λ r, r < i) input)).

(** Edges in the order of their sources. *)
Definition row_le (a b : Z * Z) : Prop := a.1 ≤ b.1.

(** *** Batches and their interaction matrices: [train] and [test] *)

(** Python's [range(start, stop, step)] as a list. *)
Definition py_range (start stop step : Z) : result (list Z) :=
  if bool_decide (step = 0) then Raise ValueError
  else if bool_decide (0 < step) then
    Return ((λ i, start + i * step)
              <$> seqZ 0 ((stop - start + step - 1) `div` step))
  else
    Return ((λ i, start + i * step)
              <$> seqZ 0 ((start - stop - step - 1) `div` (- step))).

(** A bound of a list slice: negative bounds count from the end, and both
    are clamped to the list. *)
Definition slice_index (n : nat) (i : Z) : nat :=
  if bool_decide (i < 0) then Z.to_nat (Z.max 0 (i + Z.of_nat n))
  else Z.to_nat (Z.min i (Z.of_nat n)).

(** [l[a:b]]. *)
Definition py_slice {A} (l : list A) (a b : Z) : list A :=
  let a := slice_index (length l) a in
  let b := slice_index (length l) b in
  take (b - a) (drop a l).

(** [torch.zeros((rows, cols))]. *)
Definition zeros2 (rows cols : Z) : result (list (list Q)) :=
  if bool_decide (0 ≤ rows ∧ 0 ≤ cols) then
    Return (replicate (Z.to_nat rows) (replicate (Z.to_nat cols) (0 : Q)))
  else Raise RuntimeError.

(** Two index tensors broadcast against each other: equal lengths, or one
    of them of length one. *)
Definition broadcast_indices (rows cols : list Z) : result (list (Z * Z)) :=
  if bool_decide (length rows = length cols) then Return (zip rows cols)
  else match rows, cols with
       | [i], _ => Return ((λ j, (i, j)) <$> cols)
       | _, [j] => Return ((λ i, (i, j)) <$> rows)
       | _, _ => Raise IndexError
       end.

(** The cells [(i, j)] of [idx] set to [v], in order. *)
Fixpoint index_fill2_at {A} (t : list (list A)) (idx : list (Z * Z)) (v : A)
  : result (list (list A)) :=
  match idx with
  | [] => Return t
  | (i, j) :: idx =>
      row ← getitem t i;
      p ← norm_index (length t) i;
      q ← norm_index (length row) j;
      index_fill2_at (<[p := <[q := v]> row]> t) idx v
  end.

(** [x[rows, cols] = v] on a matrix, for a scalar [v]. *)
Definition index_fill2 {A} (t : list (list A)) (rows cols : list Z) (v : A)
  : result (list (list A)) :=
  idx ← broadcast_indices rows cols;
  index_fill2_at t idx v.

(** The dense input of one batch: [x = torch.zeros((batch_size,
    num_dst_nodes)); x[src_batch, dst_index] = 1.0]. *)
Definition interaction_matrix (batch_size num_dst_nodes : Z)
    (src_batch dst_index : list Z) : result (list (list Q)) :=
  x ← zeros2 batch_size num_dst_nodes;
  index_fill2 x src_batch dst_index (1 : Q).

(** A loop whose body can raise. *)
Fixpoint foldlM {A B} (f : A → B → result A) (a : A) (l : list B)
  : result A :=
  match l with
  | [] => Return a
  | b :: l => a ← f a b; foldlM f a l
  end.

(** The multi-hot rows of the sources [src]: entry [d] of the row of [r]
    is one when [d] is a stored neighbour of [r]. *)
Definition multi_hot (num_dst_nodes : Z) (rowptr col src : list Z)
  : list (list Q) :=
  (λ r, (λ d, if bool_decide (d ∈ neighbours rowptr col r)
              then (1 : Q) else (0 : Q))
          <$> seqZ 0 num_dst_nodes) <$> src.

(** *** [train] and [test] *)

(** The two stage names [test] knows. *)
Module Stage.
Import String.
Definition val : string := "val"%string.
Definition test : string := "test"%string.
End Stage.

(** The command-line arguments read by [train], [test] and [main]. *)
Record Args (F : Type) : Type := {
  batch_size : Z;
  epochs : Z;
  total_anneal_steps : Z;
  anneal_cap : F;
  seed : Z;
}.
Arguments batch_size {F} _.
Arguments epochs {F} _.
Arguments total_anneal_steps {F} _.
Arguments anneal_cap {F} _.
Arguments seed {F} _.

(** [torch.cat(tensors, dim=0)] of matrices.  An empty list is refused with
    a [ValueError] (expected a non-empty list of Tensors), rows of different
    widths with a [RuntimeError]. *)
Definition torch_cat {A} (tensors : list (list (list A)))
  : result (list (list A)) :=
  match mjoin tensors with
  | [] => if bool_decide (tensors = []) then Raise ValueError else Return []
  | row :: rows =>
      if bool_decide (Forall (λ r, length r = length row) rows)
      then Return (row :: rows) else Raise RuntimeError
  end.

Section Script.
(** Floats are kept abstract, as are the network and what numpy and the
    task do: [F] is the type of float values, [Net] the state of the model
    with its optimizer and of torch's generator, [Rng] the state of
    numpy's generator. *)
Variable F : Type.
Variable Net : Type.
Variable Rng : Type.

(** Float operations: [0.0], [a + b], [a / n] for an int [n], [m / n] for
    two ints, and Python's [min]. *)
Variable fzero : F.
Variable fadd : F → F → F.
Variable fdiv_int : F → Z → F.
Variable true_div : Z → Z → F.
Variable fmin : F → F → F.

(** [np.random.shuffle]. *)
Variable shuffle : Rng → list Z → list Z * Rng.

(** One optimisation step in training mode, lines 155-159 of [train]:
    [model(x)], [loss_function], [backward], [optimizer.step]; the new
    state and the detached loss. *)
Variable fit : Net → list (list Q) → F → Net * F.

(** [torch.sigmoid(model(x)[0])] in evaluation mode. *)
Variable scores : Net → list (list Q) → list (list Q).

(** [task.evaluate(pred, task.get_table(stage))[LINK_PREDICTION_METRIC]],
    a finite float. *)
Variable evaluate : list (list Z) → String.string → Q.

Variable args : Args F.
(** [task.num_src_nodes], [task.num_dst_nodes], [task.eval_k]. *)
Variable num_src_nodes num_dst_nodes eval_k : Z.

(** The annealing weight of a step. *)
Definition anneal_at (total_optimization_steps : Z) : F :=
  if bool_decide (total_anneal_steps args > 0) then
    fmin (anneal_cap args)
      (true_div total_optimization_steps (total_anneal_steps args))
  else anneal_cap args.

(** The body of the loop of [train]; the loop carries the model, the
    global [total_optimization_steps] and [accum_loss]. *)
Definition train_batch (rowptr col idxlist : list Z) (N : Z)
    (acc : Net * Z * F) (start : Z) : result (Net * Z * F) :=
  let '(model, total_optimization_steps, accum_loss) := acc in
  let end_ := Z.min (start + batch_size args) N in
  let batch_size := end_ - start in
  let src_index := py_slice idxlist start end_ in
  '(src_batch, dst_index) ← get_rhs_index src_index rowptr col;
  (* convert rowptr and col to a dense tensor of ones *)
  x ← interaction_matrix batch_size num_dst_nodes src_batch dst_index;
  let anneal := anneal_at total_optimization_steps in
  let '(model, loss) := fit model x anneal in
  Return (model, total_optimization_steps + 1, fadd accum_loss loss).

Definition train (model : Net) (total_optimization_steps : Z) (rng : Rng)
    (data_dict : DataDict) : result (Net * Z * Rng * F) :=
  let '(rowptr, edge_index) := dd_train data_dict in
  let col := edge_index.*2 in
  let N := Z.of_nat (length rowptr) - 1 in
  let idxlist := seqZ 0 N in
  let '(idxlist, rng) := shuffle rng idxlist in
  starts ← py_range 0 N (batch_size args);
  '(model, total_optimization_steps, accum_loss) ←
    foldlM (train_batch rowptr col idxlist N)
      (model, total_optimization_steps, fzero) starts;
  Return (model, total_optimization_steps, rng, fdiv_int accum_loss N).

(** The body of the loop of [test]; the loop carries [pred_list]. *)
Definition test_batch (model : Net) (rowptr col test_src idxlist : list Z)
    (N : Z) (pred_list : list (list (list Z))) (start : Z)
  : result (list (list (list Z))) :=
  let end_ := Z.min (start + batch_size args) N in
  let src_index := py_slice idxlist start end_ in
  let lhs_eval_mask := (λ s, bool_decide (s ∈ test_src)) <$> src_index in
  let src_index := filter_mask src_index lhs_eval_mask in
  if bool_decide (length src_index = 0%nat) then Return pred_list
  else
    '(src_batch, dst_index) ← get_rhs_index src_index rowptr col;
    (* convert rowptr and col to a dense tensor of ones *)
    let batch_size := Z.of_nat (length src_index) in
    x ← interaction_matrix batch_size num_dst_nodes src_batch dst_index;
    pred_mini ← mapM (topk eval_k) (scores model x);
    Return (pred_list ++ [pred_mini]).

(** The adjacency [test] feeds to the model and the edges it evaluates
    on. *)
Definition test_inputs (data_dict : DataDict) (stage : String.string)
  : result (list Z * list Z * list (Z * Z)) :=
  if String.eqb stage Stage.val then
    let '(rowptr, edge_index) := dd_train data_dict in
    let col := edge_index.*2 in
    let '(_, test_edge_index) := dd_val data_dict in
    Return (rowptr, col, test_edge_index)
  else if String.eqb stage Stage.test then
    (* Combine train and val set *)
    let '(_, edge_index_train) := dd_train data_dict in
    let '(_, edge_index_val) := dd_val data_dict in
    let edge_index := edge_index_train ++ edge_index_val in
    edge_index ← coalesce edge_index;
    rowptr ← _convert_indices_from_coo_to_csr edge_index.*1 num_src_nodes;
    let col := edge_index.*2 in
    let '(_, test_edge_index) := dd_test data_dict in
    Return (rowptr, col, test_edge_index)
  else Raise ValueError.

Definition test (model : Net) (data_dict : DataDict) (stage : String.string)
  : result (Q * Q) :=
  '(rowptr, col, test_edge_index) ← test_inputs data_dict stage;
  let N := Z.of_nat (length rowptr) - 1 in
  let idxlist := seqZ 0 N in
  starts ← py_range 0 N (batch_size args);
  pred_list ←
    foldlM (test_batch model rowptr col test_edge_index.*1 idxlist N)
      [] starts;
  pred ← torch_cat pred_list;
  Return (0 : Q, evaluate pred stage).

(** What one round of the loop of [train] does to the loop state, given
    the batch input [x]. *)
Definition fit_step (acc : Net * Z * F) (x : list (list Q)) : Net * Z * F :=
  let '(model, total_optimization_steps, accum_loss) := acc in
  let '(model, loss) := fit model x (anneal_at total_optimization_steps) in
  (model, total_optimization_steps + 1, fadd accum_loss loss).
End Script.

(** Consecutive pieces of [bs] elements of a list, the last one shorter
    when [bs] does not divide the length. *)
Definition chunk_starts (N bs : Z) : list Z :=
  (λ i, i * bs) <$> seqZ 0 ((N + bs - 1) `div` bs).
Definition chunks {A} (bs : Z) (l : list A) : list (list A) :=
  (λ start, take (Z.to_nat bs) (drop (Z.to_nat start) l))
    <$> chunk_starts (Z.of_nat (length l)) bs.

(** *** How the script's own code ends *)

(** With one of the exceptions of the tensor code, with one of the three
    that only the script meets (a float division by zero in the
    initialisation of a layer, a checkpoint file that does not exist, a
    checkpoint that [torch.load] refuses to unpickle), or with a value. *)
Inductive outcome (A : Type) : Type :=
  | Raised (e : exn)
  | ZeroDivisionError
  | FileNotFoundError
  | UnpicklingError
  | Finished (a : A).
Arguments Raised {A} e.
Arguments ZeroDivisionError {A}.
Arguments FileNotFoundError {A}.
Arguments UnpicklingError {A}.
Arguments Finished {A} a.

#[global] Instance outcome_ret : MRet outcome := λ A a, Finished a.
#[global] Instance outcome_bind : MBind outcome := λ A B f m,
  match m with
  | Raised e => Raised e
  | ZeroDivisionError => ZeroDivisionError
  | FileNotFoundError => FileNotFoundError
  | UnpicklingError => UnpicklingError
  | Finished a => f a
  end.

(** A call of the tensor code from the script. *)
Definition of_result {A} (r : result A) : outcome A :=
  match r with Raise e => Raised e | Return a => Finished a end.

(** *** [MultiVAE.__init__] *)

(** [torch.nn.Linear(d_in, d_out)], by its two dimensions; a weight
    tensor with a negative dimension cannot be created.  (Memory is taken
    to suffice for the others.) *)
Definition Linear (d : Z * Z) : result (Z * Z) :=
  if bool_decide (0 ≤ d.1 ∧ 0 ≤ d.2) then Return d else Raise RuntimeError.

(** The dimensions and the layers of a model. *)
Record MultiVAE : Type := {
  p_dims : list Z;
  q_dims : list Z;
  p_layers : list (Z * Z);
  q_layers : list (Z * Z);
}.

(** [q_dims and q_dims[i] != p_dims[j]]: [None] and the empty list are
    false. *)
Definition dims_differ (q_dims : option (list Z)) (i : Z) (p_dims : list Z)
    (j : Z) : result bool :=
  match q_dims with
  | Some (q0 :: q) =>
      a ← getitem (q0 :: q) i; b ← getitem p_dims j;
      Return (bool_decide (a ≠ b))
  | _ => Return false
  end.

(** [__init__] up to its last line: the two checks of the dimensions and
    the construction of the layers. *)
Definition MultiVAE_layers (p_dims : list Z) (q_dims : option (list Z))
  : result MultiVAE :=
  mismatch ← dims_differ q_dims 0 p_dims (-1);
  if (mismatch : bool) then Raise ValueError else
  mismatch ← dims_differ q_dims (-1) p_dims 0;
  if (mismatch : bool) then Raise ValueError else
  let q_dims :=
    match q_dims with
    | Some (q0 :: q) => q0 :: q
    | _ => reverse p_dims
    end in
  p_layers ← mapM Linear (zip (py_slice p_dims 0 (-1)) (drop 1 p_dims));
  last ← getitem q_dims (-1);
  q_layers ←
    mapM Linear
      (zip (py_slice q_dims 0 (-1)) (py_slice q_dims 1 (-1) ++ [last * 2]));
  Return {| p_dims := p_dims; q_dims := q_dims;
            p_layers := p_layers; q_layers := q_layers |}.

(** [torch.nn.init.xavier_uniform_(layer.weight)] for the weight of a
    [Linear(d_in, d_out)], a [d_out x d_in] matrix: [fan_in] is its number
    of columns, [fan_out] its number of rows, and the bound of the
    distribution is computed from [2.0 / float(fan_in + fan_out)], a
    division of Python floats.  Filling the weight raises nothing, also
    when it has no element. *)
Definition xavier_uniform_ (d : Z * Z) : outcome () :=
  let fan_in := d.1 in
  let fan_out := d.2 in
  if bool_decide (fan_in + fan_out = 0) then ZeroDivisionError
  else Finished ().

(** [reset_parameters]: the [Linear] modules in the order of
    [self.modules()], the decoder's before the encoder's.
    [trunc_normal_(layer.bias, std=0.001)] raises nothing. *)
Fixpoint reset_layers (layers : list (Z * Z)) : outcome () :=
  match layers with
  | [] => Finished ()
  | layer :: layers => _ ← xavier_uniform_ layer; reset_layers layers
  end.
Definition reset_parameters (self : MultiVAE) : outcome () :=
  reset_layers (p_layers self ++ q_layers self).

Definition MultiVAE_init (p_dims : list Z) (q_dims : option (list Z))
  : outcome MultiVAE :=
  self ← of_result (MultiVAE_layers p_dims q_dims);
  _ ← reset_parameters self;
  Finished self.

(** The encoder dimensions [__init__] settles on. *)
Definition encoder_dims (p_dims : list Z) (q_dims : option (list Z))
  : list Z :=
  match q_dims with
  | Some (q0 :: q) => q0 :: q
  | _ => reverse p_dims
  end.

(** Each layer feeds the next. *)
Definition composable (layers : list (Z * Z)) : Prop :=
  ∀ i a b, layers !! i = Some a → layers !! S i = Some b → a.2 = b.1.

(** Two neighbouring dimensions that are both zero. *)
Definition adjacent_zeros (dims : list Z) : Prop :=
  ∃ i, dims !! i = Some 0 ∧ dims !! S i = Some 0.

(** *** [main] *)

(** The minimum number of epochs to run before early stopping. *)
Definition MIN_EPOCHS : Z := 10.

#[global] Instance Qlt_decision (x y : Q) : Decision (x < y)%Q.
Proof.
  destruct (Qlt_le_dec x y) as [H|H]; [by left|].
  right. by apply Qle_not_lt.
Defined.

(** The lines the loop of [main] prints: one per epoch, and ['Best val']
    when it stops early. *)
Inductive Line (F : Type) : Type :=
  | EpochLine (epoch : Z) (train_loss : F) (val_map best_val_map : Q)
  | BestVal (best_val_map : Q).
Arguments EpochLine {F} epoch train_loss val_map best_val_map.
Arguments BestVal {F} best_val_map.

(** The state of the loop of [main]: the model and the generators, the
    best validation score so far, the module pickled in the checkpoint file
    if the file exists, and the lines printed. *)
Record Progress (F Net Rng : Type) : Type := {
  model : Net;
  total_optimization_steps : Z;
  np_random : Rng;
  best_val_map : Q;
  checkpoint : option Net;
  printed : list (Line F);
}.
Arguments model {F Net Rng} _.
Arguments total_optimization_steps {F Net Rng} _.
Arguments np_random {F Net Rng} _.
Arguments best_val_map {F Net Rng} _.
Arguments checkpoint {F Net Rng} _.
Arguments printed {F Net Rng} _.

(** [torch.load(f, weights_only=...)] of a file written by
    [torch.save(model, f)], which pickles the module itself: the restricted
    unpickler of [weights_only=True] refuses it. *)
Definition torch_load {Net} (weights_only : bool) (file : option Net)
  : outcome Net :=
  match file with
  | None => FileNotFoundError
  | Some module => if weights_only then UnpicklingError else Finished module
  end.

(** [main] calls [torch.load(model_filename)], leaving [weights_only] at its
    default, which is [True] from torch 2.6 on. *)
Definition weights_only_default : bool := true.

Section Driver.
Variable F : Type.
Variable Net : Type.
Variable Rng : Type.
Variable fzero : F.
Variable fadd : F → F → F.
Variable fdiv_int : F → Z → F.
Variable true_div : Z → Z → F.
Variable fmin : F → F → F.
Variable shuffle : Rng → list Z → list Z * Rng.
Variable fit : Net → list (list Q) → F → Net * F.
Variable scores : Net → list (list Q) → list (list Q).
Variable evaluate : list (list Z) → String.string → Q.
(** [best_val_map - VAL_MAP_ATOL], in float arithmetic. *)
Variable sub_atol : Q → Q.
(** numpy's generator after [seed_everything(seed)], and the model built
    and initialised after it, with its optimizer. *)
Variable seeded_rng : Z → Rng.
Variable new_model : MultiVAE → Z → Net.

Variable args : Args F.
Variable num_src_nodes num_dst_nodes eval_k : Z.

(** The loop of [main] over the epochs still to run; [break] ends it. *)
Fixpoint epoch_loop (data_dict : DataDict) (epoch_range : list Z)
    (s : Progress F Net Rng) : result (Progress F Net Rng) :=
  match epoch_range with
  | [] => Return s
  | epoch :: epoch_range =>
      '(model, steps, rng, train_loss) ←
        train F Net Rng fzero fadd fdiv_int true_div fmin shuffle fit args
          num_dst_nodes (model s) (total_optimization_steps s)
          (np_random s) data_dict;
      '(val_loss, val_map) ←
        test F Net scores evaluate args num_src_nodes num_dst_nodes eval_k
          model data_dict Stage.val;
      let improved := bool_decide (best_val_map s < val_map)%Q in
      let best := if improved then val_map else best_val_map s in
      let file := if improved then Some model else checkpoint s in
      let s' :=
        {| model := model; total_optimization_steps := steps;
           np_random := rng; best_val_map := best; checkpoint := file;
           printed :=
             printed s ++ [EpochLine epoch train_loss val_map best] |} in
      let should_check_early_stop := bool_decide (epoch > MIN_EPOCHS) in
      if should_check_early_stop && bool_decide (val_map < sub_atol best)%Q
      then
        (* print 'Best val' and break *)
        Return {| model := model; total_optimization_steps := steps;
                  np_random := rng; best_val_map := best; checkpoint := file;
                  printed := printed s' ++ [BestVal best] |}
      else epoch_loop data_dict epoch_range s'
  end.

(** [main] on the three tables of the task, with the checkpoint file as
    it is found: [None] when there is no such file, otherwise the module an
    earlier run pickled into it.  It ends with the lines of the loop and
    the two numbers of its last line, [best_val_map] and [test_map]. *)
Definition main (train_edges val_edges test_edges : list (Z * Z))
    (file : option Net) : outcome (list (Line F) * Q * Q) :=
  data_dict ←
    of_result (load_data_dict num_src_nodes train_edges val_edges test_edges);
  arch ← MultiVAE_init [200; 600; num_dst_nodes] None;
  epoch_range ← of_result (py_range 1 (epochs args + 1) 1);
  s ← of_result
        (epoch_loop data_dict epoch_range
           {| model := new_model arch (seed args);
              total_optimization_steps := 0;
              np_random := seeded_rng (seed args);
              best_val_map := 0; checkpoint := file; printed := [] |});
  model ← torch_load weights_only_default (checkpoint s);
  '(test_loss, test_map) ←
    of_result (test F Net scores evaluate args num_src_nodes num_dst_nodes
                 eval_k model data_dict Stage.test);
  Finished (printed s, best_val_map s, test_map).
End Driver.

(** What [torch.topk(scores, k)] promises of one row, whichever of several
    equal scores it prefers: [k] distinct positions of the row, none left
    out scoring more than a selected one, listed by decreasing score. *)
Definition top_k_of (k : Z) (t : list Q) (l : list Z) : Prop :=
  length l = Z.to_nat k ∧ NoDup l ∧
  (∀ i, i ∈ l → 0 ≤ i < Z.of_nat (length t)) ∧
  (∀ i j qi qj, i ∈ l → j ∉ l → 0 ≤ j →
     t !! Z.to_nat i = Some qi → t !! Z.to_nat j = Some qj →
     (qj <= qi)%Q) ∧
  (∀ a b i j qi qj, (a < b)%nat → l !! a = Some i → l !! b = Some j →
     t !! Z.to_nat i = Some qi → t !! Z.to_nat j = Some qj →
     (qj <= qi)%Q).

(** An epoch line by its four values, whether the loop stops after it, and
    the line that closes the output of a run that stopped early. *)
Definition epoch_line {F} (l : Z * F * Q * Q) : Line F :=
  EpochLine l.1.1.1 l.1.1.2 l.1.2 l.2.
Definition stops_early {F} (sub_atol : Q → Q) (l : Z * F * Q * Q) : bool :=
  bool_decide (l.1.1.1 > MIN_EPOCHS) && bool_decide (l.1.2 < sub_atol l.2)%Q.
Definition closing_line {F} (sub_atol : Q → Q) (lines : list (Z * F * Q * Q))
  : list (Line F) :=
  match last lines with
  | Some l => if stops_early sub_atol l then [BestVal l.2] else []
  | None => []
  end.

(** The best score after one more validation score, and the best scores
    printed along a run. *)
Definition track (best val_map : Q) : Q :=
  if bool_decide (best < val_map)%Q then val_map else best.
Fixpoint running_best (best : Q) (val_maps : list Q) : list Q :=
  match val_maps with
  | [] => []
  | v :: val_maps => track best v :: running_best (track best v) val_maps
  end.

(** The edges of a table of the task: sources and destinations within
    the task's node counts. *)
Definition task_edges (num_src_nodes num_dst_nodes : Z)
    (edges : list (Z * Z)) : Prop :=
  Forall (λ e, 0 ≤ e.1 < num_src_nodes ∧ 0 ≤ e.2 < num_dst_nodes) edges.

(** ** A small data set

    Three sources and thirty destinations. *)

Definition example_data : DataDict :=
  {| dd_train := ([0; 2; 2; 5], [(0, 10); (0, 11); (2, 20); (2, 21); (2, 22)]);
     dd_val := ([0; 1; 1; 2], [(0, 12); (2, 23)]);
     dd_test := ([0; 0; 1; 1], [(1, 5)]) |}.

(** The same training adjacency, with no validation edge. *)
Definition no_targets : DataDict :=
  {| dd_train := ([0; 2; 2; 5], [(0, 10); (0, 11); (2, 20); (2, 21); (2, 22)]);
     dd_val := ([0; 0; 0; 0], []);
     dd_test := ([0; 0; 1; 1], [(1, 5)]) |}.

Definition example_args : Args Q :=
  {| batch_size := 2; epochs := 3; total_anneal_steps := 0;
     anneal_cap := 1%Q; seed := 42 |}.

(** * Properties *)

(** ** The exception monad *)

Lemma bind_Return {A B} (f : A → result B) (m : result A) (b : B) :
  m ≫= f = Return b ↔ ∃ a, m = Return a ∧ f a = Return b.
Proof.
  destruct m as [e|a]; simpl; split.
  - intros [=].
  - intros (a & [=] & _).
  - eauto.
  - by intros (a' & [= <-] & ?).
Qed.

Lemma bind_Raise {A B} (f : A → result B) (m : result A) (e : exn) :
  m ≫= f = Raise e ↔ m = Raise e ∨ ∃ a, m = Return a ∧ f a = Raise e.
Proof.
  destruct m as [e'|a]; simpl; split.
  - intros [= ->]. by left.
  - intros [[= ->] | (a & [=] & _)]. done.
  - intros H. right. by exists a.
  - intros [[=] | (a' & [= <-] & H)]. exact H.
Qed.

(** ** Indexing *)

Lemma norm_index_nonneg n i :
  0 ≤ i < Z.of_nat n → norm_index n i = Return (Z.to_nat i).
Proof. intros ?. unfold norm_index. by rewrite bool_decide_eq_true_2. Qed.

Lemma norm_index_Return n i p :
  norm_index n i = Return p ↔
  (- Z.of_nat n ≤ i < Z.of_nat n) ∧ Z.of_nat p = i mod Z.of_nat n.
Proof.
  unfold norm_index. repeat case_bool_decide; split.
  - intros [= <-]. split; [lia|]. rewrite Z.mod_small; lia.
  - intros [_ Hp]. f_equal. rewrite Z.mod_small in Hp; lia.
  - intros [= <-]. split; [lia|].
    rewrite <- (Z.mod_add i 1) by lia. rewrite Z.mod_small; lia.
  - intros [_ Hp]. f_equal.
    rewrite <- (Z.mod_add i 1) in Hp by lia. rewrite Z.mod_small in Hp; lia.
  - intros [=].
  - lia.
Qed.

Lemma norm_index_Raise n i e :
  norm_index n i = Raise e ↔
  e = IndexError ∧ ¬ (- Z.of_nat n ≤ i < Z.of_nat n).
Proof.
  unfold norm_index. repeat case_bool_decide; split;
    try (intros [=]); try (intros [-> ?]); try done; try lia.
  subst. split; [done | lia].
Qed.

Lemma norm_index_lt n i p : norm_index n i = Return p → (p < n)%nat.
Proof.
  intros [Hr Hp]%norm_index_Return.
  assert (0 ≤ i mod Z.of_nat n < Z.of_nat n) by (apply Z.mod_pos_bound; lia).
  lia.
Qed.

Lemma getitem_nonneg {A} (t : list A) i x :
  0 ≤ i → t !! Z.to_nat i = Some x → getitem t i = Return x.
Proof.
  intros Hi Hx. unfold getitem.
  rewrite norm_index_nonneg; [simpl; by rewrite Hx|].
  apply lookup_lt_Some in Hx. lia.
Qed.

Lemma wrap_ids_nonneg n idx :
  Forall (λ i, 0 ≤ i < Z.of_nat n) idx → wrap_ids n idx = idx.
Proof.
  induction 1 as [|i idx Hi _ IH]; [done|].
  unfold wrap_ids in *. rewrite fmap_cons, IH. f_equal. by apply Z.mod_small.
Qed.

Lemma index_fill_Return {A} (t : list A) idx v t' :
  index_fill t idx v = Return t' →
  length t' = length t ∧
  Forall (λ i, - Z.of_nat (length t) ≤ i < Z.of_nat (length t)) idx ∧
  ∀ p, t' !! p =
       if bool_decide (Z.of_nat p ∈ wrap_ids (length t) idx)
       then (λ _, v) <$> t !! p else t !! p.
Proof.
  revert t. induction idx as [|i idx IH]; intros t; simpl.
  - intros [= <-]. by split_and!; [| constructor |].
  - intros (p0 & Hp0 & Hrest)%bind_Return.
    apply IH in Hrest as (Hlen & Hall & Hlook).
    rewrite length_insert in Hlen, Hall, Hlook.
    pose proof (norm_index_lt _ _ _ Hp0) as Hlt.
    apply norm_index_Return in Hp0 as [Hr Hp0].
    split_and!; [done | by constructor |].
    intros p. rewrite Hlook, <- Hp0.
    destruct (decide (p = p0)) as [->|Hne].
    + rewrite list_lookup_insert_eq by done.
      rewrite (bool_decide_eq_true_2 (_ ∈ _ :: _)) by left.
      destruct (lookup_lt_is_Some_2 t p0 Hlt) as [x ->]. by case_bool_decide.
    + rewrite list_lookup_insert_ne by done.
      apply (f_equal (λ b : bool, if b then _ else _)).
      apply bool_decide_ext. rewrite elem_of_cons.
      split; [by right | intros [?|?]; [lia | done]].
Qed.

Lemma index_fill_ok {A} (t : list A) idx v :
  Forall (λ i, - Z.of_nat (length t) ≤ i < Z.of_nat (length t)) idx →
  ∃ t', index_fill t idx v = Return t'.
Proof.
  revert t. induction idx as [|i idx IH]; intros t Hall; simpl; [eauto|].
  apply Forall_cons in Hall as [Hi Hall].
  destruct (norm_index (length t) i) as [e|p] eqn:Hp.
  - apply norm_index_Raise in Hp. tauto.
  - simpl. apply IH. by rewrite length_insert.
Qed.

Lemma index_fill_Raise {A} (t : list A) idx v :
  Exists (λ i, ¬ (- Z.of_nat (length t) ≤ i < Z.of_nat (length t))) idx →
  index_fill t idx v = Raise IndexError.
Proof.
  revert t. induction idx as [|i idx IH]; intros t Hex; simpl.
  - by apply Exists_nil in Hex.
  - destruct (norm_index (length t) i) as [e|p] eqn:Hp.
    + apply norm_index_Raise in Hp as [-> _]. done.
    + simpl. apply IH. rewrite length_insert.
      apply Exists_cons in Hex as [Hex|Hex]; [|done].
      apply norm_index_Return in Hp. tauto.
Qed.

(** ** [topk] *)

#[global] Instance prio_ge_trans : Transitive prio_ge.
Proof. intros a b c Hab Hbc. unfold prio_ge in *. by eapply Qle_trans. Qed.

#[global] Instance prio_ge_total : Total prio_ge.
Proof.
  intros a b. unfold prio_ge.
  destruct (Qlt_le_dec a.2 b.2) as [H|H]; [right | left]; [|done].
  by apply Qlt_le_weak.
Qed.

Lemma elem_of_zip_seqZ {A} (t : list A) i x :
  (i, x) ∈ zip (seqZ 0 (Z.of_nat (length t))) t ↔
  0 ≤ i ∧ t !! Z.to_nat i = Some x.
Proof.
  rewrite list_elem_of_lookup. split.
  - intros (p & Hp). apply lookup_zip_with_Some in Hp
      as (i' & x' & [= <- <-] & Hi & Hx).
    apply lookup_seqZ in Hi as [-> _]. split; [lia|].
    by rewrite Z.add_0_l, Nat2Z.id.
  - intros [Hi Hx]. exists (Z.to_nat i).
    apply lookup_zip_with_Some. exists i, x. split_and!; [done| |done].
    apply lookup_seqZ. apply lookup_lt_Some in Hx. lia.
Qed.

Lemma fst_zip_seqZ {A} (t : list A) :
  (zip (seqZ 0 (Z.of_nat (length t))) t).*1 = seqZ 0 (Z.of_nat (length t)).
Proof. apply fst_zip. rewrite length_seqZ. lia. Qed.

(** What [topk] guarantees: [k] distinct positions, and no position left
    out holds a larger value than a selected one. *)
Lemma topk_Return k t l :
  topk k t = Return l →
  0 ≤ k ≤ Z.of_nat (length t) ∧
  length l = Z.to_nat k ∧ NoDup l ∧
  (∀ i, i ∈ l → 0 ≤ i < Z.of_nat (length t)) ∧
  (∀ i j qi qj, i ∈ l → j ∉ l → 0 ≤ j →
     t !! Z.to_nat i = Some qi → t !! Z.to_nat j = Some qj →
     (qj <= qi)%Q).
Proof.
  unfold topk. case_bool_decide as Hk; [|done]. intros [= <-].
  set (ps := zip (seqZ 0 (Z.of_nat (length t))) t).
  set (sorted := merge_sort prio_ge ps).
  assert (Hperm : sorted ≡ₚ ps) by apply merge_sort_Permutation.
  assert (Hsort : StronglySorted prio_ge sorted)
    by apply (StronglySorted_merge_sort _).
  assert (Hfst : sorted.*1 ≡ₚ seqZ 0 (Z.of_nat (length t))).
  { rewrite Hperm. unfold ps. by rewrite fst_zip_seqZ. }
  assert (Hnd : NoDup sorted.*1) by (rewrite Hfst; apply NoDup_seqZ).
  refine (conj Hk (conj _ (conj _ (conj _ _)))).
  - rewrite length_take_le; [done|].
    rewrite Hfst, length_seqZ. lia.
  - apply (sublist_NoDup _ _ Hnd), sublist_take.
  - intros i Hi. apply elem_of_take in Hi as (p & Hp & _).
    apply list_elem_of_lookup_2 in Hp. rewrite Hfst in Hp.
    apply elem_of_seqZ in Hp. lia.
  - intros i j qi qj Hi Hj Hj0 Hqi Hqj.
    rewrite <- fmap_take in Hi, Hj.
    apply list_elem_of_fmap in Hi as ([i' qi'] & -> & Hi). simpl in *.
    assert ((i', qi') ∈ ps) as [_ Hqi']%elem_of_zip_seqZ.
    { rewrite <- Hperm. rewrite <- (take_drop (Z.to_nat k) sorted).
      apply elem_of_app. by left. }
    assert (qi' = qi) as -> by congruence.
    assert ((j, qj) ∈ sorted) as Hjs.
    { rewrite Hperm. by apply elem_of_zip_seqZ. }
    rewrite <- (take_drop (Z.to_nat k) sorted) in Hjs, Hsort.
    apply elem_of_app in Hjs as [Hjs|Hjs].
    + exfalso. apply Hj. apply list_elem_of_fmap. by exists (j, qj).
    + apply (StronglySorted_app_1_elem_of _ _ _ _ _ Hsort Hi Hjs).
Qed.

Lemma topk_ok k t :
  0 ≤ k ≤ Z.of_nat (length t) → ∃ l, topk k t = Return l.
Proof. intros ?. unfold topk. rewrite bool_decide_eq_true_2 by done. eauto. Qed.

(** A value at least [τ] is selected as soon as the cells holding such
    values number at most [k]. *)
Lemma topk_includes_high k t l (τ : Q) (L : list Z) :
  topk k t = Return l →
  (length L ≤ Z.to_nat k)%nat →
  (∀ j q, 0 ≤ j → t !! Z.to_nat j = Some q → (τ <= q)%Q → j ∈ L) →
  ∀ j q, 0 ≤ j → t !! Z.to_nat j = Some q → (τ <= q)%Q → j ∈ l.
Proof.
  intros (Hk & Hlen & Hnd & Hrange & Hdom)%topk_Return HL Hhigh j q Hj Hq Hτ.
  destruct (decide (j ∈ l)) as [|Hnot]; [done|]. exfalso.
  assert (Hsub : j :: l ⊆+ L).
  { apply NoDup_submseteq; [by constructor|].
    intros i [->|Hi]%elem_of_cons; [by eapply Hhigh|].
    destruct (Hrange i Hi) as [Hi0 Hin].
    destruct (lookup_lt_is_Some_2 t (Z.to_nat i)) as [qi Hqi]; [lia|].
    apply (Hhigh i qi Hi0 Hqi).
    eapply Qle_trans; [exact Hτ|]. by eapply Hdom. }
  apply submseteq_length in Hsub. simpl in Hsub. lia.
Qed.

(** ** The priority array *)

Lemma uniform_float_unit bits :
  (0 <= uniform_float bits)%Q ∧ (uniform_float bits < 1)%Q.
Proof.
  unfold uniform_float, Qle, Qlt. simpl.
  assert (bits mod 2 ^ 24 < 2 ^ 24)%N by (by apply N.mod_lt).
  change (2 ^ 24)%N with 16777216%N in *.
  generalize (eq_refl : Z.pos (2 ^ 24) = 16777216). intros ->.
  generalize dependent (bits mod 16777216)%N. intros m Hm. lia.
Qed.

Lemma torch_rand_length n g : length (torch_rand n g).1 = n.
Proof. simpl. by rewrite length_fmap, length_seq. Qed.

Lemma torch_rand_unit n g : unit_draws (torch_rand n g).1.
Proof.
  simpl. apply Forall_fmap, Forall_forall. intros i _.
  apply uniform_float_unit.
Qed.

Lemma priority_array_Return rnd idgnn y pr :
  priority_array rnd idgnn (Some y) = Return pr →
  length pr = length rnd ∧
  Forall (in_range (length rnd)) idgnn ∧ Forall (in_range (length rnd)) y ∧
  ∀ p, pr !! p = priority_of rnd idgnn y p.
Proof.
  unfold priority_array. simpl.
  intros (r1 & H1 & H2)%bind_Return.
  apply index_fill_Return in H1 as (Hl1 & Ha1 & Hv1).
  apply index_fill_Return in H2 as (Hl2 & Ha2 & Hv2).
  rewrite Hl1 in Hl2, Ha2, Hv2. split_and!; [done..|].
  intros p. rewrite Hv2, Hv1. unfold priority_of.
  repeat case_bool_decide; try done. by destruct (rnd !! p).
Qed.

Lemma priority_array_ok rnd idgnn y :
  Forall (in_range (length rnd)) idgnn → Forall (in_range (length rnd)) y →
  ∃ pr, priority_array rnd idgnn (Some y) = Return pr.
Proof.
  intros Hi Hy. unfold priority_array.
  destruct (index_fill_ok rnd idgnn (3 : Q) Hi) as [r1 H1]. rewrite H1. simpl.
  apply index_fill_ok.
  apply index_fill_Return in H1 as (-> & _). done.
Qed.

Lemma priority_of_high rnd idgnn y p q :
  unit_draws rnd → priority_of rnd idgnn y p = Some q →
  ((4 <= q)%Q → Z.of_nat p ∈ wrap_ids (length rnd) y) ∧
  ((3 <= q)%Q → Z.of_nat p ∈ wrap_ids (length rnd) (y ++ idgnn)).
Proof.
  intros Hu. unfold priority_of, wrap_ids. rewrite fmap_app, elem_of_app.
  repeat case_bool_decide; try tauto.
  - intros [q0 [_ ->]]%fmap_Some. split; [|tauto].
    intros Hq. by apply Qle_bool_iff in Hq.
  - intros Hq. apply (Forall_lookup_1 _ _ _ _ Hu) in Hq as [_ Hq].
    split; intros Hq'; exfalso; apply (Qlt_not_le _ _ Hq);
      (eapply Qle_trans; [|exact Hq']); by apply Qle_bool_iff.
Qed.

Lemma priority_of_required rnd idgnn y p :
  (p < length rnd)%nat → Z.of_nat p ∈ wrap_ids (length rnd) y →
  priority_of rnd idgnn y p = Some (4 : Q).
Proof.
  intros Hp Hin. unfold priority_of. rewrite bool_decide_eq_true_2 by done.
  by destruct (lookup_lt_is_Some_2 rnd p Hp) as [x ->].
Qed.

Lemma priority_of_forced rnd idgnn y p :
  (p < length rnd)%nat → Z.of_nat p ∈ wrap_ids (length rnd) (y ++ idgnn) →
  ∃ q, priority_of rnd idgnn y p = Some q ∧ (3 <= q)%Q.
Proof.
  intros Hp Hin. unfold priority_of, wrap_ids in *.
  rewrite fmap_app, elem_of_app in Hin.
  destruct (lookup_lt_is_Some_2 rnd p Hp) as [x ->].
  repeat case_bool_decide; try tauto; simpl; eexists; (split; [done|]);
    by apply Qle_bool_iff.
Qed.

Lemma wrap_ids_bound n idx id :
  Forall (in_range n) idx → id ∈ wrap_ids n idx → 0 ≤ id < Z.of_nat n.
Proof.
  intros Hall (i & -> & Hi)%list_elem_of_fmap.
  apply (proj1 (Forall_forall _ _) Hall) in Hi. unfold in_range in Hi.
  apply Z.mod_pos_bound. lia.
Qed.

(** ** The Candidate Sampler *)

Lemma candidate_sampler_Return self rnd idgnn y l :
  candidate_sampler self rnd idgnn (Some y) = Return l →
  ∃ k pr, rhs_sample_size self = Some k ∧
          priority_array rnd idgnn (Some y) = Return pr ∧
          topk k pr = Return l.
Proof.
  unfold candidate_sampler. intros (pr & Hpr & Hk)%bind_Return.
  destruct (rhs_sample_size self) as [k|]; [|done]. simpl in Hk. eauto.
Qed.

Lemma candidate_sampler_ok self rnd idgnn y k :
  rhs_sample_size self = Some k → 0 ≤ k ≤ Z.of_nat (length rnd) →
  Forall (in_range (length rnd)) idgnn → Forall (in_range (length rnd)) y →
  ∃ l, candidate_sampler self rnd idgnn (Some y) = Return l.
Proof.
  intros Hk Hle Hi Hy. unfold candidate_sampler.
  destruct (priority_array_ok rnd idgnn y Hi Hy) as [pr Hpr].
  rewrite Hpr, Hk. simpl. apply topk_ok.
  apply priority_array_Return in Hpr as (-> & _). done.
Qed.

Section Sampler.
Context (self : ContextGNN) (rnd : list Q) (idgnn y l : list Z) (k : Z).
Hypothesis Hsample : candidate_sampler self rnd idgnn (Some y) = Return l.
Hypothesis Hsize : rhs_sample_size self = Some k.
Hypothesis Hunit : unit_draws rnd.

Let n := length rnd.

Lemma sampler_shape :
  0 ≤ k ≤ Z.of_nat n ∧ length l = Z.to_nat k ∧ NoDup l ∧
  ∀ id, id ∈ l → 0 ≤ id < Z.of_nat n.
Proof.
  destruct (candidate_sampler_Return _ _ _ _ _ Hsample)
    as (k' & pr & Hk' & Hpr & Htop).
  assert (k' = k) as -> by congruence.
  apply priority_array_Return in Hpr as (Hlen & _).
  apply topk_Return in Htop as (? & ? & ? & ? & _).
  rewrite Hlen in *. done.
Qed.

Lemma sampler_in_range :
  Forall (in_range n) idgnn ∧ Forall (in_range n) y.
Proof.
  destruct (candidate_sampler_Return _ _ _ _ _ Hsample)
    as (k' & pr & Hk' & Hpr & Htop).
  apply priority_array_Return in Hpr as (_ & ? & ? & _). done.
Qed.

(** Cells at or above a fixed priority are all selected when they fit. *)
Lemma sampler_includes (τ : Q) (L : list Z) :
  (length L ≤ Z.to_nat k)%nat →
  (∀ p q, priority_of rnd idgnn y p = Some q → (τ <= q)%Q →
          Z.of_nat p ∈ L) →
  ∀ p q, priority_of rnd idgnn y p = Some q → (τ <= q)%Q →
         Z.of_nat p ∈ l.
Proof.
  destruct (candidate_sampler_Return _ _ _ _ _ Hsample)
    as (k' & pr & Hk' & Hpr & Htop).
  assert (k' = k) as -> by congruence.
  apply priority_array_Return in Hpr as (Hlen & _ & _ & Hpr).
  intros HL Hhigh p q Hq Hτ.
  apply (topk_includes_high _ _ _ τ L Htop HL) with (q := q);
    [|lia| |done].
  - intros j qj Hj Hqj. rewrite Hpr in Hqj.
    intros ?. rewrite <- (Z2Nat.id j Hj). by eapply Hhigh.
  - by rewrite Nat2Z.id, Hpr.
Qed.

(** A selected cell holds at least the priority of a cell left out. *)
Lemma sampler_dominates i j qi qj :
  i ∈ l → Z.of_nat j ∉ l →
  priority_of rnd idgnn y (Z.to_nat i) = Some qi →
  priority_of rnd idgnn y j = Some qj → (qj <= qi)%Q.
Proof.
  destruct (candidate_sampler_Return _ _ _ _ _ Hsample)
    as (k' & pr & Hk' & Hpr & Htop).
  apply priority_array_Return in Hpr as (Hlen & _ & _ & Hpr).
  apply topk_Return in Htop as (_ & _ & _ & _ & Hdom).
  intros Hi Hj Hqi Hqj.
  apply (Hdom i (Z.of_nat j) qi qj Hi); [done | lia | |].
  - by rewrite Hpr.
  - by rewrite Nat2Z.id, Hpr.
Qed.

Lemma sampler_required :
  (length (remove_dups (wrap_ids n y)) ≤ Z.to_nat k)%nat →
  ∀ id, id ∈ wrap_ids n y → id ∈ l.
Proof.
  intros Hfit id Hid.
  destruct sampler_in_range as [_ Hy].
  pose proof (wrap_ids_bound _ _ _ Hy Hid) as Hb.
  rewrite <- (Z2Nat.id id) by lia.
  apply (sampler_includes (4 : Q) _ Hfit) with (q := (4 : Q)).
  - intros p q Hq H4. apply elem_of_remove_dups.
    by apply (priority_of_high _ _ _ _ _ Hunit Hq).
  - apply priority_of_required; [subst n; lia|]. by rewrite Z2Nat.id by lia.
  - by apply Qle_bool_iff.
Qed.

(** If some required id is left out, the whole sample is required ids. *)
Lemma sampler_saturated id0 :
  id0 ∈ wrap_ids n y → id0 ∉ l → ∀ id, id ∈ l → id ∈ wrap_ids n y.
Proof.
  intros Hid0 Hout id Hid.
  destruct sampler_in_range as [_ Hy].
  destruct sampler_shape as (_ & _ & _ & Hrange).
  pose proof (wrap_ids_bound _ _ _ Hy Hid0) as Hb0.
  pose proof (Hrange id Hid) as Hb.
  destruct (lookup_lt_is_Some_2 rnd (Z.to_nat id)) as [x Hx];
    [subst n; lia|].
  assert (∃ q, priority_of rnd idgnn y (Z.to_nat id) = Some q)
    as [q Hq].
  { unfold priority_of. rewrite Hx. repeat case_bool_decide; eauto. }
  assert (4 <= q)%Q as H4.
  { apply (sampler_dominates id (Z.to_nat id0) q (4 : Q) Hid);
      [by rewrite Z2Nat.id by lia | done |].
    apply priority_of_required; [subst n; lia|].
    by rewrite Z2Nat.id by lia. }
  apply (priority_of_high _ _ _ _ _ Hunit Hq) in H4.
  by rewrite Z2Nat.id in H4 by lia.
Qed.

Lemma sampler_forced :
  (length (filter (λ id, id ∈ l) (wrap_ids n y)) + length idgnn
   ≤ Z.to_nat k)%nat →
  ∀ id, id ∈ wrap_ids n idgnn → id ∈ l.
Proof.
  intros Hfit id Hid.
  destruct sampler_in_range as [Hi Hy].
  destruct sampler_shape as (_ & Hlen & Hnd & _).
  assert (idgnn ≠ []) as Hne by (intros ->; by apply elem_of_nil in Hid).
  assert (0 < length idgnn)%nat by (destruct idgnn; simpl; [done|lia]).
  assert (Hall : Forall (λ id, id ∈ l) (wrap_ids n y)).
  { apply Forall_forall. intros id0 Hid0.
    destruct (decide (id0 ∈ l)) as [|Hout]; [done|]. exfalso.
    assert (l ⊆+ filter (λ id, id ∈ l) (wrap_ids n y)) as Hsub.
    { apply NoDup_submseteq; [done|]. intros i Hil.
      apply list_elem_of_filter. split; [done|].
      by eapply sampler_saturated. }
    apply submseteq_length in Hsub. lia. }
  assert (Hfilter : filter (λ id, id ∈ l) (wrap_ids n y) = wrap_ids n y).
  { clear -Hall. induction Hall as [|x xs Hx _ IH]; [done|].
    by rewrite filter_cons_True, IH. }
  rewrite Hfilter in Hfit. unfold wrap_ids in Hfit at 1.
  rewrite length_fmap in Hfit.
  pose proof (wrap_ids_bound _ _ _ Hi Hid) as Hb.
  assert (Hin : Z.of_nat (Z.to_nat id) ∈ wrap_ids n (y ++ idgnn)).
  { rewrite Z2Nat.id by lia. unfold wrap_ids in *.
    rewrite fmap_app, elem_of_app. by right. }
  destruct (priority_of_forced rnd idgnn y (Z.to_nat id)) as (q & Hq & H3);
    [subst n; lia | done |].
  rewrite <- (Z2Nat.id id) by lia.
  apply (sampler_includes (3 : Q) (wrap_ids n (y ++ idgnn))) with (q := q);
    [| |done..].
  - unfold wrap_ids. rewrite length_fmap, length_app. lia.
  - intros p q' Hq' H3'. by apply (priority_of_high _ _ _ _ _ Hunit Hq').
Qed.
End Sampler.

(** ** [map_index] *)

Lemma elem_of_positions_from p index s q :
  q ∈ positions_from p index s ↔
  p ≤ q ∧ index !! Z.to_nat (q - p) = Some s.
Proof.
  revert p. induction index as [|x index IH]; intros p; simpl.
  - rewrite elem_of_nil. split; [done|]. by intros [_ ?].
  - assert (Hstep : q ∈ positions_from (p + 1) index s ↔
                    p < q ∧ (x :: index) !! Z.to_nat (q - p) = Some s).
    { rewrite IH. split; intros [Hq Hl]; (split; [lia|]).
      - replace (Z.to_nat (q - p)) with (S (Z.to_nat (q - (p + 1)))) by lia.
        done.
      - replace (Z.to_nat (q - p)) with (S (Z.to_nat (q - (p + 1)))) in Hl
          by lia. done. }
    case_bool_decide as Hx.
    + rewrite elem_of_cons, Hstep. subst x. split.
      * intros [->|[? ?]]; [|split; [lia|done]].
        split; [lia|]. by rewrite Z.sub_diag.
      * intros [Hq Hl]. destruct (decide (q = p)) as [|Hne]; [by left|].
        right. split; [lia | done].
    + rewrite Hstep. split; intros [Hq Hl]; (split; [lia|done]) || idtac.
      split; [|done]. destruct (decide (q = p)) as [->|]; [|lia].
      rewrite Z.sub_diag in Hl. simpl in Hl. congruence.
Qed.

Lemma positions_from_notin p index s :
  s ∉ index → positions_from p index s = [].
Proof.
  revert p. induction index as [|x index IH]; intros p Hs; simpl; [done|].
  apply not_elem_of_cons in Hs as [Hx Hs].
  rewrite bool_decide_eq_false_2 by done. by apply IH.
Qed.

Lemma positions_from_NoDup p index s i :
  NoDup index → index !! i = Some s →
  positions_from p index s = [p + Z.of_nat i].
Proof.
  revert p i. induction index as [|x index IH]; intros p i Hnd Hi; [done|].
  apply NoDup_cons in Hnd as [Hx Hnd]. simpl. destruct i as [|i]; simpl in Hi.
  - injection Hi as ->. rewrite bool_decide_eq_true_2 by done.
    rewrite positions_from_notin by done. f_equal. lia.
  - rewrite bool_decide_eq_false_2.
    + rewrite (IH _ i) by done. f_equal. lia.
    + intros ->. apply Hx. by eapply list_elem_of_lookup_2.
Qed.

Lemma position_in_Some index s p :
  position_in index s = Some p → 0 ≤ p ∧ index !! Z.to_nat p = Some s.
Proof.
  unfold position_in, positions_of. intros Hp.
  assert (p ∈ positions_from 0 index s) as Hin.
  { destruct (positions_from 0 index s); [done|].
    injection Hp as ->. by left. }
  apply elem_of_positions_from in Hin. by rewrite Z.sub_0_r in Hin.
Qed.

Lemma position_in_None index s : position_in index s = None ↔ s ∉ index.
Proof.
  unfold position_in, positions_of. split.
  - intros Hp Hin. apply list_elem_of_lookup in Hin as [i Hi].
    assert (Z.of_nat i ∈ positions_from 0 index s) as Hpos.
    { apply elem_of_positions_from. split; [lia|].
      by rewrite Z.sub_0_r, Nat2Z.id. }
    destruct (positions_from 0 index s); [by apply elem_of_nil in Hpos|done].
  - intros Hs. by rewrite positions_from_notin.
Qed.

Lemma position_in_NoDup index s i :
  NoDup index → index !! i = Some s → position_in index s = Some (Z.of_nat i).
Proof.
  intros Hnd Hi. unfold position_in, positions_of.
  by rewrite (positions_from_NoDup _ _ _ i).
Qed.

Lemma present_position index s :
  present index s = notnan (position_in index s).
Proof.
  unfold present. destruct (position_in index s) as [p|] eqn:Hp; simpl.
  - apply bool_decide_eq_true_2. apply position_in_Some in Hp as [_ Hp].
    by eapply list_elem_of_lookup_2.
  - apply bool_decide_eq_false_2. by apply position_in_None.
Qed.

Lemma index_put_distinct {A} (t : list A) idx vals :
  NoDup idx → Forall (λ i, 0 ≤ i < Z.of_nat (length t)) idx →
  length vals = length idx →
  ∃ t', index_put t idx vals = Return t' ∧ length t' = length t ∧
        (∀ p i, idx !! p = Some i → t' !! Z.to_nat i = vals !! p) ∧
        (∀ q, Z.of_nat q ∉ idx → t' !! q = t !! q).
Proof.
  revert t vals. induction idx as [|i idx IH]; intros t vals Hnd Hall Hlen.
  - destruct vals; [|done]. exists t. by split_and!.
  - destruct vals as [|v vals]; [done|].
    apply NoDup_cons in Hnd as [Hi Hnd].
    apply Forall_cons in Hall as [Hir Hall].
    simpl. rewrite norm_index_nonneg by done. simpl.
    destruct (IH (<[Z.to_nat i:=v]> t) vals) as (t' & -> & Hl & Hin & Hout).
    { done. } { by rewrite length_insert. } { simpl in Hlen. lia. }
    rewrite length_insert in Hl.
    exists t'. split_and!; [done..| |].
    + intros [|p] j Hj; simpl in Hj.
      * injection Hj as ->. rewrite Hout by (rewrite Z2Nat.id by lia; done).
        simpl. apply list_lookup_insert_eq. lia.
      * simpl. by apply Hin.
    + intros q [Hq1 Hq2]%not_elem_of_cons. rewrite Hout by done.
      apply list_lookup_insert_ne. lia.
Qed.

Lemma tensor_max_Return t m :
  tensor_max t = Return m → Forall (λ x, x ≤ m) t.
Proof.
  destruct t as [|x t]; [done|]. simpl. intros [= <-].
  induction t as [|z t IH]; simpl.
  - constructor; [lia | constructor].
  - apply Forall_cons in IH as [Hx IH]. repeat constructor; [lia..|].
    eapply Forall_impl; [exact IH|]. simpl. lia.
Qed.

Lemma tensor_max_ok t : t ≠ [] → ∃ m, tensor_max t = Return m.
Proof. destruct t; [done|]. simpl. eauto. Qed.

Lemma omap_id_fmap {A B} (f : A → option B) (l : list A) :
  omap id (f <$> l) = omap f l.
Proof. induction l as [|x l IH]; [done|]. csimpl. by rewrite IH. Qed.

Section MapIndex.
Context (is_cuda : bool) (uninit : nat → Z).
Context (src index : list Z) (m : Z).
Hypothesis Hm : 0 ≤ m.
Hypothesis Hnd : NoDup index.
Hypothesis Hindex : Forall (λ i, 0 ≤ i ≤ m) index.
Hypothesis Hsrc : Forall (λ s, 0 ≤ s ≤ m) src.

(** The helper vector after [assoc[index] = arange(index.numel())]. *)
Lemma assoc_lookup (init : list Z) :
  length init = Z.to_nat (m + 1) →
  ∃ assoc,
    index_put init index (seqZ 0 (Z.of_nat (length index))) = Return assoc ∧
    ∀ s, 0 ≤ s ≤ m →
      assoc !! Z.to_nat s =
      match position_in index s with
      | Some p => Some p
      | None => init !! Z.to_nat s
      end.
Proof.
  intros Hlen.
  destruct (index_put_distinct init index (seqZ 0 (Z.of_nat (length index))))
    as (assoc & Hput & _ & Hin & Hout).
  { done. }
  { eapply Forall_impl; [exact Hindex|]. simpl. lia. }
  { rewrite length_seqZ. lia. }
  exists assoc. split; [done|]. intros s Hs.
  destruct (position_in index s) as [p|] eqn:Hp.
  - apply position_in_Some in Hp as [Hp0 Hp].
    rewrite (Hin _ _ Hp). rewrite lookup_seqZ_lt.
    + f_equal. lia.
    + apply lookup_lt_Some in Hp. lia.
  - apply position_in_None in Hp. apply Hout. by rewrite Z2Nat.id by lia.
Qed.

Lemma assoc_select (init assoc : list Z) :
  length init = Z.to_nat (m + 1) →
  (∀ s, 0 ≤ s ≤ m →
     assoc !! Z.to_nat s =
     match position_in index s with
     | Some p => Some p
     | None => init !! Z.to_nat s
     end) →
  ∃ out, index_select assoc src = Return out ∧
    Forall2 (λ s o, match position_in index s with
                    | Some p => o = p
                    | None => init !! Z.to_nat s = Some o
                    end) src out.
Proof.
  intros Hlen Hassoc. clear Hindex Hnd.
  induction src as [|s src' IH]; [by exists []|].
  apply Forall_cons in Hsrc as [Hs Hsrc'].
  destruct (IH Hsrc') as (out & Hout & Hall).
  destruct (lookup_lt_is_Some_2 init (Z.to_nat s)) as [d Hd]; [lia|].
  pose proof (Hassoc s Hs) as Hlook.
  exists (default d (position_in index s) :: out). split.
  - simpl. rewrite (getitem_nonneg assoc s (default d (position_in index s)));
      [simpl; by rewrite Hout | lia |].
    rewrite Hlook. by destruct (position_in index s).
  - constructor; [|done]. by destruct (position_in index s).
Qed.

Lemma left_merge_NoDup : left_merge src index = position_in index <$> src.
Proof.
  clear Hsrc. unfold left_merge.
  induction src as [|s src' IH]; [done|]. rewrite bind_cons, IH, fmap_cons.
  destruct (position_in index s) as [p|] eqn:Hp.
  - apply position_in_Some in Hp as [Hp0 Hp].
    unfold positions_of.
    rewrite (positions_from_NoDup 0 index s (Z.to_nat p)) by done.
    simpl. do 2 f_equal. lia.
  - apply position_in_None in Hp. unfold positions_of.
    by rewrite positions_from_notin.
Qed.

Lemma ne_minus_one_positions :
  ne_minus_one <$> omap (position_in index) src
  = (λ _, true) <$> omap (position_in index) src.
Proof.
  apply Forall_fmap_ext_1, Forall_forall. intros p Hp.
  apply list_elem_of_omap in Hp as (s & _ & [Hp _]%position_in_Some).
  unfold ne_minus_one. apply bool_decide_eq_true_2. lia.
Qed.

Lemma filter_mask_all {A} (l : list A) :
  filter_mask l ((λ _, true) <$> l) = l.
Proof. induction l as [|x l IH]; [done|]. csimpl. by rewrite IH. Qed.

Lemma forallb_notnan_present :
  forallb notnan (position_in index <$> src) = true ↔
  Forall (λ s, s ∈ index) src.
Proof.
  clear Hsrc. induction src as [|s src' IH]; simpl.
  - split; [constructor | done].
  - rewrite andb_true_iff, Forall_cons, IH, <- present_position.
    unfold present. by rewrite bool_decide_eq_true.
Qed.

Lemma present_all :
  Forall (λ s, s ∈ index) src →
  present index <$> src = (λ _, true) <$> omap (position_in index) src.
Proof.
  clear Hsrc. induction 1 as [|s src' Hs _ IH]; [done|]. csimpl.
  destruct (position_in index s) as [p|] eqn:Hp.
  - csimpl. rewrite IH. f_equal. by apply bool_decide_eq_true_2.
  - by apply position_in_None in Hp.
Qed.

(** The masked path: positions of the ids found, and the mask. *)
Lemma map_index_masked :
  map_index is_cuda uninit src index (Some m) false
  = Return (omap (position_in index) src, Some (present index <$> src)).
Proof.
  unfold map_index. simpl. case_bool_decide as Hpath.
  - unfold new_full. rewrite bool_decide_eq_true_2 by lia. simpl.
    destruct (assoc_lookup (replicate (Z.to_nat (m + 1)) (-1)))
      as (assoc & -> & Hassoc); [by rewrite length_replicate|]. simpl.
    destruct (assoc_select _ assoc (length_replicate _ _) Hassoc)
      as (out & -> & Hout). simpl. do 2 f_equal.
    + clear -Hout. induction Hout as [|s o src' out Hs _ IH]; [done|].
      csimpl. rewrite IH. destruct (position_in index s) as [p|] eqn:Hp.
      * subst o. unfold ne_minus_one.
        apply position_in_Some in Hp as [Hp _].
        by rewrite bool_decide_eq_true_2 by lia.
      * apply lookup_replicate in Hs as [-> _]. done.
    + f_equal. clear -Hout.
      induction Hout as [|s o src' out Hs _ IH]; [done|].
      csimpl. rewrite IH. f_equal. rewrite present_position.
      destruct (position_in index s) as [p|] eqn:Hp; simpl.
      * subst o. apply position_in_Some in Hp as [Hp _].
        apply bool_decide_eq_true_2. lia.
      * apply lookup_replicate in Hs as [-> _]. done.
  - rewrite left_merge_NoDup.
    destruct (forallb notnan (position_in index <$> src)) eqn:Hall.
    + apply forallb_notnan_present in Hall.
      rewrite omap_id_fmap. rewrite ne_minus_one_positions.
      rewrite filter_mask_all. by rewrite present_all.
    + rewrite omap_id_fmap. do 3 f_equal.
      rewrite <- list_fmap_compose. apply list_fmap_ext.
      intros _ s _. simpl. by rewrite present_position.
Qed.

(** The inclusive path, when every id of [src] is in [index]. *)
Lemma map_index_inclusive :
  Forall (λ s, s ∈ index) src →
  map_index is_cuda uninit src index (Some m) true
  = Return (omap (position_in index) src, None).
Proof.
  intros Hall. unfold map_index. simpl. case_bool_decide as Hpath.
  - unfold new_empty. rewrite bool_decide_eq_true_2 by lia. simpl.
    destruct (assoc_lookup (uninit <$> seq 0 (Z.to_nat (m + 1))))
      as (assoc & -> & Hassoc); [by rewrite length_fmap, length_seq|].
    simpl.
    destruct (assoc_select (uninit <$> seq 0 (Z.to_nat (m + 1))) assoc)
      as (out & -> & Hout); [by rewrite length_fmap, length_seq|done|].
    simpl. do 2 f_equal. clear -Hout Hall.
    induction Hout as [|s o src' out Hs _ IH]; [done|].
    apply Forall_cons in Hall as [Hin Hall]. csimpl. rewrite IH by done.
    destruct (position_in index s) as [p|] eqn:Hp; [by subst|].
    by apply position_in_None in Hp.
  - rewrite left_merge_NoDup.
    rewrite (proj2 forallb_notnan_present Hall).
    by rewrite omap_id_fmap.
Qed.
End MapIndex.

(** ** [sample_step] on a well-formed batch *)

Lemma valid_ids_in_range n ids : valid_ids n ids → Forall (in_range n) ids.
Proof. intros H. eapply Forall_impl; [exact H|]. unfold in_range. lia. Qed.

Lemma length_omap_position (l src : list Z) :
  length (omap (position_in l) src) = length (filter (λ id, id ∈ l) src).
Proof.
  induction src as [|s src IH]; [done|]. csimpl.
  destruct (position_in l s) as [p|] eqn:Hp.
  - apply position_in_Some in Hp as [_ Hp%list_elem_of_lookup_2].
    rewrite filter_cons_True by done. simpl. by rewrite IH.
  - apply position_in_None in Hp. by rewrite filter_cons_False.
Qed.

Lemma filter_mask_present_all {A} (l src : list Z) (t : list A) :
  Forall (λ s, s ∈ l) src → length t = length src →
  filter_mask t (present l <$> src) = t.
Proof.
  intros Hall. revert t.
  induction Hall as [|s src Hs _ IH]; intros [|x t] Hlen; try done.
  csimpl. unfold present at 1. rewrite bool_decide_eq_true_2 by done.
  f_equal. apply IH. simpl in Hlen. lia.
Qed.

Lemma filter_all_present (l src : list Z) :
  Forall (λ s, s ∈ l) src → filter (λ id, id ∈ l) src = src.
Proof.
  induction 1 as [|x xs Hx _ IH]; [done|]. by rewrite filter_cons_True, IH.
Qed.

Lemma length_remove_dups_le (l : list Z) :
  (length (remove_dups l) ≤ length l)%nat.
Proof.
  apply submseteq_length, NoDup_submseteq; [apply NoDup_remove_dups|].
  intros x. by rewrite elem_of_remove_dups.
Qed.

Section SampleStep.
Context (is_cuda : bool) (uninit : nat → Z) {R : Type}.
Context (rhs_embedding_row : Z → list R).
Context (self : ContextGNN) (rnd : list Q) (k : Z).
Context (rhs_idgnn_index lhs_idgnn_batch : list Z).
Context (rhs_gnn_embedding : list (list R)).
Context (lhs_y_batch rhs_y_index : list Z).

Hypothesis Hsize : rhs_sample_size self = Some k.
Hypothesis Hk : 0 < k ≤ Z.of_nat (num_rhs_nodes self).
Hypothesis Hrnd : length rnd = num_rhs_nodes self.
Hypothesis Hunit : unit_draws rnd.
Hypothesis Hidgnn : valid_ids (num_rhs_nodes self) rhs_idgnn_index.
Hypothesis Hy : valid_ids (num_rhs_nodes self) rhs_y_index.
Hypothesis Hnonempty : rhs_idgnn_index ≠ [].
Hypothesis Hbatch : length lhs_idgnn_batch = length rhs_idgnn_index.
Hypothesis Hemb : length rhs_gnn_embedding = length rhs_idgnn_index.
Hypothesis Hybatch : length lhs_y_batch = length rhs_y_index.

Lemma sample_step_from_valid :
  ∃ rhs_index,
    candidate_sampler self rnd rhs_idgnn_index (Some rhs_y_index)
    = Return rhs_index ∧
    sample_step_from is_cuda uninit R rhs_embedding_row self rnd
      rhs_idgnn_index lhs_idgnn_batch rhs_gnn_embedding
      (Some lhs_y_batch) (Some rhs_y_index)
    = Return
        (omap (position_in rhs_index) rhs_idgnn_index,
         rhs_embedding_row <$> rhs_index,
         filter_mask lhs_idgnn_batch (present rhs_index <$> rhs_idgnn_index),
         filter_mask rhs_gnn_embedding
           (present rhs_index <$> rhs_idgnn_index),
         Some (filter_mask lhs_y_batch (present rhs_index <$> rhs_y_index)),
         omap (position_in rhs_index) rhs_y_index).
Proof.
  destruct (candidate_sampler_ok self rnd rhs_idgnn_index rhs_y_index k)
    as [l Hl]; [done | lia | rewrite Hrnd; by apply valid_ids_in_range..|].
  exists l. split; [done|].
  destruct (sampler_shape _ _ _ _ _ _ Hl Hsize)
    as (_ & Hlen & Hnd & Hrange).
  rewrite Hrnd in Hrange.
  pose proof (sampler_required _ _ _ _ _ _ Hl Hsize Hunit) as Hreq.
  pose proof (sampler_forced _ _ _ _ _ _ Hl Hsize Hunit) as Hforced.
  rewrite Hrnd in Hreq, Hforced.
  rewrite (wrap_ids_nonneg _ _ Hy) in Hreq, Hforced.
  rewrite (wrap_ids_nonneg _ _ Hidgnn) in Hforced.
  unfold candidate_sampler, priority_array in Hl.
  unfold sample_step_from.
  destruct (index_fill rnd rhs_idgnn_index (3 : Q)) as [|r1]; [done|].
  simpl in Hl |- *.
  destruct (index_fill r1 rhs_y_index (4 : Q)) as [|pr]; [done|].
  simpl in Hl |- *. rewrite Hsize in Hl |- *. simpl in Hl |- *.
  rewrite Hl. simpl.
  assert (Hl_le : Forall (λ i, 0 ≤ i ≤ Z.of_nat (num_rhs_nodes self)) l).
  { apply Forall_forall. intros i Hi. apply Hrange in Hi. lia. }
  assert (Hy_le :
    Forall (λ i, 0 ≤ i ≤ Z.of_nat (num_rhs_nodes self)) rhs_y_index).
  { eapply Forall_impl; [exact Hy|]. simpl. lia. }
  (* the positives *)
  assert (Hfirst :
    ∃ mask,
      map_index is_cuda uninit rhs_y_index l
        (Some (Z.of_nat (num_rhs_nodes self)))
        (bool_decide (Z.of_nat (length rhs_y_index) ≤ k))
      = Return (omap (position_in l) rhs_y_index, mask) ∧
      (if bool_decide (Z.of_nat (length rhs_y_index) ≤ k)
       then Return (Some lhs_y_batch)
       else match mask with
            | Some mask => Some <$> bool_index lhs_y_batch mask
            | None => Raise TypeError
            end)
      = Return (Some (filter_mask lhs_y_batch
                        (present l <$> rhs_y_index)))).
  { case_bool_decide as Hincl.
    - assert (Forall (λ s, s ∈ l) rhs_y_index) as Hall.
      { apply Forall_forall, Hreq.
        pose proof (length_remove_dups_le rhs_y_index). lia. }
      exists None. split.
      + apply map_index_inclusive; [lia | done..].
      + by rewrite filter_mask_present_all.
    - exists (Some (present l <$> rhs_y_index)). split.
      + apply map_index_masked; [lia | done..].
      + unfold bool_index.
        rewrite bool_decide_eq_true_2 by (by rewrite length_fmap). done. }
  destruct Hfirst as (mask1 & -> & Hyb). simpl. rewrite Hyb. simpl.
  clear Hyb mask1.
  (* the sparse path *)
  destruct (tensor_max_ok rhs_idgnn_index Hnonempty) as [a Ha].
  destruct (tensor_max_ok l) as [b Hb].
  { intros ->. simpl in Hlen. lia. }
  set (m := Z.max a b).
  assert (Hm : 0 ≤ m).
  { destruct rhs_idgnn_index as [|i0 ?]; [done|].
    apply tensor_max_Return, Forall_cons in Ha as [Ha _].
    apply Forall_cons in Hidgnn as [? _]. lia. }
  assert (Hl_m : Forall (λ i, 0 ≤ i ≤ m) l).
  { apply tensor_max_Return in Hb.
    apply Forall_forall. intros i Hi.
    pose proof (proj1 (Forall_forall _ _) Hb i Hi). simpl in *.
    apply Hrange in Hi. lia. }
  assert (Hi_m : Forall (λ i, 0 ≤ i ≤ m) rhs_idgnn_index).
  { apply tensor_max_Return in Ha.
    apply Forall_forall. intros i Hi.
    pose proof (proj1 (Forall_forall _ _) Ha i Hi). simpl in *.
    pose proof (proj1 (Forall_forall _ _) Hidgnn i Hi). simpl in *. lia. }
  assert (Hnone : ∀ incl,
    map_index is_cuda uninit rhs_idgnn_index l None incl
    = map_index is_cuda uninit rhs_idgnn_index l (Some m) incl).
  { intros incl. unfold map_index. by rewrite Ha, Hb. }
  rewrite Hnone. rewrite length_omap_position.
  case_bool_decide as Hincl.
  - assert (Forall (λ s, s ∈ l) rhs_idgnn_index) as Hall.
    { apply Forall_forall, Hforced. lia. }
    rewrite (map_index_inclusive _ _ _ _ m) by done. simpl.
    by rewrite (filter_mask_present_all l _ lhs_idgnn_batch Hall Hbatch),
      (filter_mask_present_all l _ rhs_gnn_embedding Hall Hemb).
  - rewrite (map_index_masked _ _ _ _ m) by done. simpl.
    unfold bool_index.
    rewrite !bool_decide_eq_true_2 by (rewrite length_fmap; congruence).
    done.
Qed.
End SampleStep.

(** ** The Logit Fuser *)

Lemma index_select_total {A} (t : list A) idx :
  Forall (λ i, 0 ≤ i < Z.of_nat (length t)) idx →
  ∃ xs, index_select t idx = Return xs ∧ length xs = length idx ∧
        ∀ k i, idx !! k = Some i → xs !! k = t !! Z.to_nat i.
Proof.
  induction 1 as [|i idx Hi _ (xs & Hxs & Hlen & Hlook)].
  - exists []. by split_and!.
  - destruct (lookup_lt_is_Some_2 t (Z.to_nat i)) as [x Hx]; [lia|].
    exists (x :: xs). split_and!.
    + simpl. rewrite (getitem_nonneg t i x) by (done || lia). simpl.
      by rewrite Hxs.
    + simpl. by rewrite Hlen.
    + intros [|k] j Hj; simpl in *; [by injection Hj as <- | by apply Hlook].
Qed.

Lemma cell_insert {A} (t : list (list A)) (row : list A) p q v p' q' :
  t !! p = Some row → (q < length row)%nat →
  cell (<[p := <[q := v]> row]> t) p' q'
  = if decide (p' = p ∧ q' = q) then Some v else cell t p' q'.
Proof.
  intros Hrow Hq. unfold cell.
  pose proof (lookup_lt_Some _ _ _ Hrow) as Hp.
  destruct (decide (p' = p)) as [->|Hne].
  - rewrite list_lookup_insert_eq by done. rewrite Hrow. simpl.
    destruct (decide (q' = q)) as [->|Hneq].
    + rewrite list_lookup_insert_eq by done. by rewrite decide_True.
    + rewrite list_lookup_insert_ne by done. rewrite decide_False; [done|].
      by intros [_ ?].
  - rewrite list_lookup_insert_ne by done. rewrite decide_False; [done|].
    by intros [? _].
Qed.

Lemma index_put2_distinct {A} (t : list (list A)) (S : nat) rows cols vals :
  Forall (λ row, length row = S) t →
  Forall (λ i, 0 ≤ i < Z.of_nat (length t)) rows →
  Forall (λ j, 0 ≤ j < Z.of_nat S) cols →
  NoDup (zip rows cols) →
  length cols = length rows → length vals = length rows →
  ∃ t', index_put2 t rows cols vals = Return t' ∧
        length t' = length t ∧ Forall (λ row, length row = S) t' ∧
        (∀ k i j, rows !! k = Some i → cols !! k = Some j →
                  cell t' (Z.to_nat i) (Z.to_nat j) = vals !! k) ∧
        (∀ p q, (Z.of_nat p, Z.of_nat q) ∉ zip rows cols →
                cell t' p q = cell t p q).
Proof.
  revert t cols vals.
  induction rows as [|i rows IH]; intros t cols vals Ht Hr Hc Hnd Hlc Hlv.
  - destruct cols; [|done]. destruct vals; [|done].
    exists t. by split_and!.
  - destruct cols as [|j cols]; [done|]. destruct vals as [|v vals]; [done|].
    apply Forall_cons in Hr as [Hi Hr]. apply Forall_cons in Hc as [Hj Hc].
    simpl in Hnd. apply NoDup_cons in Hnd as [Hfresh Hnd].
    destruct (lookup_lt_is_Some_2 t (Z.to_nat i)) as [row Hrow]; [lia|].
    pose proof (proj1 (Forall_lookup _ _) Ht _ _ Hrow) as Hlen. simpl in Hlen.
    simpl. rewrite (getitem_nonneg t i row) by (done || lia). simpl.
    rewrite (norm_index_nonneg (length t) i) by lia. simpl.
    rewrite (norm_index_nonneg (length row) j) by lia. simpl.
    set (t1 := <[Z.to_nat i := <[Z.to_nat j := v]> row]> t).
    destruct (IH t1 cols vals) as (t' & -> & Hl' & Hrows' & Hin & Hout).
    { apply Forall_insert; [done|]. by rewrite length_insert. }
    { unfold t1. by rewrite length_insert. }
    { done. } { done. }
    { simpl in Hlc. lia. } { simpl in Hlv. lia. }
    unfold t1 in Hl'. rewrite length_insert in Hl'.
    exists t'. split_and!; [done..| |].
    + intros [|k] i' j' Hi' Hj'; simpl in Hi', Hj'.
      * injection Hi' as <-. injection Hj' as <-.
        rewrite Hout by (by rewrite !Z2Nat.id by lia).
        unfold t1. rewrite cell_insert by (done || lia).
        by rewrite decide_True.
      * simpl. by apply Hin.
    + intros p q Hpq. simpl in Hpq. apply not_elem_of_cons in Hpq as [Hne Hpq].
      rewrite Hout by done. unfold t1.
      rewrite cell_insert by (done || lia). rewrite decide_False; [done|].
      intros [-> ->]. apply Hne. by rewrite !Z2Nat.id by lia.
Qed.

Lemma zip_same_eq {A B C} (f : A → B → C) xs ys :
  length xs = length ys → zip_same f xs ys = Return (zip_with f xs ys).
Proof. intros H. unfold zip_same. by rewrite bool_decide_eq_true_2. Qed.

Section Fuser.
Context {R : Type} (Radd : R → R → R).
Context (dot : list R → list R → R) (lin_offset_embgnn : list R → R).

Lemma dense_logits_cell proj rhs p q u v :
  proj !! p = Some u → rhs !! q = Some v →
  cell (dense_logits Radd dot lin_offset_embgnn proj rhs) p q
  = Some (Radd (dot u v) (lin_offset_embgnn u)).
Proof.
  intros Hu Hv. unfold cell, dense_logits.
  rewrite lookup_zip_with, !list_lookup_fmap, Hu. simpl.
  by rewrite !list_lookup_fmap, Hv.
Qed.

Lemma dense_logits_shape proj rhs :
  length (dense_logits Radd dot lin_offset_embgnn proj rhs) = length proj ∧
  Forall (λ row, length row = length rhs)
    (dense_logits Radd dot lin_offset_embgnn proj rhs).
Proof.
  unfold dense_logits. split.
  - by rewrite length_zip_with, !length_fmap, Nat.min_id.
  - apply Forall_forall. intros row Hrow.
    apply elem_of_zip_with in Hrow as (r0 & off & -> & Hr0 & _).
    apply list_elem_of_fmap in Hr0 as (u & -> & _).
    by rewrite !length_fmap.
Qed.
End Fuser.

Section FuserClaim.
Context {R : Type} (Radd : R → R → R).
Context (dot mul_sum : list R → list R → R).
Context (head lin_offset_idgnn lin_offset_embgnn : list R → R).

(** C1.  [construct_logits] returns a [batchSize x rhsSampleSize] matrix;
    the cell at every sparse coordinate [(lhs_idgnn_batch[k],
    rhs_idgnn_index[k])] holds the sparse score [idgnn_logits[k]] plus the
    row's [lin_offset_idgnn], and every cell that is not a sparse
    coordinate holds the dense bilinear score plus the row's
    [lin_offset_embgnn].  The sparse coordinates are in range and pairwise
    distinct. *)
Theorem construct_logits_overwrite
    (lhs_embedding_projected lhs_embedding rhs_gnn_embedding rhs_embedding
       : list (list R))
    (lhs_idgnn_batch rhs_idgnn_index : list Z) :
  length lhs_embedding = length lhs_embedding_projected →
  length lhs_idgnn_batch = length rhs_gnn_embedding →
  length rhs_idgnn_index = length rhs_gnn_embedding →
  Forall (λ i, 0 ≤ i < Z.of_nat (length lhs_embedding_projected))
    lhs_idgnn_batch →
  Forall (λ j, 0 ≤ j < Z.of_nat (length rhs_embedding)) rhs_idgnn_index →
  NoDup (zip lhs_idgnn_batch rhs_idgnn_index) →
  ∃ logits,
    construct_logits R Radd dot mul_sum head lin_offset_idgnn
      lin_offset_embgnn lhs_embedding_projected lhs_embedding
      rhs_gnn_embedding rhs_embedding lhs_idgnn_batch rhs_idgnn_index
    = Return logits ∧
    length logits = length lhs_embedding_projected ∧
    Forall (λ row, length row = length rhs_embedding) logits ∧
    (∀ k i j g u e,
       lhs_idgnn_batch !! k = Some i → rhs_idgnn_index !! k = Some j →
       rhs_gnn_embedding !! k = Some g →
       lhs_embedding_projected !! Z.to_nat i = Some u →
       lhs_embedding !! Z.to_nat i = Some e →
       cell logits (Z.to_nat i) (Z.to_nat j)
       = Some (Radd (Radd (head g) (mul_sum e g)) (lin_offset_idgnn u))) ∧
    (∀ p q u v,
       lhs_embedding_projected !! p = Some u →
       rhs_embedding !! q = Some v →
       (Z.of_nat p, Z.of_nat q) ∉ zip lhs_idgnn_batch rhs_idgnn_index →
       cell logits p q = Some (Radd (dot u v) (lin_offset_embgnn u))).
Proof.
  intros Hlhs Hlb Hli Hb Hi Hnd. unfold construct_logits.
  change (zip_with _ (_ <$> lhs_embedding_projected) _)
    with (dense_logits Radd dot lin_offset_embgnn lhs_embedding_projected
            rhs_embedding).
  destruct (dense_logits_shape Radd dot lin_offset_embgnn
              lhs_embedding_projected rhs_embedding) as [HlenE HrowsE].
  destruct (index_select_total lhs_embedding lhs_idgnn_batch)
    as (lhs_rows & -> & Hlr & Hrows); [by rewrite Hlhs|]. simpl.
  rewrite (zip_same_eq mul_sum lhs_rows) by congruence. simpl.
  rewrite (zip_same_eq Radd (head <$> rhs_gnn_embedding))
    by (rewrite length_fmap, length_zip_with; lia). simpl.
  destruct (index_select_total (lin_offset_idgnn <$> lhs_embedding_projected)
              lhs_idgnn_batch) as (offs & -> & Hlo & Hoffs);
    [by rewrite length_fmap|]. simpl.
  rewrite zip_same_eq
    by (rewrite !length_zip_with, length_fmap; lia). simpl.
  set (vals := zip_with Radd _ offs).
  destruct (index_put2_distinct
              (dense_logits Radd dot lin_offset_embgnn
                 lhs_embedding_projected rhs_embedding)
              (length rhs_embedding) lhs_idgnn_batch rhs_idgnn_index vals)
    as (logits & -> & Hlen & Hshape & Hin & Hout).
  { done. } { by rewrite HlenE. } { done. } { done. } { congruence. }
  { unfold vals. rewrite !length_zip_with, length_fmap. lia. }
  exists logits. split_and!; [done | congruence | done | |].
  - intros k i j g u e Hki Hkj Hkg Hu He.
    rewrite (Hin k i j Hki Hkj). unfold vals.
    rewrite !lookup_zip_with, list_lookup_fmap, Hkg. simpl.
    rewrite (Hrows k i Hki), He. simpl.
    rewrite (Hoffs k i Hki), list_lookup_fmap, Hu. done.
  - intros p q u v Hu Hv Hpq. rewrite (Hout p q Hpq).
    by apply dense_logits_cell.
Qed.
End FuserClaim.

(** ** The CSR Neighbor Expander *)

Lemma wrap64_small z : - 2 ^ 63 ≤ z < 2 ^ 63 → wrap64 z = z.
Proof. intros ?. unfold wrap64. rewrite Z.mod_small; lia. Qed.

Lemma index_select_app {A} (t : list A) idx1 idx2 xs ys :
  index_select t idx1 = Return xs → index_select t idx2 = Return ys →
  index_select t (idx1 ++ idx2) = Return (xs ++ ys).
Proof.
  revert xs. induction idx1 as [|i idx1 IH]; intros xs; simpl.
  - intros [= <-] ->. done.
  - intros (x & -> & (xs' & Hxs' & [= <-])%bind_Return)%bind_Return Hys.
    simpl. by rewrite (IH xs' Hxs' Hys).
Qed.

Lemma index_select_replicate {A} (t : list A) i x n :
  0 ≤ i → t !! Z.to_nat i = Some x →
  index_select t (replicate n i) = Return (replicate n x).
Proof.
  intros Hi Hx. induction n as [|n IH]; [done|]. simpl.
  rewrite (getitem_nonneg t i x Hi Hx). simpl. by rewrite IH.
Qed.

Lemma index_select_seqZ {A} (t : list A) (lo : Z) (c : nat) :
  0 ≤ lo → lo + Z.of_nat c ≤ Z.of_nat (length t) →
  index_select t (seqZ lo (Z.of_nat c))
  = Return (take c (drop (Z.to_nat lo) t)).
Proof.
  revert lo. induction c as [|c IH]; intros lo Hlo Hhi.
  - by rewrite take_0.
  - rewrite seqZ_cons by lia.
    destruct (lookup_lt_is_Some_2 t (Z.to_nat lo)) as [x Hx]; [lia|].
    simpl. rewrite (getitem_nonneg t lo x Hlo Hx). simpl.
    replace (Z.pred (Z.of_nat (S c))) with (Z.of_nat c) by lia.
    rewrite (IH (Z.succ lo)) by lia. simpl.
    rewrite (drop_S t x (Z.to_nat lo) Hx). simpl.
    by replace (Z.to_nat (Z.succ lo)) with (S (Z.to_nat lo)) by lia.
Qed.

Lemma sumZ_nonneg l : Forall (λ c, 0 ≤ c) l → 0 ≤ sumZ l.
Proof. induction 1; simpl; lia. Qed.

Lemma length_batch_of b count :
  Forall (λ c, 0 ≤ c) count → Z.of_nat (length (batch_of b count)) = sumZ count.
Proof.
  intros H. revert b. induction H as [|c count Hc _ IH]; intros b; [done|].
  simpl. rewrite length_app, length_replicate, Nat2Z.inj_add, IH. lia.
Qed.

Lemma repeat_interleave_seqZ b count :
  mjoin (zip_with (λ v c, replicate (Z.to_nat c) v)
           (seqZ b (Z.of_nat (length count))) count)
  = batch_of b count.
Proof.
  revert b. induction count as [|c count IH]; intros b; [done|].
  simpl length. rewrite seqZ_cons by lia. simpl.
  replace (Z.pred (Z.of_nat (S (length count))))
    with (Z.of_nat (length count)) by lia.
  by rewrite IH.
Qed.

(** Reading the prefix sums at the batch ids and subtracting them from the
    running positions leaves the offsets inside each block. *)
Lemma arange_blocks (ptr : list Z) count (b pos : Z) :
  Forall (λ c, 0 ≤ c) count → 0 ≤ b → 0 ≤ pos → pos + sumZ count < 2 ^ 63 →
  (∀ i, (i < length count)%nat →
        ptr !! (Z.to_nat b + i)%nat = Some (pos + sumZ (take i count))) →
  ∃ ptr_batch,
    index_select ptr (batch_of b count) = Return ptr_batch ∧
    zip_with sub64 (seqZ pos (Z.of_nat (length (batch_of b count)))) ptr_batch
    = arange_of count.
Proof.
  intros Hc. revert b pos.
  induction Hc as [|c count Hc0 Hc IH]; intros b pos Hb Hpos Hfit Hptr.
  - exists []. done.
  - pose proof (sumZ_nonneg _ Hc) as Hsum. simpl in Hfit.
    destruct (IH (b + 1) (pos + c)) as (rest & Hrest & Hzip); [lia..| |].
    { intros i Hi. specialize (Hptr (S i)). simpl in Hptr.
      replace (Z.to_nat (b + 1) + i)%nat with (Z.to_nat b + S i)%nat by lia.
      rewrite Hptr by lia. f_equal. lia. }
    exists (replicate (Z.to_nat c) pos ++ rest). split.
    + simpl. apply index_select_app; [|done].
      apply index_select_replicate; [done|].
      specialize (Hptr 0%nat). simpl in Hptr.
      rewrite Nat.add_0_r in Hptr. rewrite Hptr by lia. f_equal. lia.
    + simpl batch_of. rewrite length_app, length_replicate.
      rewrite Nat2Z.inj_add, Z2Nat.id by done.
      rewrite seqZ_app by lia.
      rewrite zip_with_app by (rewrite length_seqZ, length_replicate; lia).
      rewrite Hzip. unfold arange_of. rewrite bind_cons. f_equal.
      clear -Hc0 Hpos Hfit Hsum.
      apply list_eq. intros i.
      rewrite lookup_zip_with.
      destruct (decide (Z.of_nat i < c)) as [Hi|Hi].
      * rewrite !lookup_seqZ_lt by lia.
        rewrite lookup_replicate_2 by lia. simpl. f_equal.
        unfold sub64. rewrite wrap64_small; lia.
      * rewrite !lookup_seqZ_ge by lia. done.
Qed.

Lemma cumsum_from_lookup acc count i :
  Forall (λ c, 0 ≤ c) count → 0 ≤ acc → acc + sumZ count < 2 ^ 63 →
  (i < length count)%nat →
  cumsum_from acc count !! i = Some (acc + sumZ (take (S i) count)).
Proof.
  intros Hc. revert acc i.
  induction Hc as [|c count Hc0 Hc IH]; intros acc i Hacc Hfit Hi;
    [simpl in Hi; lia|].
  pose proof (sumZ_nonneg _ Hc) as Hsum. simpl in Hfit, Hi.
  assert (add64 acc c = acc + c) as Hadd
    by (unfold add64; rewrite wrap64_small; lia).
  simpl. rewrite Hadd. destruct i as [|i]; simpl.
  - f_equal. destruct count; simpl; lia.
  - rewrite IH by lia. f_equal. simpl. lia.
Qed.

Lemma batched_arange_spec count :
  Forall (λ c, 0 ≤ c) count → sumZ count < 2 ^ 63 →
  _batched_arange count = Return (batch_of 0 count, arange_of count).
Proof.
  intros Hc Hfit. unfold _batched_arange, repeat_interleave.
  rewrite bool_decide_eq_true_2 by done.
  rewrite bool_decide_eq_true_2 by (rewrite length_seqZ; lia). simpl.
  rewrite repeat_interleave_seqZ.
  destruct (arange_blocks (0 :: cumsum_from 0 count) count 0 0)
    as (ptr_batch & -> & Hzip); [done | lia | lia | lia | |].
  - intros [|i] Hi; [by rewrite take_0|].
    change ((0 :: cumsum_from 0 count) !! (Z.to_nat 0 + S i)%nat)
      with (cumsum_from 0 count !! i).
    by rewrite cumsum_from_lookup by (done || lia).
  - simpl. by rewrite Hzip.
Qed.

Lemma csr_lower rowptr col i x :
  csr_well_formed rowptr col → rowptr !! i = Some x → 0 ≤ x.
Proof.
  intros [(x0 & Hx0 & H0) Hmono _]. revert x.
  induction i as [|i IH]; intros x Hx.
  - congruence.
  - destruct (lookup_lt_is_Some_2 rowptr i) as [y Hy].
    { apply lookup_lt_Some in Hx. lia. }
    specialize (IH y Hy). specialize (Hmono i y x Hy Hx). lia.
Qed.

Lemma csr_upper rowptr col i x :
  csr_well_formed rowptr col → rowptr !! i = Some x →
  x ≤ Z.of_nat (length col).
Proof.
  intros [_ Hmono Hend] Hx. rewrite last_lookup in Hend.
  pose proof (lookup_lt_Some _ _ _ Hx) as Hi.
  remember (pred (length rowptr) - i)%nat as d eqn:Hd.
  revert i x Hx Hi Hd. induction d as [|d IH]; intros i x Hx Hi Hd.
  - replace (pred (length rowptr)) with i in Hend by lia.
    assert (x = Z.of_nat (length col)) by congruence. lia.
  - destruct (lookup_lt_is_Some_2 rowptr (S i)) as [y Hy]; [lia|].
    specialize (Hmono i x y Hx Hy).
    specialize (IH (S i) y Hy). lia.
Qed.

Lemma csr_row rowptr col r :
  csr_well_formed rowptr col → 0 ≤ r → r + 1 < Z.of_nat (length rowptr) →
  rowptr !! Z.to_nat r = Some (row_start rowptr r) ∧
  rowptr !! Z.to_nat (r + 1) = Some (row_start rowptr (r + 1)) ∧
  0 ≤ row_start rowptr r ∧ 0 ≤ degree rowptr r ∧
  row_start rowptr r + degree rowptr r ≤ Z.of_nat (length col).
Proof.
  intros Hwf Hr0 Hr1. unfold degree, row_start.
  destruct (lookup_lt_is_Some_2 rowptr (Z.to_nat r)) as [x Hx]; [lia|].
  destruct (lookup_lt_is_Some_2 rowptr (Z.to_nat (r + 1))) as [y Hy]; [lia|].
  rewrite (list_lookup_total_correct _ _ _ Hx).
  rewrite (list_lookup_total_correct _ _ _ Hy).
  pose proof (csr_lower _ _ _ _ Hwf Hx).
  pose proof (csr_upper _ _ _ _ Hwf Hy).
  assert (x ≤ y).
  { apply (csr_monotone _ _ Hwf (Z.to_nat r)); [done|].
    by replace (S (Z.to_nat r)) with (Z.to_nat (r + 1)) by lia. }
  split_and!; [done | done | lia..].
Qed.

Lemma index_select_map {A B} (t : list A) (f : B → Z) (g : B → A) rs :
  Forall (λ r, 0 ≤ f r ∧ t !! Z.to_nat (f r) = Some (g r)) rs →
  index_select t (f <$> rs) = Return (g <$> rs).
Proof.
  induction 1 as [|r rs [Hr Hg] _ IH]; [done|]. csimpl.
  rewrite (getitem_nonneg t (f r) (g r) Hr Hg). simpl. by rewrite IH.
Qed.

(** Reading a per-row table at the batch ids repeats each row's entry once
    per output element of that row. *)
Lemma index_select_batch_of {A B} (t : list A) (c : B → Z) (g : B → A)
    rs (b : Z) :
  0 ≤ b →
  (∀ i r, rs !! i = Some r → t !! (Z.to_nat b + i)%nat = Some (g r)) →
  index_select t (batch_of b (c <$> rs))
  = Return (r ← rs; replicate (Z.to_nat (c r)) (g r)).
Proof.
  revert b. induction rs as [|r rs IH]; intros b Hb Ht; [done|].
  rewrite fmap_cons, bind_cons. simpl batch_of.
  apply index_select_app.
  - apply index_select_replicate; [done|].
    specialize (Ht 0%nat r eq_refl). by rewrite Nat.add_0_r in Ht.
  - apply IH; [lia|]. intros i r' Hi.
    replace (Z.to_nat (b + 1) + i)%nat with (Z.to_nat b + S i)%nat by lia.
    by apply Ht.
Qed.

Lemma elem_of_batch_of x b count :
  x ∈ batch_of b count → b ≤ x.
Proof.
  revert b. induction count as [|c count IH]; intros b; simpl.
  - by intros ?%elem_of_nil.
  - intros [Hx|Hx]%elem_of_app.
    + apply elem_of_replicate in Hx as [-> _]. lia.
    + apply IH in Hx. lia.
Qed.

Lemma filter_all {A} (P : A → Prop) `{!∀ x, Decision (P x)} (l : list A) :
  Forall P l → filter P l = l.
Proof.
  induction 1 as [|x xs Hx _ IH]; [done|]. by rewrite filter_cons_True, IH.
Qed.

Lemma filter_none {A} (P : A → Prop) `{!∀ x, Decision (P x)} (l : list A) :
  Forall (λ x, ¬ P x) l → filter P l = [].
Proof.
  induction 1 as [|x xs Hx _ IH]; [done|]. by rewrite filter_cons_False.
Qed.

Lemma elements_with_batch_blocks {B} (c : B → Z) (block : B → list Z)
    rs (b : Z) i r :
  Forall (λ r, length (block r) = Z.to_nat (c r)) rs →
  rs !! i = Some r →
  elements_with_batch (b + Z.of_nat i) (batch_of b (c <$> rs))
    (r ← rs; block r)
  = block r.
Proof.
  intros Hlen. revert b i.
  induction Hlen as [|r0 rs Hr0 _ IH]; intros b i Hi; [done|].
  rewrite fmap_cons, bind_cons. simpl batch_of.
  unfold elements_with_batch in *.
  rewrite zip_with_app by (by rewrite length_replicate).
  rewrite filter_app, fmap_app. destruct i as [|i]; simpl in Hi.
  - injection Hi as ->. rewrite Z.add_0_r.
    rewrite (filter_none _ (zip (batch_of _ _) _)).
    2:{ apply Forall_forall. intros [x z] Hxz.
        apply elem_of_zip_l in Hxz. apply elem_of_batch_of in Hxz. simpl. lia. }
    rewrite filter_all.
    2:{ apply Forall_forall. intros [x z] Hxz.
        by apply elem_of_zip_l, elem_of_replicate in Hxz as [-> _]. }
    rewrite fmap_nil, app_nil_r.
    apply snd_zip. by rewrite length_replicate, Hr0.
  - rewrite (filter_none _ (zip (replicate _ _) _)).
    2:{ apply Forall_forall. intros [x z] Hxz.
        apply elem_of_zip_l, elem_of_replicate in Hxz as [-> _]. simpl. lia. }
    simpl. specialize (IH (b + 1) i Hi).
    by replace (b + 1 + Z.of_nat i) with (b + Z.of_nat (S i)) in IH by lia.
Qed.

Section Expander.
Context (rowptr col : list Z).
Hypothesis Hwf : csr_well_formed rowptr col.
Hypothesis Hrowptr64 : Z.of_nat (length rowptr) ≤ 2 ^ 63.
Hypothesis Hcol64 : Z.of_nat (length col) < 2 ^ 63.

Lemma degree_counts src :
  valid_rows rowptr src →
  zip_with sub64 ((λ r, row_start rowptr (r + 1)) <$> src)
    (row_start rowptr <$> src)
  = degree rowptr <$> src.
Proof.
  induction 1 as [|r src [Hr0 Hr1] _ IH]; [done|]. csimpl. rewrite IH.
  f_equal. destruct (csr_row rowptr col r Hwf Hr0 Hr1) as (_ & _ & ? & ? & ?).
  unfold sub64. fold (degree rowptr r). rewrite wrap64_small; [done | lia].
Qed.

Lemma degree_nonneg src :
  valid_rows rowptr src → Forall (λ c, 0 ≤ c) (degree rowptr <$> src).
Proof.
  intros H. apply Forall_fmap. eapply Forall_impl; [exact H|].
  intros r [Hr0 Hr1]. simpl.
  by destruct (csr_row rowptr col r Hwf Hr0 Hr1) as (_ & _ & _ & ? & _).
Qed.

Lemma flat_index src :
  valid_rows rowptr src →
  zip_with add64 (arange_of (degree rowptr <$> src))
    (r ← src; replicate (Z.to_nat (degree rowptr r)) (row_start rowptr r))
  = r ← src; seqZ (row_start rowptr r) (degree rowptr r).
Proof.
  induction 1 as [|r src [Hr0 Hr1] _ IH]; [done|].
  unfold arange_of in *. rewrite fmap_cons, !bind_cons.
  destruct (csr_row rowptr col r Hwf Hr0 Hr1) as (_ & _ & ? & ? & ?).
  rewrite zip_with_app by (rewrite length_seqZ, length_replicate; lia).
  rewrite IH. f_equal. apply list_eq. intros i. rewrite lookup_zip_with.
  destruct (decide (Z.of_nat i < degree rowptr r)) as [Hi|Hi].
  - rewrite !lookup_seqZ_lt by lia. rewrite lookup_replicate_2 by lia.
    simpl. f_equal. unfold add64. rewrite wrap64_small; lia.
  - by rewrite !lookup_seqZ_ge by lia.
Qed.

Lemma gather_neighbours src :
  valid_rows rowptr src →
  index_select col (r ← src; seqZ (row_start rowptr r) (degree rowptr r))
  = Return (r ← src; neighbours rowptr col r).
Proof.
  induction 1 as [|r src [Hr0 Hr1] _ IH]; [done|]. rewrite !bind_cons.
  destruct (csr_row rowptr col r Hwf Hr0 Hr1) as (_ & _ & ? & ? & ?).
  apply index_select_app; [|done]. unfold neighbours.
  rewrite <- (Z2Nat.id (degree rowptr r)) at 1 by done.
  apply index_select_seqZ; lia.
Qed.

(** The two outputs, block by block. *)
Lemma get_rhs_index_blocks src :
  valid_rows rowptr src → sumZ (degree rowptr <$> src) < 2 ^ 63 →
  get_rhs_index src rowptr col
  = Return (batch_of 0 (degree rowptr <$> src),
            r ← src; neighbours rowptr col r).
Proof.
  intros Hrows Hsum. unfold get_rhs_index.
  rewrite (index_select_map rowptr (λ r, add64 r 1)
             (λ r, row_start rowptr (r + 1)) src).
  2:{ eapply Forall_impl; [exact Hrows|]. intros r [Hr0 Hr1]. simpl.
      unfold add64. rewrite wrap64_small by lia.
      destruct (csr_row rowptr col r Hwf Hr0 Hr1) as (_ & ? & _).
      split; [lia | done]. }
  assert (Hlo : index_select rowptr src = Return (row_start rowptr <$> src)).
  { rewrite <- (list_fmap_id src) at 1. apply index_select_map.
    eapply Forall_impl; [exact Hrows|]. intros r [Hr0 Hr1]. simpl.
    destruct (csr_row rowptr col r Hwf Hr0 Hr1) as (? & _).
    split; [lia | done]. }
  simpl. rewrite Hlo. simpl. rewrite (degree_counts src Hrows).
  rewrite batched_arange_spec by (done || by apply degree_nonneg). simpl.
  rewrite (index_select_batch_of (row_start rowptr <$> src)
             (degree rowptr) (row_start rowptr) src 0).
  2:{ done. }
  2:{ intros i r Hi. simpl. by rewrite list_lookup_fmap, Hi. }
  simpl. rewrite (flat_index src Hrows).
  by rewrite (gather_neighbours src Hrows).
Qed.

Lemma length_neighbours r :
  0 ≤ r → r + 1 < Z.of_nat (length rowptr) →
  length (neighbours rowptr col r) = Z.to_nat (degree rowptr r).
Proof.
  intros Hr0 Hr1.
  destruct (csr_row rowptr col r Hwf Hr0 Hr1) as (_ & _ & ? & ? & ?).
  unfold neighbours. rewrite length_take, length_drop. lia.
Qed.

Lemma length_blocks src :
  valid_rows rowptr src →
  Z.of_nat (length (r ← src; neighbours rowptr col r))
  = sumZ (degree rowptr <$> src).
Proof.
  induction 1 as [|r src [Hr0 Hr1] _ IH]; [done|].
  rewrite bind_cons, length_app, Nat2Z.inj_add, IH, fmap_cons.
  rewrite (length_neighbours r Hr0 Hr1).
  destruct (csr_row rowptr col r Hwf Hr0 Hr1) as (_ & _ & ? & ? & ?).
  simpl. lia.
Qed.
End Expander.

Lemma elem_of_batch_of_inv x b count :
  x ∈ batch_of b count →
  ∃ i c, x = b + Z.of_nat i ∧ count !! i = Some c ∧ 0 < c.
Proof.
  revert b. induction count as [|c count IH]; intros b; simpl.
  - by intros ?%elem_of_nil.
  - intros [Hx|Hx]%elem_of_app.
    + apply elem_of_replicate in Hx as [-> Hc].
      exists 0%nat, c. split_and!; [lia | done | lia].
    + apply IH in Hx as (i & c' & -> & Hi & Hc').
      exists (S i), c'. split_and!; [lia | done | done].
Qed.

(** C3.  On a well-formed CSR adjacency and valid row ids, [get_rhs_index]
    returns two arrays of equal length, the sum of the out-degrees of the
    selected rows; the elements carrying batch id [i] are exactly
    [col[rowptr[r]:rowptr[r+1]]] in stored order for the [i]-th selected row
    [r], and a row of degree zero contributes no element.  The sizes fit
    int64, as tensor sizes do. *)
Theorem get_rhs_index_expands (rowptr col selectedRows : list Z) :
  csr_well_formed rowptr col →
  valid_rows rowptr selectedRows →
  Z.of_nat (length rowptr) ≤ 2 ^ 63 →
  Z.of_nat (length col) < 2 ^ 63 →
  sumZ (degree rowptr <$> selectedRows) < 2 ^ 63 →
  ∃ batchId neighborId,
    get_rhs_index selectedRows rowptr col = Return (batchId, neighborId) ∧
    length batchId = length neighborId ∧
    Z.of_nat (length neighborId) = sumZ (degree rowptr <$> selectedRows) ∧
    (∀ i r, selectedRows !! i = Some r →
       elements_with_batch (Z.of_nat i) batchId neighborId
       = neighbours rowptr col r ∧
       (degree rowptr r = 0 → Z.of_nat i ∉ batchId)) ∧
    (∀ b, b ∈ batchId → 0 ≤ b < Z.of_nat (length selectedRows)).
Proof.
  intros Hwf Hrows Hr64 Hc64 Hsum.
  exists (batch_of 0 (degree rowptr <$> selectedRows)),
         (r ← selectedRows; neighbours rowptr col r).
  pose proof (degree_nonneg rowptr col Hwf selectedRows Hrows) as Hdeg.
  pose proof (length_blocks rowptr col Hwf selectedRows Hrows) as Hlen.
  split_and!.
  - by apply get_rhs_index_blocks.
  - apply Nat2Z.inj. by rewrite Hlen, length_batch_of.
  - done.
  - intros i r Hi. split.
    + rewrite <- (Z.add_0_l (Z.of_nat i)).
      apply (elements_with_batch_blocks (degree rowptr)
               (neighbours rowptr col) selectedRows 0 i r); [|done].
      eapply Forall_impl; [exact Hrows|]. intros r' [? ?]. simpl.
      by apply length_neighbours.
    + intros Hzero (j & c & Hj & Hc & Hpos)%elem_of_batch_of_inv.
      assert (j = i) as -> by lia.
      rewrite list_lookup_fmap, Hi in Hc. simpl in Hc. injection Hc as <-. lia.
  - intros b (j & c & -> & Hc & _)%elem_of_batch_of_inv.
    apply lookup_lt_Some in Hc. rewrite length_fmap in Hc. lia.
Qed.

(** ** The claims about the Candidate Sampler and the Index Remapper *)

(** C2.  With a budget [rhsSampleSize <= numCandidates] and valid ids in
    both sets, the sampler returns exactly [rhsSampleSize] distinct
    candidate ids, and all required ids are among them when their number is
    at most [rhsSampleSize]. *)
Theorem sampler_exact_size_and_required
    (self : ContextGNN) (g : Generator) (k : Z)
    (rhs_idgnn_index rhs_y_index : list Z) :
  rhs_sample_size self = Some k →
  0 ≤ k ≤ Z.of_nat (num_rhs_nodes self) →
  valid_ids (num_rhs_nodes self) rhs_idgnn_index →
  valid_ids (num_rhs_nodes self) rhs_y_index →
  ∃ rhs_index,
    sampled_rhs_index self g rhs_idgnn_index (Some rhs_y_index)
    = Return rhs_index ∧
    Z.of_nat (length rhs_index) = k ∧ NoDup rhs_index ∧
    (∀ id, id ∈ rhs_index → 0 ≤ id < Z.of_nat (num_rhs_nodes self)) ∧
    (Z.of_nat (length rhs_y_index) ≤ k →
     ∀ id, id ∈ rhs_y_index → id ∈ rhs_index).
Proof.
  intros Hsize Hk Hidgnn Hy. unfold sampled_rhs_index.
  set (rnd := (torch_rand (num_rhs_nodes self) g).1).
  assert (Hlen : length rnd = num_rhs_nodes self) by apply torch_rand_length.
  assert (Hunit : unit_draws rnd) by apply torch_rand_unit.
  destruct (candidate_sampler_ok self rnd rhs_idgnn_index rhs_y_index k)
    as [l Hl]; [done | lia | rewrite Hlen; by apply valid_ids_in_range..|].
  exists l. split; [done|].
  destruct (sampler_shape _ _ _ _ _ _ Hl Hsize) as (_ & Hl_len & Hnd & Hrange).
  rewrite Hlen in Hrange. split_and!; [lia | done | done |].
  intros Hfit id Hid.
  apply (sampler_required _ _ _ _ _ _ Hl Hsize Hunit).
  - rewrite Hlen, (wrap_ids_nonneg _ _ Hy).
    pose proof (length_remove_dups_le rhs_y_index). lia.
  - by rewrite Hlen, (wrap_ids_nonneg _ _ Hy).
Qed.

(** C6.  When the distinct required ids fit the budget but required and
    priority ids together do not, every required id is selected, every
    forced id left out is a priority id and not a required one, and an id in
    both sets carries the required priority 4. *)
Theorem required_wins_over_priority
    (self : ContextGNN) (g : Generator) (k : Z)
    (rhs_idgnn_index rhs_y_index rhs_index : list Z) (rnd : list Q) :
  rhs_sample_size self = Some k →
  valid_ids (num_rhs_nodes self) rhs_idgnn_index →
  valid_ids (num_rhs_nodes self) rhs_y_index →
  Z.of_nat (length (remove_dups rhs_y_index)) ≤ k →
  k < Z.of_nat (length (remove_dups (rhs_y_index ++ rhs_idgnn_index))) →
  sampled_rhs_index self g rhs_idgnn_index (Some rhs_y_index)
  = Return rhs_index →
  priority_array (torch_rand (num_rhs_nodes self) g).1 rhs_idgnn_index
    (Some rhs_y_index) = Return rnd →
  (∀ id, id ∈ rhs_y_index → id ∈ rhs_index) ∧
  (∀ id, id ∈ rhs_y_index ++ rhs_idgnn_index → id ∉ rhs_index →
         id ∈ rhs_idgnn_index ∧ id ∉ rhs_y_index) ∧
  (∃ id, id ∈ rhs_idgnn_index ∧ id ∉ rhs_index) ∧
  (∀ id, id ∈ rhs_y_index → id ∈ rhs_idgnn_index →
         rnd !! Z.to_nat id = Some (4 : Q) ∧ id ∈ rhs_index).
Proof.
  intros Hsize Hidgnn Hy Hfit Hover Hl Hpr. unfold sampled_rhs_index in Hl.
  set (rnd0 := (torch_rand (num_rhs_nodes self) g).1) in *.
  assert (Hlen : length rnd0 = num_rhs_nodes self) by apply torch_rand_length.
  assert (Hunit : unit_draws rnd0) by apply torch_rand_unit.
  assert (Hreq : ∀ id, id ∈ rhs_y_index → id ∈ rhs_index).
  { intros id Hid. apply (sampler_required _ _ _ _ _ _ Hl Hsize Hunit).
    - rewrite Hlen, (wrap_ids_nonneg _ _ Hy). lia.
    - by rewrite Hlen, (wrap_ids_nonneg _ _ Hy). }
  assert (Hexcl : ∀ id, id ∈ rhs_y_index ++ rhs_idgnn_index →
                         id ∉ rhs_index →
                         id ∈ rhs_idgnn_index ∧ id ∉ rhs_y_index).
  { intros id [Hin|Hin]%elem_of_app Hout; [by apply Hreq in Hin|].
    split; [done|]. intros Hin'. by apply Hreq in Hin'. }
  split_and!; [done | done | |].
  - destruct (decide (Forall (λ id, id ∈ rhs_index)
                        (rhs_y_index ++ rhs_idgnn_index))) as [Hall|Hnot].
    + exfalso.
      destruct (sampler_shape _ _ _ _ _ _ Hl Hsize) as (_ & Hl_len & _).
      assert (remove_dups (rhs_y_index ++ rhs_idgnn_index) ⊆+ rhs_index)
        as Hsub.
      { apply NoDup_submseteq; [apply NoDup_remove_dups|].
        intros id Hid. rewrite elem_of_remove_dups in Hid.
        by apply (proj1 (Forall_forall _ _) Hall). }
      apply submseteq_length in Hsub. lia.
    + apply not_Forall_Exists in Hnot; [|apply _].
      apply Exists_exists in Hnot as (id & Hin & Hout).
      exists id. split; [|done]. by apply Hexcl.
  - intros id Hin _. split; [|by apply Hreq].
    apply priority_array_Return in Hpr as (_ & _ & _ & ->).
    pose proof (proj1 (Forall_forall _ _) Hy id Hin) as Hb. simpl in Hb.
    apply priority_of_required; [lia|].
    by rewrite Hlen, (wrap_ids_nonneg _ _ Hy), Z2Nat.id by lia.
Qed.

Section Remapper.
Context (is_cuda : bool) (uninit : nat → Z).
Context (self : ContextGNN) (g : Generator) (k : Z).
Context (rhs_idgnn_index rhs_y_index rhs_index : list Z).
Hypothesis Hsize : rhs_sample_size self = Some k.
Hypothesis Hidgnn : valid_ids (num_rhs_nodes self) rhs_idgnn_index.
Hypothesis Hy : valid_ids (num_rhs_nodes self) rhs_y_index.
Hypothesis Hsampled :
  sampled_rhs_index self g rhs_idgnn_index (Some rhs_y_index)
  = Return rhs_index.

Lemma sampled_shape :
  Z.of_nat (length rhs_index) = k ∧ NoDup rhs_index ∧
  valid_ids (num_rhs_nodes self) rhs_index.
Proof.
  destruct (sampler_shape _ _ _ _ _ _ Hsampled Hsize)
    as (? & ? & ? & Hrange).
  rewrite torch_rand_length in Hrange.
  split_and!; [lia | done | by apply Forall_forall].
Qed.

Lemma sampled_required :
  Z.of_nat (length rhs_y_index) ≤ k →
  Forall (λ id, id ∈ rhs_index) rhs_y_index.
Proof.
  intros Hfit. apply Forall_forall. intros id Hid.
  apply (sampler_required _ _ _ _ _ _ Hsampled Hsize (torch_rand_unit _ _)).
  - rewrite torch_rand_length, (wrap_ids_nonneg _ _ Hy).
    pose proof (length_remove_dups_le rhs_y_index). lia.
  - by rewrite torch_rand_length, (wrap_ids_nonneg _ _ Hy).
Qed.

Lemma sampled_forced :
  Z.of_nat (length (omap (position_in rhs_index) rhs_y_index))
  + Z.of_nat (length rhs_idgnn_index) ≤ k →
  Forall (λ id, id ∈ rhs_index) rhs_idgnn_index.
Proof.
  intros Hfit. apply Forall_forall. intros id Hid.
  apply (sampler_forced _ _ _ _ _ _ Hsampled Hsize (torch_rand_unit _ _)).
  - rewrite torch_rand_length, (wrap_ids_nonneg _ _ Hy).
    rewrite length_omap_position in Hfit. lia.
  - by rewrite torch_rand_length, (wrap_ids_nonneg _ _ Hidgnn).
Qed.

(** The remap of valid ids against the candidate set, for the call with
    [max_index=self.num_rhs_nodes] and the call without [max_index]. *)
Lemma remap_calls (src : list Z) (max_index : option Z) :
  valid_ids (num_rhs_nodes self) src →
  max_index = Some (Z.of_nat (num_rhs_nodes self)) ∨
  (max_index = None ∧ src ≠ [] ∧ 0 < k) →
  map_index is_cuda uninit src rhs_index max_index false
  = Return (omap (position_in rhs_index) src,
            Some (present rhs_index <$> src)) ∧
  (Forall (λ id, id ∈ rhs_index) src →
   map_index is_cuda uninit src rhs_index max_index true
   = Return (omap (position_in rhs_index) src, None)).
Proof.
  intros Hsrc Hmax. destruct sampled_shape as (Hlen & Hnd & Hrange).
  assert (∃ m, 0 ≤ m ∧ Forall (λ i, 0 ≤ i ≤ m) rhs_index ∧
               Forall (λ i, 0 ≤ i ≤ m) src ∧
               ∀ incl, map_index is_cuda uninit src rhs_index max_index incl
                       = map_index is_cuda uninit src rhs_index (Some m) incl)
    as (m & Hm & Hl_m & Hs_m & Heq).
  { destruct Hmax as [->|(-> & Hne & Hk)].
    - exists (Z.of_nat (num_rhs_nodes self)). split_and!; [lia | | |done].
      + eapply Forall_impl; [exact Hrange|]. simpl. lia.
      + eapply Forall_impl; [exact Hsrc|]. simpl. lia.
    - destruct (tensor_max_ok src Hne) as [a Ha].
      destruct (tensor_max_ok rhs_index) as [b Hb].
      { intros ->. simpl in Hlen. lia. }
      exists (Z.max a b).
      pose proof (tensor_max_Return _ _ Ha) as Ha'.
      pose proof (tensor_max_Return _ _ Hb) as Hb'.
      split_and!.
      + destruct src as [|s ?]; [done|].
        apply Forall_cons in Ha' as [? _].
        apply Forall_cons in Hsrc as [? _]. lia.
      + apply Forall_forall. intros i Hi.
        pose proof (proj1 (Forall_forall _ _) Hb' i Hi).
        pose proof (proj1 (Forall_forall _ _) Hrange i Hi).
        simpl in *. lia.
      + apply Forall_forall. intros i Hi.
        pose proof (proj1 (Forall_forall _ _) Ha' i Hi).
        pose proof (proj1 (Forall_forall _ _) Hsrc i Hi).
        simpl in *. lia.
      + intros incl. unfold map_index. by rewrite Ha, Hb. }
  rewrite !Heq. split.
  - by apply map_index_masked.
  - intros Hall. by apply map_index_inclusive.
Qed.
End Remapper.

Lemma filter_mask_zip {A B} (t : list A) (u : list B) mask :
  filter_mask (zip t u) mask = zip (filter_mask t mask) (filter_mask u mask).
Proof.
  revert u mask. induction t as [|x t IH]; intros [|y u] [|b mask];
    simpl; try done.
  - by destruct b, (filter_mask t mask).
  - destruct b; simpl; by rewrite IH.
Qed.

Lemma filter_mask_aligned {A} (l src : list Z) (t : list A) :
  length t = length src →
  zip (filter_mask t (present l <$> src)) (omap (position_in l) src)
  = omap (λ e, pair e.1 <$> position_in l e.2) (zip t src).
Proof.
  revert t. induction src as [|s src IH]; intros [|x t] Hlen; try done.
  csimpl. rewrite present_position.
  destruct (position_in l s) as [p|]; simpl; rewrite IH by (simpl in Hlen; lia);
    done.
Qed.

Lemma length_filter_mask_present {A} (l src : list Z) (t : list A) :
  length t = length src →
  length (filter_mask t (present l <$> src))
  = length (omap (position_in l) src).
Proof.
  revert t. induction src as [|s src IH]; intros [|x t] Hlen; try done.
  csimpl. rewrite present_position.
  destruct (position_in l s) as [p|]; simpl; rewrite IH by (simpl in Hlen; lia);
    done.
Qed.

Lemma present_all_true (l src : list Z) :
  Forall (λ id, id ∈ l) src → Forall (λ b, b = true) (present l <$> src).
Proof.
  intros H. apply Forall_fmap. eapply Forall_impl; [exact H|].
  intros id Hid. simpl. unfold present. by apply bool_decide_eq_true_2.
Qed.

(** C4.  Against the sampled candidate array, [map_index] sends an id placed
    at position [p] to exactly [p], drops an id that is absent, and returns
    the mask that is [True] exactly at the ids present. *)
Theorem map_index_round_trip
    (is_cuda : bool) (uninit : nat → Z) (self : ContextGNN) (g : Generator)
    (k : Z) (rhs_idgnn_index rhs_y_index rhs_index src : list Z)
    (max_index : option Z) :
  rhs_sample_size self = Some k →
  valid_ids (num_rhs_nodes self) rhs_idgnn_index →
  valid_ids (num_rhs_nodes self) rhs_y_index →
  sampled_rhs_index self g rhs_idgnn_index (Some rhs_y_index)
  = Return rhs_index →
  valid_ids (num_rhs_nodes self) src →
  max_index = Some (Z.of_nat (num_rhs_nodes self)) ∨
  (max_index = None ∧ src ≠ [] ∧ 0 < k) →
  map_index is_cuda uninit src rhs_index max_index false
  = Return (omap (position_in rhs_index) src,
            Some ((λ id, bool_decide (id ∈ rhs_index)) <$> src)) ∧
  (∀ p id, rhs_index !! p = Some id →
     position_in rhs_index id = Some (Z.of_nat p) ∧
     map_index is_cuda uninit [id] rhs_index
       (Some (Z.of_nat (num_rhs_nodes self))) false
     = Return ([Z.of_nat p], Some [true])) ∧
  (∀ id, 0 ≤ id < Z.of_nat (num_rhs_nodes self) → id ∉ rhs_index →
     position_in rhs_index id = None ∧
     map_index is_cuda uninit [id] rhs_index
       (Some (Z.of_nat (num_rhs_nodes self))) false
     = Return ([], Some [false])).
Proof.
  intros Hsize Hidgnn Hy Hl Hsrc Hmax.
  destruct (sampled_shape self g k _ _ _ Hsize Hl) as (_ & Hnd & Hrange).
  split_and!.
  - by destruct (remap_calls is_cuda uninit self g k _ _ _ Hsize Hl src
                   max_index Hsrc Hmax) as [-> _].
  - intros p id Hp.
    pose proof (position_in_NoDup _ _ _ Hnd Hp) as Hpos. split; [done|].
    destruct (remap_calls is_cuda uninit self g k _ _ _ Hsize Hl [id]
                (Some (Z.of_nat (num_rhs_nodes self)))) as [-> _].
    + apply Forall_singleton.
      apply (proj1 (Forall_forall _ _) Hrange).
      by eapply list_elem_of_lookup_2.
    + by left.
    + csimpl. rewrite Hpos. simpl. do 4 f_equal.
      unfold present. apply bool_decide_eq_true_2.
      by eapply list_elem_of_lookup_2.
  - intros id Hid Hout.
    pose proof (proj2 (position_in_None rhs_index id) Hout) as Hpos.
    split; [done|].
    destruct (remap_calls is_cuda uninit self g k _ _ _ Hsize Hl [id]
                (Some (Z.of_nat (num_rhs_nodes self)))) as [-> _].
    + by apply Forall_singleton.
    + by left.
    + csimpl. rewrite Hpos. simpl. do 4 f_equal.
      unfold present. by apply bool_decide_eq_false_2.
Qed.

(** C5.  When the guard of a remap in [sample_step] holds, every id being
    mapped is in the sampled candidate set: the inclusive call returns the
    positions of all of them, and the masked call would return the same
    positions with a mask that is [True] everywhere. *)
Theorem inclusive_guard_total
    (is_cuda : bool) (uninit : nat → Z) (self : ContextGNN) (g : Generator)
    (k : Z) (rhs_idgnn_index rhs_y_index rhs_index : list Z) :
  rhs_sample_size self = Some k →
  valid_ids (num_rhs_nodes self) rhs_idgnn_index →
  valid_ids (num_rhs_nodes self) rhs_y_index →
  sampled_rhs_index self g rhs_idgnn_index (Some rhs_y_index)
  = Return rhs_index →
  (Z.of_nat (length rhs_y_index) ≤ k →
   Forall (λ id, id ∈ rhs_index) rhs_y_index ∧
   ∃ out mask,
     length out = length rhs_y_index ∧ Forall (λ b, b = true) mask ∧
     map_index is_cuda uninit rhs_y_index rhs_index
       (Some (Z.of_nat (num_rhs_nodes self))) true = Return (out, None) ∧
     map_index is_cuda uninit rhs_y_index rhs_index
       (Some (Z.of_nat (num_rhs_nodes self))) false
     = Return (out, Some mask)) ∧
  (∀ rhs_y_index' mask',
     map_index is_cuda uninit rhs_y_index rhs_index
       (Some (Z.of_nat (num_rhs_nodes self)))
       (bool_decide (Z.of_nat (length rhs_y_index) ≤ k))
     = Return (rhs_y_index', mask') →
     Z.of_nat (length rhs_y_index') + Z.of_nat (length rhs_idgnn_index) ≤ k →
     Forall (λ id, id ∈ rhs_index) rhs_idgnn_index ∧
     (rhs_idgnn_index ≠ [] →
      ∃ out mask,
        length out = length rhs_idgnn_index ∧ Forall (λ b, b = true) mask ∧
        map_index is_cuda uninit rhs_idgnn_index rhs_index None true
        = Return (out, None) ∧
        map_index is_cuda uninit rhs_idgnn_index rhs_index None false
        = Return (out, Some mask))).
Proof.
  intros Hsize Hidgnn Hy Hl.
  pose proof (remap_calls is_cuda uninit self g k _ _ _ Hsize Hl) as Hcalls.
  assert (Hlen_all : ∀ src : list Z,
    Forall (λ id, id ∈ rhs_index) src →
    length (omap (position_in rhs_index) src) = length src).
  { intros src Hall. rewrite length_omap_position.
    by rewrite filter_all_present. }
  split.
  - intros Hfit.
    pose proof (sampled_required self g k _ _ _ Hsize Hy Hl Hfit) as Hall.
    split; [done|].
    destruct (Hcalls rhs_y_index (Some (Z.of_nat (num_rhs_nodes self))) Hy)
      as [Hmasked Hincl]; [by left|].
    eexists _, _. split_and!; [| |by apply Hincl |exact Hmasked].
    + by apply Hlen_all.
    + by apply present_all_true.
  - intros y' mask' Hfirst Hfit.
    assert (y' = omap (position_in rhs_index) rhs_y_index) as ->.
    { destruct (Hcalls rhs_y_index (Some (Z.of_nat (num_rhs_nodes self))) Hy)
        as [Hmasked Hincl]; [by left|].
      case_bool_decide as Hg.
      - rewrite Hincl in Hfirst by
          (by apply (sampled_required self g k _ _ _ Hsize Hy Hl)).
        congruence.
      - rewrite Hmasked in Hfirst. congruence. }
    pose proof (sampled_forced self g k _ _ _ Hsize Hidgnn Hy Hl Hfit) as Hall.
    split; [done|]. intros Hne.
    destruct (Hcalls rhs_idgnn_index None Hidgnn) as [Hmasked Hincl].
    { right. split_and!; [done..|].
      destruct rhs_idgnn_index; [done|]. simpl in Hfit. lia. }
    eexists _, _. split_and!; [| |by apply Hincl |exact Hmasked].
    + by apply Hlen_all.
    + by apply present_all_true.
Qed.


(** ** Which exceptions the steps can raise *)

Lemma no_assert_bind {A B} (m : result A) (f : A → result B) :
  no_assert m → (∀ a, no_assert (f a)) → no_assert (m ≫= f).
Proof.
  unfold no_assert. intros Hm Hf [->|(a & _ & Ha)]%bind_Raise; [done|].
  by eapply Hf.
Qed.

Lemma no_assert_fmap {A B} (f : A → B) (m : result A) :
  no_assert m → no_assert (f <$> m).
Proof. unfold no_assert. by destruct m as [[]|]. Qed.

Lemma no_assert_norm_index n i : no_assert (norm_index n i).
Proof. intros [[=] _]%norm_index_Raise. Qed.

Lemma no_assert_getitem {A} (t : list A) i : no_assert (getitem t i).
Proof.
  apply no_assert_bind; [apply no_assert_norm_index|].
  intros p. by destruct (t !! p).
Qed.

Lemma no_assert_index_select {A} (t : list A) idx :
  no_assert (index_select t idx).
Proof.
  induction idx as [|i idx IH]; [done|]. simpl.
  apply no_assert_bind; [apply no_assert_getitem|]. intros x.
  by apply no_assert_bind.
Qed.

Lemma no_assert_index_fill {A} (t : list A) idx v :
  no_assert (index_fill t idx v).
Proof.
  revert t. induction idx as [|i idx IH]; intros t; [done|]. simpl.
  apply no_assert_bind; [apply no_assert_norm_index | by intros p].
Qed.

Lemma no_assert_index_put {A} (t : list A) idx vals :
  no_assert (index_put t idx vals).
Proof.
  revert t vals. induction idx as [|i idx IH]; intros t [|v vals]; try done.
  simpl. apply no_assert_bind; [apply no_assert_norm_index | by intros p].
Qed.

Lemma no_assert_index_put2 {A} (t : list (list A)) rows cols vals :
  no_assert (index_put2 t rows cols vals).
Proof.
  revert t cols vals.
  induction rows as [|i rows IH]; intros t [|j cols] [|v vals]; try done.
  simpl. apply no_assert_bind; [apply no_assert_getitem|]. intros row.
  apply no_assert_bind; [apply no_assert_norm_index|]. intros p.
  apply no_assert_bind; [apply no_assert_norm_index | by intros q].
Qed.

Lemma no_assert_bool_index {A} (t : list A) mask :
  no_assert (bool_index t mask).
Proof. unfold bool_index. by case_bool_decide. Qed.

Lemma no_assert_zip_same {A B C} (f : A → B → C) xs ys :
  no_assert (zip_same f xs ys).
Proof. unfold zip_same. by case_bool_decide. Qed.

Lemma no_assert_topk k t : no_assert (topk k t).
Proof. unfold topk. by case_bool_decide. Qed.

Lemma no_assert_tensor_max t : no_assert (tensor_max t).
Proof. by destruct t. Qed.

Lemma no_assert_map_index is_cuda uninit src index max_index inclusive :
  no_assert (map_index is_cuda uninit src index max_index inclusive).
Proof.
  unfold map_index. apply no_assert_bind.
  { destruct max_index; [done|].
    apply no_assert_bind; [apply no_assert_tensor_max|]. intros a.
    apply no_assert_bind; [apply no_assert_tensor_max | done]. }
  intros m. case_bool_decide.
  - apply no_assert_bind.
    { unfold new_empty, new_full. destruct inclusive; by case_bool_decide. }
    intros assoc. apply no_assert_bind; [apply no_assert_index_put|].
    intros assoc'. apply no_assert_bind; [apply no_assert_index_select|].
    intros out. by destruct inclusive.
  - destruct (forallb notnan _), inclusive; done.
Qed.

Lemma no_assert_construct_logits {R} Radd dot mul_sum head off1 off2
    (a b c d : list (list R)) batch idx :
  no_assert (construct_logits R Radd dot mul_sum head off1 off2 a b c d
               batch idx).
Proof.
  unfold construct_logits.
  apply no_assert_bind; [apply no_assert_index_select|]. intros rows.
  apply no_assert_bind; [apply no_assert_zip_same|]. intros prod.
  apply no_assert_bind; [apply no_assert_zip_same|]. intros logits.
  apply no_assert_bind; [apply no_assert_index_select|]. intros offs.
  apply no_assert_bind; [apply no_assert_zip_same|]. intros logits'.
  apply no_assert_index_put2.
Qed.

Lemma no_assert_sample_step_from {R} is_cuda uninit
    (rhs_embedding_row : Z → list R) self rnd idgnn batch emb yb y :
  no_assert (sample_step_from is_cuda uninit R rhs_embedding_row self rnd
               idgnn batch emb yb (Some y)).
Proof.
  unfold sample_step_from.
  apply no_assert_bind; [apply no_assert_index_fill|]. intros r1. simpl.
  apply no_assert_bind; [apply no_assert_index_fill|]. intros pr.
  apply no_assert_bind; [by destruct (rhs_sample_size self)|]. intros k.
  apply no_assert_bind; [apply no_assert_topk|]. intros l.
  apply no_assert_bind; [apply no_assert_map_index|]. intros [y' mask].
  apply no_assert_bind.
  { case_bool_decide; [done|]. destruct yb as [b|], mask as [m|]; try done.
    apply no_assert_fmap, no_assert_bool_index. }
  intros yb'.
  apply no_assert_bind; [apply no_assert_map_index|]. intros [i' mask'].
  apply no_assert_bind; [|by intros [? ?]].
  case_bool_decide; [done|]. destruct mask' as [m|]; [|done].
  apply no_assert_bind; [apply no_assert_bool_index|]. intros b'.
  apply no_assert_bind; [apply no_assert_bool_index | done].
Qed.

Section Pipeline.
Context (is_cuda : bool) (uninit : nat → Z) {R : Type}.
Context (Radd : R → R → R) (dot mul_sum : list R → list R → R).
Context (head lin_offset_idgnn lin_offset_embgnn : list R → R).
Context (lhs_projector : list R → list R) (rhs_embedding_row : Z → list R).
Context (self : ContextGNN).

Local Abbreviation N := (num_rhs_nodes self).
Local Abbreviation sample_step' :=
  (sample_step is_cuda uninit R rhs_embedding_row self).
Local Abbreviation sample_step_from' :=
  (sample_step_from is_cuda uninit R rhs_embedding_row self).
Local Abbreviation forward_sample_softmax' :=
  (forward_sample_softmax is_cuda uninit R Radd dot mul_sum head
     lin_offset_idgnn lin_offset_embgnn lhs_projector rhs_embedding_row
     self).

Lemma sample_step_draw g idgnn batch emb yb y :
  (sample_step' g idgnn batch emb yb y).1
  = sample_step_from' (torch_rand N g).1 idgnn batch emb yb y.
Proof. done. Qed.

Lemma forward_sample_softmax_draw g lhs emb idgnn batch yb y :
  (forward_sample_softmax' g lhs emb idgnn batch yb y).1
  = '(rhs_idgnn_index, rhs_embedding, lhs_idgnn_batch, rhs_gnn_embedding,
      lhs_y_batch, rhs_y_index) ←
      sample_step_from' (torch_rand N g).1 idgnn batch emb yb y;
    embgnn_logits ←
      construct_logits R Radd dot mul_sum head lin_offset_idgnn
        lin_offset_embgnn (lhs_projector <$> lhs) lhs rhs_gnn_embedding
        rhs_embedding lhs_idgnn_batch rhs_idgnn_index;
    Return (embgnn_logits, lhs_y_batch, rhs_y_index).
Proof. done. Qed.

(** C10.  With [dst_index = None] the assertion on [rhs_y_index] fails, in
    [sample_step] and in [forward_sample_softmax], and no candidate set is
    selected (the priorities have been drawn by then: the generator has
    advanced); with a tensor for [dst_index] the assertion never fails.
    The ids of [rhs_idgnn_index] index the priority array. *)
Theorem dst_index_None_fails_assertion (g : Generator)
    (lhs_embedding rhs_gnn_embedding : list (list R))
    (rhs_idgnn_index lhs_idgnn_batch : list Z)
    (src_batch : option (list Z)) :
  Forall (λ i, - Z.of_nat N ≤ i < Z.of_nat N) rhs_idgnn_index →
  (sample_step' g rhs_idgnn_index lhs_idgnn_batch rhs_gnn_embedding
     src_batch None).1 = Raise AssertionError ∧
  (forward_sample_softmax' g lhs_embedding rhs_gnn_embedding
     rhs_idgnn_index lhs_idgnn_batch src_batch None).1
  = Raise AssertionError ∧
  sampled_rhs_index self g rhs_idgnn_index None = Raise AssertionError ∧
  gen_pos (sample_step' g rhs_idgnn_index lhs_idgnn_batch rhs_gnn_embedding
             src_batch None).2 = (gen_pos g + N)%nat ∧
  ∀ dst_index : list Z,
    (sample_step' g rhs_idgnn_index lhs_idgnn_batch rhs_gnn_embedding
       src_batch (Some dst_index)).1 ≠ Raise AssertionError ∧
    (forward_sample_softmax' g lhs_embedding rhs_gnn_embedding
       rhs_idgnn_index lhs_idgnn_batch src_batch (Some dst_index)).1
    ≠ Raise AssertionError.
Proof.
  intros Hidgnn.
  destruct (index_fill_ok (torch_rand N g).1 rhs_idgnn_index (3 : Q))
    as [r1 Hr1]; [by rewrite torch_rand_length|].
  assert (Hstep :
    sample_step_from is_cuda uninit R rhs_embedding_row self
      (torch_rand N g).1 rhs_idgnn_index lhs_idgnn_batch rhs_gnn_embedding
      src_batch None = Raise AssertionError).
  { unfold sample_step_from. by rewrite Hr1. }
  split_and!.
  - by rewrite sample_step_draw.
  - by rewrite forward_sample_softmax_draw, Hstep.
  - unfold sampled_rhs_index, candidate_sampler, priority_array.
    by rewrite Hr1.
  - done.
  - intros dst_index.
    pose proof (no_assert_sample_step_from is_cuda uninit rhs_embedding_row
                  self (torch_rand N g).1 rhs_idgnn_index lhs_idgnn_batch
                  rhs_gnn_embedding src_batch dst_index) as Hno.
    split; [by rewrite sample_step_draw|].
    rewrite forward_sample_softmax_draw.
    apply no_assert_bind; [exact Hno|].
    intros [[[[[a b] c] d] e] f].
    apply no_assert_bind; [apply no_assert_construct_logits | done].
Qed.

(** C8, as the code has it.  An id [>= num_rhs_nodes] or
    [< -num_rhs_nodes] in [rhs_idgnn_index] or [rhs_y_index] makes
    [sample_step] raise [IndexError] at the priority assignment.  An id in
    [[-num_rhs_nodes, 0)] is not rejected: the assignment counts it from
    the end and gives candidate [id + num_rhs_nodes] the priority. *)
Theorem out_of_range_ids (g : Generator)
    (rhs_gnn_embedding : list (list R))
    (rhs_idgnn_index lhs_idgnn_batch rhs_y_index : list Z)
    (lhs_y_batch : option (list Z)) :
  (Exists (λ i, ¬ (- Z.of_nat N ≤ i < Z.of_nat N)) rhs_idgnn_index →
   ∀ dst_index,
     (sample_step' g rhs_idgnn_index lhs_idgnn_batch rhs_gnn_embedding
        lhs_y_batch dst_index).1 = Raise IndexError) ∧
  (Forall (λ i, - Z.of_nat N ≤ i < Z.of_nat N) rhs_idgnn_index →
   Exists (λ i, ¬ (- Z.of_nat N ≤ i < Z.of_nat N)) rhs_y_index →
   (sample_step' g rhs_idgnn_index lhs_idgnn_batch rhs_gnn_embedding
      lhs_y_batch (Some rhs_y_index)).1 = Raise IndexError) ∧
  (Forall (λ i, - Z.of_nat N ≤ i < Z.of_nat N) rhs_idgnn_index →
   Forall (λ i, - Z.of_nat N ≤ i < Z.of_nat N) rhs_y_index →
   ∃ rnd,
     priority_array (torch_rand N g).1 rhs_idgnn_index (Some rhs_y_index)
     = Return rnd ∧
     (∀ id, id ∈ rhs_y_index → id < 0 →
            rnd !! Z.to_nat (id + Z.of_nat N) = Some (4 : Q)) ∧
     (∀ id, id ∈ rhs_idgnn_index → id < 0 →
            ∃ q, rnd !! Z.to_nat (id + Z.of_nat N) = Some q ∧ (3 <= q)%Q)).
Proof.
  pose proof (torch_rand_length N g) as Hlen.
  split_and!.
  - intros Hbad dst_index. rewrite sample_step_draw.
    unfold sample_step_from.
    rewrite index_fill_Raise; [done | by rewrite Hlen].
  - intros Hok Hbad. rewrite sample_step_draw.
    unfold sample_step_from.
    destruct (index_fill_ok (torch_rand N g).1 rhs_idgnn_index (3 : Q))
      as [r1 Hr1]; [by rewrite Hlen|].
    rewrite Hr1. simpl.
    rewrite index_fill_Raise; [done|].
    apply index_fill_Return in Hr1 as (-> & _). by rewrite Hlen.
  - intros Hi Hy.
    destruct (priority_array_ok (torch_rand N g).1 rhs_idgnn_index
                rhs_y_index) as [rnd Hrnd]; [by rewrite Hlen..|].
    exists rnd. split; [done|].
    apply priority_array_Return in Hrnd as (_ & _ & _ & Hrnd).
    assert (Hwrap : ∀ (ids : list Z) id,
      Forall (λ i, - Z.of_nat N ≤ i < Z.of_nat N) ids →
      id ∈ ids → id < 0 →
      (Z.to_nat (id + Z.of_nat N) < N)%nat ∧
      Z.of_nat (Z.to_nat (id + Z.of_nat N)) ∈ wrap_ids N ids).
    { intros ids id Hall Hin Hneg.
      pose proof (proj1 (Forall_forall _ _) Hall id Hin) as Hb.
      simpl in Hb. split; [lia|].
      apply list_elem_of_fmap. exists id. split; [|done].
      rewrite Z2Nat.id by lia.
      rewrite <- (Z.mod_add id 1) by lia. rewrite Z.mod_small; lia. }
    split.
    + intros id Hin Hneg. destruct (Hwrap _ _ Hy Hin Hneg) as [Hlt Hw].
      rewrite Hrnd. apply priority_of_required; by rewrite Hlen.
    + intros id Hin Hneg. destruct (Hwrap _ _ Hi Hin Hneg) as [Hlt Hw].
      rewrite Hrnd. apply priority_of_forced; rewrite Hlen; [done|].
      unfold wrap_ids in *. rewrite fmap_app, elem_of_app. by right.
Qed.
End Pipeline.

(** ** Determinism *)



Section Determinism.
Context (is_cuda : bool) (uninit1 uninit2 : nat → Z) {R : Type}.
Context (Radd : R → R → R) (dot mul_sum : list R → list R → R).
Context (head lin_offset_idgnn lin_offset_embgnn : list R → R).
Context (lhs_projector : list R → list R) (rhs_embedding_row : Z → list R).
Context (self : ContextGNN).

Local Abbreviation N := (num_rhs_nodes self).



End Determinism.

(** ** The whole pipeline on a well-formed batch *)

Lemma index_put2_shape {A} (t : list (list A)) (S : nat) rows cols vals :
  Forall (λ row, length row = S) t →
  Forall (λ i, 0 ≤ i < Z.of_nat (length t)) rows →
  Forall (λ j, 0 ≤ j < Z.of_nat S) cols →
  length cols = length rows → length vals = length rows →
  ∃ t', index_put2 t rows cols vals = Return t' ∧
        length t' = length t ∧ Forall (λ row, length row = S) t'.
Proof.
  revert t cols vals.
  induction rows as [|i rows IH]; intros t cols vals Ht Hr Hc Hlc Hlv.
  - destruct cols; [|done]. destruct vals; [|done]. by exists t.
  - destruct cols as [|j cols]; [done|]. destruct vals as [|v vals]; [done|].
    apply Forall_cons in Hr as [Hi Hr]. apply Forall_cons in Hc as [Hj Hc].
    destruct (lookup_lt_is_Some_2 t (Z.to_nat i)) as [row Hrow]; [lia|].
    pose proof (proj1 (Forall_lookup _ _) Ht _ _ Hrow) as Hlen. simpl in Hlen.
    simpl. rewrite (getitem_nonneg t i row) by (done || lia). simpl.
    rewrite (norm_index_nonneg (length t) i) by lia. simpl.
    rewrite (norm_index_nonneg (length row) j) by lia. simpl.
    destruct (IH (<[Z.to_nat i := <[Z.to_nat j := v]> row]> t) cols vals)
      as (t' & -> & Hl' & Hrows').
    { apply Forall_insert; [done|]. by rewrite length_insert. }
    { by rewrite length_insert. } { done. }
    { simpl in Hlc. lia. } { simpl in Hlv. lia. }
    rewrite length_insert in Hl'. by exists t'.
Qed.

(** The positions of distinct [(row, id)] pairs are distinct [(row,
    position)] pairs. *)
Lemma NoDup_remapped {A} (l : list Z) (pairs : list (A * Z)) :
  NoDup pairs →
  NoDup (omap (λ e, pair e.1 <$> position_in l e.2) pairs).
Proof.
  induction 1 as [|[a id] pairs Hfresh Hnd IH]; [constructor|]. csimpl.
  destruct (position_in l id) as [p|] eqn:Hp; [|done]. simpl.
  constructor; [|done]. intros Hin.
  apply list_elem_of_omap in Hin as ([a' id'] & Hin & Heq). simpl in Heq.
  destruct (position_in l id') as [p'|] eqn:Hp'; [|done].
  injection Heq as -> ->.
  apply position_in_Some in Hp as [_ Hp].
  apply position_in_Some in Hp' as [_ Hp'].
  assert (id' = id) as -> by congruence. done.
Qed.

Lemma filter_mask_Forall {A} (P : A → Prop) (t : list A) mask :
  Forall P t → Forall P (filter_mask t mask).
Proof.
  intros Ht. revert mask. induction Ht as [|x t Hx _ IH]; intros [|b mask];
    simpl; try constructor.
  destruct b; [constructor|]; auto.
Qed.

Section WellFormedBatch.
Context (is_cuda : bool) (uninit : nat → Z) {R : Type}.
Context (Radd : R → R → R) (dot mul_sum : list R → list R → R).
Context (head lin_offset_idgnn lin_offset_embgnn : list R → R).
Context (lhs_projector : list R → list R) (rhs_embedding_row : Z → list R).
Context (self : ContextGNN) (g : Generator) (k : Z).
Context (lhs_embedding rhs_gnn_embedding : list (list R)).
Context (rhs_idgnn_index lhs_idgnn_batch lhs_y_batch rhs_y_index : list Z).

Hypothesis Hsize : rhs_sample_size self = Some k.
Hypothesis Hk : 0 < k ≤ Z.of_nat (num_rhs_nodes self).
Hypothesis Hidgnn : valid_ids (num_rhs_nodes self) rhs_idgnn_index.
Hypothesis Hy : valid_ids (num_rhs_nodes self) rhs_y_index.
Hypothesis Hnonempty : rhs_idgnn_index ≠ [].
Hypothesis Hbatch : length lhs_idgnn_batch = length rhs_idgnn_index.
Hypothesis Hemb : length rhs_gnn_embedding = length rhs_idgnn_index.
Hypothesis Hybatch : length lhs_y_batch = length rhs_y_index.
Hypothesis Hrows :
  Forall (λ i, 0 ≤ i < Z.of_nat (length lhs_embedding)) lhs_idgnn_batch.

(** What [sample_step] hands to [construct_logits] meets the conditions of
    the fuser: coordinates in range, and distinct when the
    [(row, candidate)] pairs of the batch are. *)
Lemma sampled_coordinates rhs_index :
  sampled_rhs_index self g rhs_idgnn_index (Some rhs_y_index)
  = Return rhs_index →
  Forall (λ i, 0 ≤ i < Z.of_nat (length lhs_embedding))
    (filter_mask lhs_idgnn_batch (present rhs_index <$> rhs_idgnn_index)) ∧
  Forall (λ j, 0 ≤ j < Z.of_nat (length rhs_index))
    (omap (position_in rhs_index) rhs_idgnn_index) ∧
  (NoDup (zip lhs_idgnn_batch rhs_idgnn_index) →
   NoDup (zip (filter_mask lhs_idgnn_batch
                 (present rhs_index <$> rhs_idgnn_index))
              (omap (position_in rhs_index) rhs_idgnn_index))).
Proof.
  intros Hl. split_and!.
  - by apply filter_mask_Forall.
  - apply Forall_forall. intros p Hp.
    apply list_elem_of_omap in Hp as (id & _ & [Hp0 Hp]%position_in_Some).
    apply lookup_lt_Some in Hp. lia.
  - intros Hnd. rewrite filter_mask_aligned by done.
    by apply NoDup_remapped.
Qed.

(** [forward_sample_softmax] returns a [batchSize x rhsSampleSize] matrix. *)
Lemma forward_sample_softmax_shape :
  ∃ logits lhs_y_batch' rhs_y_index',
    (forward_sample_softmax is_cuda uninit R Radd dot mul_sum head
       lin_offset_idgnn lin_offset_embgnn lhs_projector rhs_embedding_row
       self g lhs_embedding rhs_gnn_embedding rhs_idgnn_index
       lhs_idgnn_batch (Some lhs_y_batch) (Some rhs_y_index)).1
    = Return (logits, Some lhs_y_batch', rhs_y_index') ∧
    length logits = length lhs_embedding ∧
    Forall (λ row, Z.of_nat (length row) = k) logits.
Proof.
  destruct (sample_step_from_valid is_cuda uninit rhs_embedding_row self
              (torch_rand (num_rhs_nodes self) g).1 k rhs_idgnn_index
              lhs_idgnn_batch rhs_gnn_embedding lhs_y_batch rhs_y_index)
    as (l & Hl & Hstep); try done;
    [apply torch_rand_length | apply torch_rand_unit |].
  destruct (sampled_shape self g k _ _ _ Hsize Hl) as (Hlen & _ & _).
  destruct (sampled_coordinates l Hl) as (Hb' & Hi' & _).
  rewrite forward_sample_softmax_draw, Hstep. simpl.
  unfold construct_logits.
  set (batch' := filter_mask lhs_idgnn_batch _) in *.
  set (gnn' := filter_mask rhs_gnn_embedding _).
  set (idgnn' := omap (position_in l) rhs_idgnn_index) in *.
  assert (Hlb : length batch' = length idgnn')
    by (by apply length_filter_mask_present).
  assert (Hlg : length gnn' = length idgnn')
    by (by apply length_filter_mask_present).
  destruct (index_select_total lhs_embedding batch')
    as (lhs_rows & -> & Hlr & _); [done|]. simpl.
  rewrite (zip_same_eq mul_sum lhs_rows) by congruence. simpl.
  rewrite (zip_same_eq Radd (head <$> gnn'))
    by (rewrite length_fmap, length_zip_with; lia). simpl.
  destruct (index_select_total
              (lin_offset_idgnn <$> (lhs_projector <$> lhs_embedding)) batch')
    as (offs & -> & Hlo & _); [by rewrite !length_fmap|]. simpl.
  rewrite zip_same_eq by (rewrite !length_zip_with, length_fmap; lia). simpl.
  change (zip_with _ (_ <$> (lhs_projector <$> lhs_embedding)) _)
    with (dense_logits Radd dot lin_offset_embgnn
            (lhs_projector <$> lhs_embedding) (rhs_embedding_row <$> l)).
  destruct (dense_logits_shape Radd dot lin_offset_embgnn
              (lhs_projector <$> lhs_embedding) (rhs_embedding_row <$> l))
    as [HlenE HrowsE].
  rewrite !length_fmap in HlenE.
  assert (HrowsE' : Forall (λ row, length row = length l)
            (dense_logits Radd dot lin_offset_embgnn
               (lhs_projector <$> lhs_embedding) (rhs_embedding_row <$> l))).
  { eapply Forall_impl; [exact HrowsE|]. intros row. simpl.
    by rewrite length_fmap. }
  destruct (index_put2_shape
              (dense_logits Radd dot lin_offset_embgnn
                 (lhs_projector <$> lhs_embedding) (rhs_embedding_row <$> l))
              (length l) batch' idgnn'
              (zip_with Radd
                 (zip_with Radd (head <$> gnn') (zip_with mul_sum lhs_rows gnn'))
                 offs))
    as (logits & -> & Hshape1 & Hshape2).
  { done. } { by rewrite HlenE. } { done. } { congruence. }
  { rewrite !length_zip_with, length_fmap. lia. }
  simpl. eexists _, _, _. split; [done|]. split; [congruence|].
  eapply Forall_impl; [exact Hshape2|]. simpl. lia.
Qed.
End WellFormedBatch.

(** * The claims on a concrete batch *)

Lemma construct_logits_overwrite_witness :
  ∃ logits,
    construct_logits Z Z.add int_dot int_dot (λ _, 100) (λ _, 1000)
      (λ _, 10000) [[1; 0]; [0; 1]] [[1; 0]; [0; 1]] [[5; 6]]
      [[1; 2]; [3; 4]; [5; 6]] [1] [2] = Return logits ∧
    length logits = 2%nat ∧
    cell logits 1 2 = Some 1106 ∧ cell logits 0 2 = Some 10005.
Proof.
  destruct (construct_logits_overwrite Z.add int_dot int_dot (λ _, 100)
              (λ _, 1000) (λ _, 10000) [[1; 0]; [0; 1]] [[1; 0]; [0; 1]]
              [[5; 6]] [[1; 2]; [3; 4]; [5; 6]] [1] [2])
    as (logits & Hrun & Hlen & _ & Hsparse & Hdense).
  - reflexivity.
  - reflexivity.
  - reflexivity.
  - repeat constructor; simpl; lia.
  - repeat constructor; simpl; lia.
  - apply NoDup_singleton.
  - exists logits. split; [exact Hrun|]. split; [exact Hlen|]. split.
    + apply (Hsparse 0%nat 1 2 [5; 6] [0; 1] [0; 1]); reflexivity.
    + apply (Hdense 0%nat 2%nat [1; 0] [5; 6]); [reflexivity..|].
      intros Hin%list_elem_of_In. simpl in Hin.
      destruct Hin as [Heq|[]]. discriminate Heq.
Defined.

Lemma sampler_exact_size_and_required_witness :
  ∃ rhs_index,
    sampled_rhs_index example_model example_generator [2; 3] (Some [7])
    = Return rhs_index ∧
    Z.of_nat (length rhs_index) = 4 ∧ NoDup rhs_index ∧ 7 ∈ rhs_index.
Proof.
  destruct (sampler_exact_size_and_required example_model example_generator
              4 [2; 3] [7]) as (l & Hl & Hlen & Hnd & _ & Hreq).
  - reflexivity.
  - simpl. lia.
  - repeat constructor; simpl; lia.
  - repeat constructor; simpl; lia.
  - exists l. split; [exact Hl|]. split; [exact Hlen|]. split; [exact Hnd|].
    apply Hreq; [simpl; lia|]. apply list_elem_of_In. simpl. tauto.
Defined.

Lemma example_csr : csr_well_formed [0; 2; 2; 5] [10; 11; 20; 21; 22].
Proof.
  split.
  - exists 0. split; [reflexivity | lia].
  - intros [|[|[|[|i]]]] x y; simpl; intros [= <-] [= <-] || intros [=]; lia.
  - reflexivity.
Qed.

Lemma get_rhs_index_expands_witness :
  ∃ batchId neighborId,
    get_rhs_index [2; 0; 1; 2] [0; 2; 2; 5] [10; 11; 20; 21; 22]
    = Return (batchId, neighborId) ∧
    length batchId = length neighborId ∧
    elements_with_batch 0 batchId neighborId = [20; 21; 22] ∧
    2 ∉ batchId.
Proof.
  destruct (get_rhs_index_expands [0; 2; 2; 5] [10; 11; 20; 21; 22]
              [2; 0; 1; 2]) as (b & d & Hrun & Hlen & _ & Hrows & _).
  - exact example_csr.
  - repeat constructor; simpl; lia.
  - simpl. lia.
  - simpl. lia.
  - vm_compute. reflexivity.
  - exists b, d. split; [exact Hrun|]. split; [exact Hlen|].
    split.
    + apply (Hrows 0%nat 2). reflexivity.
    + apply (Hrows 2%nat 1); reflexivity.
Defined.

Lemma map_index_round_trip_witness :
  map_index false (λ _, 0) [7; 1] [7; 2; 3; 9] (Some 10) false
  = Return (omap (position_in [7; 2; 3; 9]) [7; 1],
            Some ((λ id, bool_decide (id ∈ [7; 2; 3; 9])) <$> [7; 1])) ∧
  position_in [7; 2; 3; 9] 3 = Some 2.
Proof.
  destruct (map_index_round_trip false (λ _, 0) example_model
              example_generator 4 [2; 3] [7] [7; 2; 3; 9] [7; 1] (Some 10))
    as (Hremap & Hplaced & _).
  - reflexivity.
  - repeat constructor; simpl; lia.
  - repeat constructor; simpl; lia.
  - vm_compute. reflexivity.
  - repeat constructor; simpl; lia.
  - left. reflexivity.
  - split; [exact Hremap|]. apply (Hplaced 2%nat 3). reflexivity.
Defined.

Lemma inclusive_guard_total_witness :
  Forall (λ id, id ∈ [7; 2; 3; 9]) [7] ∧
  Forall (λ id, id ∈ [7; 2; 3; 9]) [2; 3].
Proof.
  destruct (inclusive_guard_total false (λ _, 0) example_model
              example_generator 4 [2; 3] [7] [7; 2; 3; 9])
    as (Hpos & Hsparse).
  - reflexivity.
  - repeat constructor; simpl; lia.
  - repeat constructor; simpl; lia.
  - vm_compute. reflexivity.
  - split.
    + apply Hpos. simpl. lia.
    + apply (Hsparse [0] None); [vm_compute; reflexivity | simpl; lia].
Defined.

Lemma required_wins_over_priority_witness :
  (∀ id, id ∈ [7; 3] → id ∈ [3; 7; 2; 4]) ∧
  (∃ id, id ∈ [2; 3; 4; 5] ∧ id ∉ [3; 7; 2; 4]).
Proof.
  destruct (priority_array (torch_rand 10 example_generator).1 [2; 3; 4; 5]
              (Some [7; 3])) as [e|rnd] eqn:Hrnd;
    [vm_compute in Hrnd; discriminate|].
  destruct (required_wins_over_priority example_model example_generator 4
              [2; 3; 4; 5] [7; 3] [3; 7; 2; 4] rnd)
    as (Hreq & _ & Hsome & _).
  - reflexivity.
  - repeat constructor; simpl; lia.
  - repeat constructor; simpl; lia.
  - vm_compute. discriminate.
  - vm_compute. reflexivity.
  - vm_compute. reflexivity.
  - exact Hrnd.
  - split; [exact Hreq | exact Hsome].
Defined.


Lemma out_of_range_ids_witness :
  (sample_step false (λ _, 0) Z (λ _, []) example_model example_generator
     [2; 10] [0; 0] [[]; []] (Some [0]) (Some [7])).1 = Raise IndexError.
Proof.
  destruct (out_of_range_ids false (λ _, 0) (R := Z) (λ _, []) example_model
              example_generator [[]; []] [2; 10] [0; 0] [7] (Some [0]))
    as (Hbad & _ & _).
  apply Hbad. apply Exists_cons_tl, Exists_cons_hd. simpl. lia.
Defined.


Lemma dst_index_None_fails_assertion_witness :
  (forward_sample_softmax false (λ _, 0) Z Z.add int_dot int_dot (λ _, 100)
     (λ _, 1000) (λ _, 10000) id (λ _, [1; 1]) example_model
     example_generator [[1; 0]; [0; 1]] [[5; 6]; [7; 8]] [2; 3] [0; 1]
     None None).1 = Raise AssertionError.
Proof.
  destruct (dst_index_None_fails_assertion false (λ _, 0) Z.add int_dot
              int_dot (λ _, 100) (λ _, 1000) (λ _, 10000) id (λ _, [1; 1])
              example_model example_generator [[1; 0]; [0; 1]]
              [[5; 6]; [7; 8]] [2; 3] [0; 1] None) as (_ & Hfwd & _).
  - repeat constructor; simpl; lia.
  - exact Hfwd.
Defined.

(** C8 as stated fails: the id [-1] is outside [[0, 10)], yet [sample_step]
    returns; the required priority went to candidate 9, which is sampled,
    and the remapped position is whatever the helper vector held. *)
Lemma negative_id_is_not_rejected :
  ¬ (0 ≤ -1 < Z.of_nat (num_rhs_nodes example_model)) ∧
  (sample_step false (λ _, 0) Z (λ _, []) example_model example_generator
     [2; 3] [0; 0] [[]; []] (Some [0]) (Some [-1])).1
  = Return ([1; 2], [[]; []; []; []], [0; 0], [[]; []], Some [0], [0]) ∧
  sampled_rhs_index example_model example_generator [2; 3] (Some [-1])
  = Return [9; 2; 3; 8].
Proof.
  split; [simpl; lia|]. split; vm_compute; reflexivity.
Qed.


(** * Further properties *)

(** ** The full and the sampled logits *)

Section FuserCells.
Context {R : Type} (Radd : R → R → R).
Context (dot mul_sum : list R → list R → R).
Context (head lin_offset_idgnn lin_offset_embgnn : list R → R).

(** Every cell of the fused matrix, for coordinates in range and pairwise
    distinct. *)
Lemma construct_logits_cells
    (lhs_embedding_projected lhs_embedding rhs_gnn_embedding rhs_embedding
       : list (list R))
    (lhs_idgnn_batch rhs_idgnn_index : list Z) :
  length lhs_embedding = length lhs_embedding_projected →
  length lhs_idgnn_batch = length rhs_gnn_embedding →
  length rhs_idgnn_index = length rhs_gnn_embedding →
  Forall (λ i, 0 ≤ i < Z.of_nat (length lhs_embedding_projected))
    lhs_idgnn_batch →
  Forall (λ j, 0 ≤ j < Z.of_nat (length rhs_embedding)) rhs_idgnn_index →
  NoDup (zip lhs_idgnn_batch rhs_idgnn_index) →
  ∃ logits,
    construct_logits R Radd dot mul_sum head lin_offset_idgnn
      lin_offset_embgnn lhs_embedding_projected lhs_embedding
      rhs_gnn_embedding rhs_embedding lhs_idgnn_batch rhs_idgnn_index
    = Return logits ∧
    length logits = length lhs_embedding_projected ∧
    Forall (λ row, length row = length rhs_embedding) logits ∧
    (∀ k i j g u e,
       lhs_idgnn_batch !! k = Some i → rhs_idgnn_index !! k = Some j →
       rhs_gnn_embedding !! k = Some g →
       lhs_embedding_projected !! Z.to_nat i = Some u →
       lhs_embedding !! Z.to_nat i = Some e →
       cell logits (Z.to_nat i) (Z.to_nat j)
       = Some (Radd (Radd (head g) (mul_sum e g)) (lin_offset_idgnn u))) ∧
    (∀ p q u v,
       lhs_embedding_projected !! p = Some u →
       rhs_embedding !! q = Some v →
       (Z.of_nat p, Z.of_nat q) ∉ zip lhs_idgnn_batch rhs_idgnn_index →
       cell logits p q = Some (Radd (dot u v) (lin_offset_embgnn u))).
Proof.
  intros Hlhs Hlb Hli Hb Hi Hnd. unfold construct_logits.
  change (zip_with _ (_ <$> lhs_embedding_projected) _)
    with (dense_logits Radd dot lin_offset_embgnn lhs_embedding_projected
            rhs_embedding).
  destruct (dense_logits_shape Radd dot lin_offset_embgnn
              lhs_embedding_projected rhs_embedding) as [HlenE HrowsE].
  destruct (index_select_total lhs_embedding lhs_idgnn_batch)
    as (lhs_rows & -> & Hlr & Hrows); [by rewrite Hlhs|]. simpl.
  rewrite (zip_same_eq mul_sum lhs_rows) by congruence. simpl.
  rewrite (zip_same_eq Radd (head <$> rhs_gnn_embedding))
    by (rewrite length_fmap, length_zip_with; lia). simpl.
  destruct (index_select_total (lin_offset_idgnn <$> lhs_embedding_projected)
              lhs_idgnn_batch) as (offs & -> & Hlo & Hoffs);
    [by rewrite length_fmap|]. simpl.
  rewrite zip_same_eq
    by (rewrite !length_zip_with, length_fmap; lia). simpl.
  set (vals := zip_with Radd _ offs).
  destruct (index_put2_distinct
              (dense_logits Radd dot lin_offset_embgnn
                 lhs_embedding_projected rhs_embedding)
              (length rhs_embedding) lhs_idgnn_batch rhs_idgnn_index vals)
    as (logits & -> & Hlen & Hshape & Hin & Hout).
  { done. } { by rewrite HlenE. } { done. } { done. } { congruence. }
  { unfold vals. rewrite !length_zip_with, length_fmap. lia. }
  exists logits. split_and!; [done | congruence | done | |].
  - intros k i j g u e Hki Hkj Hkg Hu He.
    rewrite (Hin k i j Hki Hkj). unfold vals.
    rewrite !lookup_zip_with, list_lookup_fmap, Hkg. simpl.
    rewrite (Hrows k i Hki), He. simpl.
    rewrite (Hoffs k i Hki), list_lookup_fmap, Hu. done.
  - intros p q u v Hu Hv Hpq. rewrite (Hout p q Hpq).
    by apply dense_logits_cell.
Qed.
End FuserCells.

Section SampledVsFull.
Context (is_cuda : bool) (uninit : nat → Z) {R : Type}.
Context (Radd : R → R → R) (dot mul_sum : list R → list R → R).
Context (head lin_offset_idgnn lin_offset_embgnn : list R → R).
Context (lhs_projector : list R → list R) (rhs_embedding_row : Z → list R).

Lemma sampled_vs_full
    (self : ContextGNN) (g : Generator) (k : Z)
    (lhs_embedding rhs_gnn_embedding : list (list R))
    (rhs_idgnn_index lhs_idgnn_batch lhs_y_batch rhs_y_index : list Z) :
  rhs_sample_size self = Some k →
  0 < k ≤ Z.of_nat (num_rhs_nodes self) →
  valid_ids (num_rhs_nodes self) rhs_idgnn_index →
  valid_ids (num_rhs_nodes self) rhs_y_index →
  rhs_idgnn_index ≠ [] →
  length lhs_idgnn_batch = length rhs_idgnn_index →
  length rhs_gnn_embedding = length rhs_idgnn_index →
  length lhs_y_batch = length rhs_y_index →
  Forall (λ i, 0 ≤ i < Z.of_nat (length lhs_embedding)) lhs_idgnn_batch →
  NoDup (zip lhs_idgnn_batch rhs_idgnn_index) →
  ∃ full sampled rhs_index lhs_y_batch' rhs_y_index',
    forward R Radd dot mul_sum head lin_offset_idgnn lin_offset_embgnn
      lhs_projector rhs_embedding_row self lhs_embedding rhs_gnn_embedding
      rhs_idgnn_index lhs_idgnn_batch = Return full ∧
    (forward_sample_softmax is_cuda uninit R Radd dot mul_sum head
       lin_offset_idgnn lin_offset_embgnn lhs_projector rhs_embedding_row
       self g lhs_embedding rhs_gnn_embedding rhs_idgnn_index
       lhs_idgnn_batch (Some lhs_y_batch) (Some rhs_y_index)).1
    = Return (sampled, Some lhs_y_batch', rhs_y_index') ∧
    sampled_rhs_index self g rhs_idgnn_index (Some rhs_y_index)
    = Return rhs_index ∧
    length full = length lhs_embedding ∧
    Forall (λ row, length row = num_rhs_nodes self) full ∧
    length sampled = length lhs_embedding ∧
    Forall (λ row, Z.of_nat (length row) = k) sampled ∧
    ∀ b p id,
      (b < length lhs_embedding)%nat → rhs_index !! p = Some id →
      is_Some (cell sampled b p) ∧
      cell sampled b p = cell full b (Z.to_nat id).
Proof.
  intros Hsize Hk Hidgnn Hy Hne Hbatch Hemb Hybatch Hrows Hnd.
  set (N := num_rhs_nodes self).
  set (proj := lhs_projector <$> lhs_embedding).
  (* the full matrix *)
  destruct (construct_logits_cells Radd dot mul_sum head lin_offset_idgnn
              lin_offset_embgnn proj lhs_embedding rhs_gnn_embedding
              (rhs_embedding_row <$> seqZ 0 (Z.of_nat N))
              lhs_idgnn_batch rhs_idgnn_index)
    as (full & Hfull & HfullB & HfullN & HfullS & HfullD).
  { unfold proj. by rewrite length_fmap. } { congruence. } { done. }
  { unfold proj. by rewrite length_fmap. }
  { rewrite length_fmap, length_seqZ.
    eapply Forall_impl; [exact Hidgnn|]. simpl. lia. }
  { done. }
  (* the sampled matrix *)
  destruct (sample_step_from_valid is_cuda uninit rhs_embedding_row self
              (torch_rand N g).1 k rhs_idgnn_index
              lhs_idgnn_batch rhs_gnn_embedding lhs_y_batch rhs_y_index)
    as (l & Hl & Hstep); try done;
    [apply torch_rand_length | apply torch_rand_unit |].
  destruct (sampled_shape self g k _ _ _ Hsize Hl) as (Hlen & Hndl & Hrange).
  destruct (sampled_coordinates self g lhs_embedding rhs_gnn_embedding
              rhs_idgnn_index lhs_idgnn_batch lhs_y_batch rhs_y_index
              Hbatch Hemb Hybatch Hrows l Hl) as (Hb' & Hi' & Hnd').
  set (batch' := filter_mask lhs_idgnn_batch (present l <$> rhs_idgnn_index))
    in *.
  set (gnn' := filter_mask rhs_gnn_embedding (present l <$> rhs_idgnn_index))
    in *.
  set (idgnn' := omap (position_in l) rhs_idgnn_index) in *.
  assert (Hlb : length batch' = length idgnn')
    by (by apply length_filter_mask_present).
  assert (Hlg : length gnn' = length idgnn')
    by (by apply length_filter_mask_present).
  assert (Halign :
    zip (zip batch' gnn') idgnn'
    = omap (λ e, pair e.1 <$> position_in l e.2)
        (zip (zip lhs_idgnn_batch rhs_gnn_embedding) rhs_idgnn_index)).
  { unfold batch', gnn', idgnn'. rewrite <- filter_mask_zip.
    apply filter_mask_aligned. rewrite length_zip_with. lia. }
  destruct (construct_logits_cells Radd dot mul_sum head lin_offset_idgnn
              lin_offset_embgnn proj lhs_embedding gnn'
              (rhs_embedding_row <$> l) batch' idgnn')
    as (sampled & Hsampled & HsB & HsK & HsS & HsD).
  { unfold proj. by rewrite length_fmap. } { congruence. } { congruence. }
  { unfold proj. by rewrite length_fmap. }
  { by rewrite length_fmap. } { by apply Hnd'. }
  exists full, sampled, l. eexists _, _.
  split; [exact Hfull|]. split.
  { rewrite (forward_sample_softmax_draw is_cuda uninit Radd dot mul_sum head
               lin_offset_idgnn lin_offset_embgnn lhs_projector
               rhs_embedding_row self).
    fold N. rewrite Hstep. simpl. fold proj batch' gnn' idgnn'.
    by rewrite Hsampled. }
  split; [exact Hl|].
  unfold proj in HfullB, HsB. rewrite length_fmap in HfullB, HsB.
  split; [done|]. split.
  { eapply Forall_impl; [exact HfullN|]. intros row. simpl.
    rewrite length_fmap, length_seqZ. lia. }
  split; [done|]. split.
  { eapply Forall_impl; [exact HsK|]. intros row. simpl.
    rewrite length_fmap. lia. }
  intros b p id Hb Hp.
  pose proof (proj1 (Forall_forall _ _) Hrange id
                (list_elem_of_lookup_2 _ _ _ Hp)) as Hid. simpl in Hid.
  destruct (lookup_lt_is_Some_2 lhs_embedding b Hb) as [e He].
  assert (Hu : proj !! b = Some (lhs_projector e))
    by (unfold proj; by rewrite list_lookup_fmap, He).
  assert (Hvfull : (rhs_embedding_row <$> seqZ 0 (Z.of_nat N)) !! Z.to_nat id
                   = Some (rhs_embedding_row id)).
  { rewrite list_lookup_fmap, lookup_seqZ_lt by (fold N in Hid; lia).
    simpl. f_equal. f_equal. lia. }
  assert (Hvs : (rhs_embedding_row <$> l) !! p = Some (rhs_embedding_row id))
    by (by rewrite list_lookup_fmap, Hp).
  pose proof (position_in_NoDup _ _ _ Hndl Hp) as Hpos.
  destruct (decide ((Z.of_nat b, id) ∈ zip lhs_idgnn_batch rhs_idgnn_index))
    as [Hin|Hout].
  - (* a sparse coordinate in both *)
    apply list_elem_of_lookup in Hin as [j Hj].
    apply lookup_zip_with_Some in Hj as (bz & id' & [= <- <-] & Hjb & Hji).
    destruct (lookup_lt_is_Some_2 rhs_gnn_embedding j) as [gj Hjg].
    { apply lookup_lt_Some in Hji. lia. }
    assert (((Z.of_nat b, gj), Z.of_nat p) ∈ zip (zip batch' gnn') idgnn')
      as Hin'.
    { rewrite Halign. apply list_elem_of_omap.
      exists ((Z.of_nat b, gj), id). split.
      - apply list_elem_of_lookup. exists j.
        apply lookup_zip_with_Some. eexists _, _. split_and!; [done| |done].
        apply lookup_zip_with_Some. eexists _, _. by split_and!.
      - simpl. by rewrite Hpos. }
    apply list_elem_of_lookup in Hin' as [j' Hj'].
    apply lookup_zip_with_Some in Hj' as (bg & pz & Heq & Hjbg & Hjp).
    apply lookup_zip_with_Some in Hjbg as (bz & gz & -> & Hjb' & Hjg').
    injection Heq as <- <- <-.
    pose proof (HsS j' _ _ _ (lhs_projector e) e Hjb' Hjp Hjg') as Hs.
    rewrite !Nat2Z.id in Hs. specialize (Hs Hu He).
    pose proof (HfullS j _ _ _ (lhs_projector e) e Hjb Hji Hjg) as Hf.
    rewrite !Nat2Z.id in Hf. specialize (Hf Hu He).
    rewrite Hs, Hf. split; [eauto | done].
  - (* a dense cell in both *)
    assert ((Z.of_nat b, Z.of_nat p) ∉ zip batch' idgnn') as Hout'.
    { intros Hin'. apply Hout.
      assert (zip batch' idgnn'
              = omap (λ e, pair e.1 <$> position_in l e.2)
                  (zip lhs_idgnn_batch rhs_idgnn_index)) as Hal2
        by (by apply filter_mask_aligned).
      rewrite Hal2 in Hin'.
      apply list_elem_of_omap in Hin' as ([b0 id0] & Hin0 & Heq).
      simpl in Heq.
      destruct (position_in l id0) as [p0|] eqn:Hp0; [|done].
      injection Heq as -> ->.
      apply position_in_Some in Hp0 as [_ Hp0].
      rewrite Nat2Z.id in Hp0. by assert (id0 = id) as -> by congruence. }
    rewrite (HsD b p _ _ Hu Hvs Hout').
    rewrite (HfullD b (Z.to_nat id) _ _ Hu Hvfull)
      by (by rewrite Z2Nat.id by lia).
    split; [eauto | done].
Qed.

(** X1.  On a well-formed batch whose [(row, candidate)] pairs are distinct,
    the logits of [forward_sample_softmax] are the logits of [forward]
    restricted to the sampled candidates: column [p] of the sampled matrix
    is column [rhs_index[p]] of the full matrix. *)
Theorem sampled_logits_are_full_columns
    (self : ContextGNN) (g : Generator) (k : Z)
    (lhs_embedding rhs_gnn_embedding : list (list R))
    (rhs_idgnn_index lhs_idgnn_batch lhs_y_batch rhs_y_index : list Z) :
  rhs_sample_size self = Some k →
  0 < k ≤ Z.of_nat (num_rhs_nodes self) →
  valid_ids (num_rhs_nodes self) rhs_idgnn_index →
  valid_ids (num_rhs_nodes self) rhs_y_index →
  rhs_idgnn_index ≠ [] →
  length lhs_idgnn_batch = length rhs_idgnn_index →
  length rhs_gnn_embedding = length rhs_idgnn_index →
  length lhs_y_batch = length rhs_y_index →
  Forall (λ i, 0 ≤ i < Z.of_nat (length lhs_embedding)) lhs_idgnn_batch →
  NoDup (zip lhs_idgnn_batch rhs_idgnn_index) →
  ∃ full sampled rhs_index lhs_y_batch' rhs_y_index',
    forward R Radd dot mul_sum head lin_offset_idgnn lin_offset_embgnn
      lhs_projector rhs_embedding_row self lhs_embedding rhs_gnn_embedding
      rhs_idgnn_index lhs_idgnn_batch = Return full ∧
    (forward_sample_softmax is_cuda uninit R Radd dot mul_sum head
       lin_offset_idgnn lin_offset_embgnn lhs_projector rhs_embedding_row
       self g lhs_embedding rhs_gnn_embedding rhs_idgnn_index
       lhs_idgnn_batch (Some lhs_y_batch) (Some rhs_y_index)).1
    = Return (sampled, Some lhs_y_batch', rhs_y_index') ∧
    sampled_rhs_index self g rhs_idgnn_index (Some rhs_y_index)
    = Return rhs_index ∧
    length full = length lhs_embedding ∧
    Forall (λ row, length row = num_rhs_nodes self) full ∧
    length sampled = length lhs_embedding ∧
    Forall (λ row, Z.of_nat (length row) = k) sampled ∧
    ∀ b p id,
      (b < length lhs_embedding)%nat → rhs_index !! p = Some id →
      is_Some (cell sampled b p) ∧
      cell sampled b p = cell full b (Z.to_nat id).
Proof. apply sampled_vs_full. Qed.

(** X14.  The labels returned by [forward_sample_softmax] address their
    own scores.  On a well-formed batch whose positives name rows of the
    batch, entry [j] of the returned [(lhs_y_batch, rhs_y_index)] is a
    cell [(b, p)] of the sampled logits; [p] is the position of a
    candidate [id] with [(b, id)] one of the positive pairs passed in, and
    the cell holds the score that [forward] gives to [(b, id)]. *)
Theorem labels_address_scores
    (self : ContextGNN) (g : Generator) (k : Z)
    (lhs_embedding rhs_gnn_embedding : list (list R))
    (rhs_idgnn_index lhs_idgnn_batch lhs_y_batch rhs_y_index : list Z) :
  rhs_sample_size self = Some k →
  0 < k ≤ Z.of_nat (num_rhs_nodes self) →
  valid_ids (num_rhs_nodes self) rhs_idgnn_index →
  valid_ids (num_rhs_nodes self) rhs_y_index →
  rhs_idgnn_index ≠ [] →
  length lhs_idgnn_batch = length rhs_idgnn_index →
  length rhs_gnn_embedding = length rhs_idgnn_index →
  length lhs_y_batch = length rhs_y_index →
  Forall (λ i, 0 ≤ i < Z.of_nat (length lhs_embedding)) lhs_idgnn_batch →
  Forall (λ i, 0 ≤ i < Z.of_nat (length lhs_embedding)) lhs_y_batch →
  NoDup (zip lhs_idgnn_batch rhs_idgnn_index) →
  ∃ full sampled lhs_y_batch' rhs_y_index',
    forward R Radd dot mul_sum head lin_offset_idgnn lin_offset_embgnn
      lhs_projector rhs_embedding_row self lhs_embedding rhs_gnn_embedding
      rhs_idgnn_index lhs_idgnn_batch = Return full ∧
    (forward_sample_softmax is_cuda uninit R Radd dot mul_sum head
       lin_offset_idgnn lin_offset_embgnn lhs_projector rhs_embedding_row
       self g lhs_embedding rhs_gnn_embedding rhs_idgnn_index
       lhs_idgnn_batch (Some lhs_y_batch) (Some rhs_y_index)).1
    = Return (sampled, Some lhs_y_batch', rhs_y_index') ∧
    length lhs_y_batch' = length rhs_y_index' ∧
    ∀ j b p,
      lhs_y_batch' !! j = Some b → rhs_y_index' !! j = Some p →
      ∃ id,
        (b, id) ∈ zip lhs_y_batch rhs_y_index ∧
        is_Some (cell sampled (Z.to_nat b) (Z.to_nat p)) ∧
        cell sampled (Z.to_nat b) (Z.to_nat p)
        = cell full (Z.to_nat b) (Z.to_nat id).
Proof.
  intros Hsize Hk Hidgnn Hy Hne Hbatch Hemb Hybatch Hrows Hyrows Hnd.
  destruct (sampled_vs_full self g k lhs_embedding rhs_gnn_embedding
              rhs_idgnn_index lhs_idgnn_batch lhs_y_batch rhs_y_index)
    as (full & sampled & l & yb' & y' & Hfull & Hfwd & Hl & _ & _ & _ & _
        & Hcell); try done.
  exists full, sampled, yb', y'. split; [done|]. split; [done|].
  (* what the labels are *)
  destruct (sample_step_from_valid is_cuda uninit rhs_embedding_row self
              (torch_rand (num_rhs_nodes self) g).1 k rhs_idgnn_index
              lhs_idgnn_batch rhs_gnn_embedding lhs_y_batch rhs_y_index)
    as (l' & Hl' & Hstep); try done;
    [apply torch_rand_length | apply torch_rand_unit |].
  unfold sampled_rhs_index in Hl. rewrite Hl in Hl'. injection Hl' as <-.
  pose proof Hfwd as Hfwd'.
  rewrite (forward_sample_softmax_draw is_cuda uninit Radd dot mul_sum head
             lin_offset_idgnn lin_offset_embgnn lhs_projector
             rhs_embedding_row self) in Hfwd'.
  rewrite Hstep in Hfwd'. simpl in Hfwd'.
  destruct (construct_logits _ _ _ _ _ _ _ _ _ _ _ _ _) as [|lg];
    [done|]. simpl in Hfwd'. injection Hfwd' as _ <- <-.
  split; [by apply length_filter_mask_present|].
  intros j b p Hb Hp.
  assert ((b, p) ∈ zip (filter_mask lhs_y_batch (present l <$> rhs_y_index))
                     (omap (position_in l) rhs_y_index)) as Hin.
  { apply list_elem_of_lookup. exists j.
    apply lookup_zip_with_Some. by exists b, p. }
  rewrite filter_mask_aligned in Hin by done.
  apply list_elem_of_omap in Hin as ([b0 id] & Hin & Hpos). simpl in Hpos.
  destruct (position_in l id) as [p0|] eqn:Hp0; [|done].
  injection Hpos as -> ->.
  apply position_in_Some in Hp0 as [Hp0 Hlp].
  exists id. split; [done|].
  assert (0 ≤ b < Z.of_nat (length lhs_embedding)) as Hbr.
  { apply (proj1 (Forall_forall _ _) Hyrows).
    by eapply elem_of_zip_l. }
  apply (Hcell (Z.to_nat b) (Z.to_nat p) id); [lia | done].
Qed.
End SampledVsFull.

Lemma labels_address_scores_witness :
  ∃ full sampled lhs_y_batch' rhs_y_index',
    forward Z Z.add int_dot int_dot (λ _, 100) (λ _, 1000) (λ _, 10000) id
      (λ i, [i; 1]) example_model [[1; 1]; [2; 2]]
      [[1; 0]; [0; 1]; [1; 1]; [2; 2]] [2; 3; 4; 5] [0; 0; 1; 1]
    = Return full ∧
    (forward_sample_softmax false (λ _, 0) Z Z.add int_dot int_dot
       (λ _, 100) (λ _, 1000) (λ _, 10000) id (λ i, [i; 1]) example_model
       example_generator [[1; 1]; [2; 2]] [[1; 0]; [0; 1]; [1; 1]; [2; 2]]
       [2; 3; 4; 5] [0; 0; 1; 1] (Some [0; 1]) (Some [7; 3])).1
    = Return (sampled, Some lhs_y_batch', rhs_y_index') ∧
    length lhs_y_batch' = length rhs_y_index'.
Proof.
  destruct (labels_address_scores false (λ _, 0) (R := Z) Z.add int_dot
              int_dot (λ _, 100) (λ _, 1000) (λ _, 10000) id (λ i, [i; 1])
              example_model example_generator 4 [[1; 1]; [2; 2]]
              [[1; 0]; [0; 1]; [1; 1]; [2; 2]] [2; 3; 4; 5] [0; 0; 1; 1]
              [0; 1] [7; 3])
    as (full & sampled & yb' & y' & Hfull & Hrun & Hlen & _).
  - reflexivity.
  - simpl. lia.
  - repeat constructor; simpl; lia.
  - repeat constructor; simpl; lia.
  - discriminate.
  - reflexivity.
  - reflexivity.
  - reflexivity.
  - repeat constructor; simpl; lia.
  - repeat constructor; simpl; lia.
  - apply (bool_decide_unpack _). vm_compute. exact I.
  - by exists full, sampled, yb', y'.
Defined.

Lemma sampled_logits_are_full_columns_witness :
  ∃ full sampled rhs_index,
    forward Z Z.add int_dot int_dot (λ _, 100) (λ _, 1000) (λ _, 10000) id
      (λ i, [i; 1]) example_model [[1; 1]; [2; 2]]
      [[1; 0]; [0; 1]; [1; 1]; [2; 2]] [2; 3; 4; 5] [0; 0; 1; 1]
    = Return full ∧
    sampled_rhs_index example_model example_generator [2; 3; 4; 5]
      (Some [7; 3]) = Return rhs_index ∧
    length sampled = 2%nat ∧
    ∀ b p id, (b < 2)%nat → rhs_index !! p = Some id →
      cell sampled b p = cell full b (Z.to_nat id).
Proof.
  destruct (sampled_logits_are_full_columns false (λ _, 0) (R := Z) Z.add
              int_dot int_dot (λ _, 100) (λ _, 1000) (λ _, 10000) id
              (λ i, [i; 1]) example_model example_generator 4
              [[1; 1]; [2; 2]] [[1; 0]; [0; 1]; [1; 1]; [2; 2]]
              [2; 3; 4; 5] [0; 0; 1; 1] [0; 1] [7; 3])
    as (full & sampled & l & yb' & y' & Hfull & _ & Hl & _ & _ & Hlen & _
        & Hcell).
  - reflexivity.
  - simpl. lia.
  - repeat constructor; simpl; lia.
  - repeat constructor; simpl; lia.
  - discriminate.
  - reflexivity.
  - reflexivity.
  - reflexivity.
  - repeat constructor; simpl; lia.
  - apply (bool_decide_unpack _). vm_compute. exact I.
  - exists full, sampled, l. split_and!; [done..|].
    intros b p id Hb Hp. by apply Hcell.
Defined.

(** ** When [sample_step] cannot run *)

Section Budget.
Context (is_cuda : bool) (uninit : nat → Z) {R : Type}.
Context (rhs_embedding_row : Z → list R).
Context (self : ContextGNN) (rnd : list Q).
Context (rhs_idgnn_index lhs_idgnn_batch : list Z).
Context (rhs_gnn_embedding : list (list R)).
Context (lhs_y_batch : option (list Z)) (rhs_y_index : list Z).

Hypothesis Hidgnn : Forall (in_range (length rnd)) rhs_idgnn_index.
Hypothesis Hy : Forall (in_range (length rnd)) rhs_y_index.

Lemma sample_step_from_no_budget :
  rhs_sample_size self = None →
  sample_step_from is_cuda uninit R rhs_embedding_row self rnd
    rhs_idgnn_index lhs_idgnn_batch rhs_gnn_embedding lhs_y_batch
    (Some rhs_y_index) = Raise TypeError.
Proof.
  intros Hsize. unfold sample_step_from.
  destruct (index_fill_ok rnd rhs_idgnn_index (3 : Q) Hidgnn) as [r1 Hr1].
  rewrite Hr1. simpl.
  destruct (index_fill_ok r1 rhs_y_index (4 : Q)) as [r2 Hr2].
  { apply index_fill_Return in Hr1 as [-> _]. exact Hy. }
  rewrite Hr2. simpl. by rewrite Hsize.
Qed.

Lemma sample_step_from_bad_budget k :
  rhs_sample_size self = Some k →
  k < 0 ∨ Z.of_nat (length rnd) < k →
  sample_step_from is_cuda uninit R rhs_embedding_row self rnd
    rhs_idgnn_index lhs_idgnn_batch rhs_gnn_embedding lhs_y_batch
    (Some rhs_y_index) = Raise RuntimeError.
Proof.
  intros Hsize Hk. unfold sample_step_from.
  destruct (index_fill_ok rnd rhs_idgnn_index (3 : Q) Hidgnn) as [r1 Hr1].
  rewrite Hr1. simpl.
  destruct (index_fill_ok r1 rhs_y_index (4 : Q)) as [r2 Hr2].
  { apply index_fill_Return in Hr1 as [-> _]. exact Hy. }
  rewrite Hr2. simpl. rewrite Hsize. simpl.
  apply index_fill_Return in Hr1 as [Hl1 _].
  apply index_fill_Return in Hr2 as [Hl2 _].
  unfold topk.
  rewrite (bool_decide_eq_false_2 (0 ≤ k ≤ Z.of_nat (length r2)))
    by (rewrite Hl2, Hl1; lia).
  done.
Qed.
End Budget.

(** X2.  The budget [rhs_sample_size] is read at [topk] only.  With ids
    that are valid tensor indices, a model built without a budget (the
    default [rhs_sample_size=None]) fails with a [TypeError], and a budget
    that is negative or larger than the catalog fails with a
    [RuntimeError], in [sample_step] and in [forward_sample_softmax]; by
    then [torch.rand] has consumed its draws. *)
Theorem budget_errors (is_cuda : bool) (uninit : nat → Z) {R : Type}
    (Radd : R → R → R) (dot mul_sum : list R → list R → R)
    (head lin_offset_idgnn lin_offset_embgnn : list R → R)
    (lhs_projector : list R → list R) (rhs_embedding_row : Z → list R)
    (self : ContextGNN) (g : Generator)
    (lhs_embedding rhs_gnn_embedding : list (list R))
    (rhs_idgnn_index lhs_idgnn_batch rhs_y_index : list Z)
    (lhs_y_batch : option (list Z)) :
  Forall (in_range (num_rhs_nodes self)) rhs_idgnn_index →
  Forall (in_range (num_rhs_nodes self)) rhs_y_index →
  let step := sample_step is_cuda uninit R rhs_embedding_row self g
                rhs_idgnn_index lhs_idgnn_batch rhs_gnn_embedding
                lhs_y_batch (Some rhs_y_index) in
  let fwd := forward_sample_softmax is_cuda uninit R Radd dot mul_sum head
               lin_offset_idgnn lin_offset_embgnn lhs_projector
               rhs_embedding_row self g lhs_embedding rhs_gnn_embedding
               rhs_idgnn_index lhs_idgnn_batch lhs_y_batch
               (Some rhs_y_index) in
  (rhs_sample_size self = None →
   step.1 = Raise TypeError ∧ fwd.1 = Raise TypeError) ∧
  (∀ k, rhs_sample_size self = Some k →
        k < 0 ∨ Z.of_nat (num_rhs_nodes self) < k →
        step.1 = Raise RuntimeError ∧ fwd.1 = Raise RuntimeError) ∧
  gen_pos step.2 = (gen_pos g + num_rhs_nodes self)%nat ∧
  gen_pos fwd.2 = (gen_pos g + num_rhs_nodes self)%nat.
Proof.
  intros Hidgnn Hy step fwd. subst step fwd.
  rewrite (forward_sample_softmax_draw is_cuda uninit Radd dot mul_sum head
             lin_offset_idgnn lin_offset_embgnn lhs_projector
             rhs_embedding_row self).
  rewrite (sample_step_draw is_cuda uninit rhs_embedding_row self).
  pose proof (torch_rand_length (num_rhs_nodes self) g) as Hlen.
  rewrite <- Hlen in Hidgnn, Hy at 1.
  split_and!.
  - intros Hsize.
    rewrite (sample_step_from_no_budget is_cuda uninit rhs_embedding_row
               self _ _ _ _ _ _ Hidgnn Hy Hsize). done.
  - intros k Hsize Hk.
    rewrite (sample_step_from_bad_budget is_cuda uninit rhs_embedding_row
               self _ _ _ _ _ _ Hidgnn Hy k Hsize); [done|].
    rewrite Hlen. done.
  - done.
  - done.
Qed.

Lemma budget_errors_witness :
  (forward_sample_softmax false (λ _, 0) Z Z.add int_dot int_dot (λ _, 100)
     (λ _, 1000) (λ _, 10000) id (λ i, [i; 1])
     {| num_rhs_nodes := 10; rhs_sample_size := None |} example_generator
     [[1; 1]; [2; 2]] [[1; 0]; [0; 1]] [2; 3] [0; 1] (Some [0])
     (Some [7])).1 = Raise TypeError.
Proof.
  destruct (budget_errors false (λ _, 0) (R := Z) Z.add int_dot int_dot
              (λ _, 100) (λ _, 1000) (λ _, 10000) id (λ i, [i; 1])
              {| num_rhs_nodes := 10; rhs_sample_size := None |}
              example_generator [[1; 1]; [2; 2]] [[1; 0]; [0; 1]] [2; 3]
              [0; 1] [7] (Some [0]))
    as (Hnone & _).
  - repeat constructor; simpl; lia.
  - repeat constructor; simpl; lia.
  - by apply Hnone.
Defined.

Section Degenerate.
Context (is_cuda : bool) (uninit : nat → Z) {R : Type}.
Context (rhs_embedding_row : Z → list R).
Context (self : ContextGNN) (rnd : list Q) (k : Z).
Context (rhs_idgnn_index lhs_idgnn_batch : list Z).
Context (rhs_gnn_embedding : list (list R)).
Context (lhs_y_batch rhs_y_index : list Z).

Hypothesis Hsize : rhs_sample_size self = Some k.
Hypothesis Hk : 0 ≤ k ≤ Z.of_nat (num_rhs_nodes self).
Hypothesis Hrnd : length rnd = num_rhs_nodes self.
Hypothesis Hunit : unit_draws rnd.
Hypothesis Hidgnn : valid_ids (num_rhs_nodes self) rhs_idgnn_index.
Hypothesis Hy : valid_ids (num_rhs_nodes self) rhs_y_index.
Hypothesis Hybatch : length lhs_y_batch = length rhs_y_index.

(** The second [map_index] call is made without [max_index]: it takes the
    maximum of both of its tensors, and an empty tensor has none. *)
Lemma sample_step_from_degenerate :
  rhs_idgnn_index = [] ∨ k = 0 →
  sample_step_from is_cuda uninit R rhs_embedding_row self rnd
    rhs_idgnn_index lhs_idgnn_batch rhs_gnn_embedding
    (Some lhs_y_batch) (Some rhs_y_index) = Raise RuntimeError.
Proof.
  intros Hdeg.
  destruct (candidate_sampler_ok self rnd rhs_idgnn_index rhs_y_index k)
    as [l Hl]; [done | lia | rewrite Hrnd; by apply valid_ids_in_range..|].
  destruct (sampler_shape _ _ _ _ _ _ Hl Hsize)
    as (_ & Hlen & Hnd & Hrange).
  rewrite Hrnd in Hrange.
  pose proof (sampler_required _ _ _ _ _ _ Hl Hsize Hunit) as Hreq.
  rewrite Hrnd in Hreq.
  rewrite (wrap_ids_nonneg _ _ Hy) in Hreq.
  unfold candidate_sampler, priority_array in Hl.
  unfold sample_step_from.
  destruct (index_fill rnd rhs_idgnn_index (3 : Q)) as [|r1]; [done|].
  simpl in Hl |- *.
  destruct (index_fill r1 rhs_y_index (4 : Q)) as [|pr]; [done|].
  simpl in Hl |- *. rewrite Hsize in Hl |- *. simpl in Hl |- *.
  rewrite Hl. simpl.
  assert (Hl_le : Forall (λ i, 0 ≤ i ≤ Z.of_nat (num_rhs_nodes self)) l).
  { apply Forall_forall. intros i Hi. apply Hrange in Hi. lia. }
  assert (Hy_le :
    Forall (λ i, 0 ≤ i ≤ Z.of_nat (num_rhs_nodes self)) rhs_y_index).
  { eapply Forall_impl; [exact Hy|]. simpl. lia. }
  assert (Hfirst :
    ∃ mask yb,
      map_index is_cuda uninit rhs_y_index l
        (Some (Z.of_nat (num_rhs_nodes self)))
        (bool_decide (Z.of_nat (length rhs_y_index) ≤ k))
      = Return (omap (position_in l) rhs_y_index, mask) ∧
      (if bool_decide (Z.of_nat (length rhs_y_index) ≤ k)
       then Return (Some lhs_y_batch)
       else match mask with
            | Some mask => Some <$> bool_index lhs_y_batch mask
            | None => Raise TypeError
            end)
      = Return yb).
  { case_bool_decide as Hincl.
    - assert (Forall (λ s, s ∈ l) rhs_y_index) as Hall.
      { apply Forall_forall, Hreq.
        pose proof (length_remove_dups_le rhs_y_index). lia. }
      exists None, (Some lhs_y_batch). split; [|done].
      apply map_index_inclusive; [lia | done..].
    - exists (Some (present l <$> rhs_y_index)). eexists. split.
      + apply map_index_masked; [lia | done..].
      + unfold bool_index.
        rewrite bool_decide_eq_true_2 by (by rewrite length_fmap). done. }
  destruct Hfirst as (mask1 & yb & -> & Hyb). simpl. rewrite Hyb. simpl.
  unfold map_index. simpl.
  destruct Hdeg as [-> | ->]; [done|].
  assert (l = []) as -> by (by destruct l).
  by destruct rhs_idgnn_index.
Qed.
End Degenerate.

(** X3.  [sample_step] needs at least one sampled right-hand node and a
    positive budget: its second [map_index] call omits [max_index], and
    [map_index] then takes [src.max()] and [index.max()].  On a batch whose
    [rhs_idgnn_index] is empty, or with [rhs_sample_size = 0], valid
    positives notwithstanding, [sample_step] and [forward_sample_softmax]
    raise a [RuntimeError]. *)
Theorem degenerate_batch_raises (is_cuda : bool) (uninit : nat → Z)
    {R : Type} (Radd : R → R → R) (dot mul_sum : list R → list R → R)
    (head lin_offset_idgnn lin_offset_embgnn : list R → R)
    (lhs_projector : list R → list R) (rhs_embedding_row : Z → list R)
    (self : ContextGNN) (g : Generator) (k : Z)
    (lhs_embedding rhs_gnn_embedding : list (list R))
    (rhs_idgnn_index lhs_idgnn_batch lhs_y_batch rhs_y_index : list Z) :
  rhs_sample_size self = Some k →
  0 ≤ k ≤ Z.of_nat (num_rhs_nodes self) →
  valid_ids (num_rhs_nodes self) rhs_idgnn_index →
  valid_ids (num_rhs_nodes self) rhs_y_index →
  length lhs_y_batch = length rhs_y_index →
  rhs_idgnn_index = [] ∨ k = 0 →
  (sample_step is_cuda uninit R rhs_embedding_row self g rhs_idgnn_index
     lhs_idgnn_batch rhs_gnn_embedding (Some lhs_y_batch)
     (Some rhs_y_index)).1 = Raise RuntimeError ∧
  (forward_sample_softmax is_cuda uninit R Radd dot mul_sum head
     lin_offset_idgnn lin_offset_embgnn lhs_projector rhs_embedding_row
     self g lhs_embedding rhs_gnn_embedding rhs_idgnn_index lhs_idgnn_batch
     (Some lhs_y_batch) (Some rhs_y_index)).1 = Raise RuntimeError.
Proof.
  intros Hsize Hk Hidgnn Hy Hyb Hdeg.
  rewrite (forward_sample_softmax_draw is_cuda uninit Radd dot mul_sum head
             lin_offset_idgnn lin_offset_embgnn lhs_projector
             rhs_embedding_row self).
  rewrite (sample_step_draw is_cuda uninit rhs_embedding_row self).
  rewrite (sample_step_from_degenerate is_cuda uninit rhs_embedding_row self
             _ k); try done;
    [apply torch_rand_length | apply torch_rand_unit].
Qed.

Lemma degenerate_batch_raises_witness :
  (forward_sample_softmax false (λ _, 0) Z Z.add int_dot int_dot (λ _, 100)
     (λ _, 1000) (λ _, 10000) id (λ i, [i; 1]) example_model
     example_generator [[1; 1]; [2; 2]] [] [] [] (Some [0; 1])
     (Some [7; 3])).1 = Raise RuntimeError.
Proof.
  apply (degenerate_batch_raises false (λ _, 0) (R := Z) Z.add int_dot
           int_dot (λ _, 100) (λ _, 1000) (λ _, 10000) id (λ i, [i; 1])
           example_model example_generator 4 [[1; 1]; [2; 2]] [] [] []
           [0; 1] [7; 3]).
  - reflexivity.
  - simpl. lia.
  - constructor.
  - repeat constructor; simpl; lia.
  - reflexivity.
  - by left.
Defined.

(** ** [src_batch] left at its default *)

Section NoSourceBatch.
Context (is_cuda : bool) (uninit : nat → Z) {R : Type}.
Context (rhs_embedding_row : Z → list R).
Context (self : ContextGNN) (rnd : list Q) (k : Z).
Context (rhs_idgnn_index lhs_idgnn_batch : list Z).
Context (rhs_gnn_embedding : list (list R)).
Context (lhs_y_batch rhs_y_index : list Z).
Hypothesis Hsize : rhs_sample_size self = Some k.

Local Abbreviation run yb :=
  (sample_step_from is_cuda uninit R rhs_embedding_row self rnd
     rhs_idgnn_index lhs_idgnn_batch rhs_gnn_embedding yb
     (Some rhs_y_index)).

Lemma sample_step_from_None_fits :
  Z.of_nat (length rhs_y_index) ≤ k →
  run None
  = (λ '(i, e, b, g, _, y), (i, e, b, g, None, y)) <$> run (Some lhs_y_batch).
Proof.
  intros Hfits. unfold sample_step_from.
  destruct (index_fill rnd rhs_idgnn_index (3 : Q)) as [|r1]; [done|].
  simpl. destruct (index_fill r1 rhs_y_index (4 : Q)) as [|r2]; [done|].
  simpl. rewrite Hsize. simpl. destruct (topk k r2) as [|l]; [done|].
  simpl. rewrite (bool_decide_eq_true_2 _ Hfits).
  destruct (map_index _ _ rhs_y_index _ _ _) as [|[y' mask1]]; [done|].
  simpl. destruct (map_index _ _ rhs_idgnn_index _ _ _) as [|[i' mask2]];
    [done|].
  simpl. case_bool_decide; [done|].
  destruct mask2 as [mask2|]; [|done].
  destruct (bool_index lhs_idgnn_batch mask2) as [|b']; [done|].
  simpl. by destruct (bool_index rhs_gnn_embedding mask2).
Qed.

Lemma sample_step_from_None_overflow r :
  k < Z.of_nat (length rhs_y_index) →
  run (Some lhs_y_batch) = Return r →
  run None = Raise TypeError.
Proof.
  intros Hover. unfold sample_step_from.
  destruct (index_fill rnd rhs_idgnn_index (3 : Q)) as [|r1]; [done|].
  simpl. destruct (index_fill r1 rhs_y_index (4 : Q)) as [|r2]; [done|].
  simpl. rewrite Hsize. simpl. destruct (topk k r2) as [|l]; [done|].
  simpl. rewrite (bool_decide_eq_false_2 (Z.of_nat (length rhs_y_index) ≤ k))
    by lia.
  by destruct (map_index _ _ rhs_y_index _ _ _) as [|[y' mask1]].
Qed.
End NoSourceBatch.

(** X4.  [forward_sample_softmax] declares [src_batch=None] as a default.
    On a well-formed batch the default is harmless exactly when the
    positives fit the budget: the call then returns the same logits and
    the same remapped positives as with a [src_batch], and [None] in its
    place.  With more positives than [rhs_sample_size], the filter
    [lhs_y_batch[mask]] is applied to [None] and the call raises a
    [TypeError]. *)
Theorem src_batch_default (is_cuda : bool) (uninit : nat → Z) {R : Type}
    (Radd : R → R → R) (dot mul_sum : list R → list R → R)
    (head lin_offset_idgnn lin_offset_embgnn : list R → R)
    (lhs_projector : list R → list R) (rhs_embedding_row : Z → list R)
    (self : ContextGNN) (g : Generator) (k : Z)
    (lhs_embedding rhs_gnn_embedding : list (list R))
    (rhs_idgnn_index lhs_idgnn_batch lhs_y_batch rhs_y_index : list Z) :
  rhs_sample_size self = Some k →
  0 < k ≤ Z.of_nat (num_rhs_nodes self) →
  valid_ids (num_rhs_nodes self) rhs_idgnn_index →
  valid_ids (num_rhs_nodes self) rhs_y_index →
  rhs_idgnn_index ≠ [] →
  length lhs_idgnn_batch = length rhs_idgnn_index →
  length rhs_gnn_embedding = length rhs_idgnn_index →
  length lhs_y_batch = length rhs_y_index →
  Forall (λ i, 0 ≤ i < Z.of_nat (length lhs_embedding)) lhs_idgnn_batch →
  let fwd src_batch :=
    (forward_sample_softmax is_cuda uninit R Radd dot mul_sum head
       lin_offset_idgnn lin_offset_embgnn lhs_projector rhs_embedding_row
       self g lhs_embedding rhs_gnn_embedding rhs_idgnn_index
       lhs_idgnn_batch src_batch (Some rhs_y_index)).1 in
  ∃ logits lhs_y_batch' rhs_y_index',
    fwd (Some lhs_y_batch) = Return (logits, Some lhs_y_batch', rhs_y_index') ∧
    (Z.of_nat (length rhs_y_index) ≤ k →
     fwd None = Return (logits, None, rhs_y_index')) ∧
    (k < Z.of_nat (length rhs_y_index) → fwd None = Raise TypeError).
Proof.
  intros Hsize Hk Hidgnn Hy Hne Hbatch Hemb Hybatch Hrows fwd.
  destruct (forward_sample_softmax_shape is_cuda uninit Radd dot mul_sum head
              lin_offset_idgnn lin_offset_embgnn lhs_projector
              rhs_embedding_row self g k lhs_embedding rhs_gnn_embedding
              rhs_idgnn_index lhs_idgnn_batch lhs_y_batch rhs_y_index)
    as (logits & yb' & y' & Hrun & _); try done.
  exists logits, yb', y'. split; [exact Hrun|].
  subst fwd. cbv beta in Hrun |- *.
  rewrite forward_sample_softmax_draw in Hrun.
  rewrite !forward_sample_softmax_draw.
  split.
  - intros Hfits.
    rewrite (sample_step_from_None_fits is_cuda uninit rhs_embedding_row
               self _ k _ _ _ lhs_y_batch _ Hsize Hfits).
    destruct (sample_step_from _ _ _ _ _ _ _ _ _ (Some lhs_y_batch) _)
      as [|[[[[[i' e'] b'] g'] yb0] y0]]; [done|].
    simpl in Hrun |- *.
    destruct (construct_logits _ _ _ _ _ _ _ _ _ _ _ _ _) as [|lg]; [done|].
    simpl in Hrun |- *. by injection Hrun as -> _ ->.
  - intros Hover.
    destruct (sample_step_from _ _ _ _ _ _ _ _ _ (Some lhs_y_batch) _)
      as [|r] eqn:Hstep; [done|].
    by rewrite (sample_step_from_None_overflow is_cuda uninit
                  rhs_embedding_row self _ k _ _ _ lhs_y_batch _ Hsize r
                  Hover Hstep).
Qed.

Lemma src_batch_default_witness :
  ∃ logits rhs_y_index',
    (forward_sample_softmax false (λ _, 0) Z Z.add int_dot int_dot
       (λ _, 100) (λ _, 1000) (λ _, 10000) id (λ i, [i; 1]) example_model
       example_generator [[1; 1]; [2; 2]] [[1; 0]; [0; 1]; [1; 1]; [2; 2]]
       [2; 3; 4; 5] [0; 0; 1; 1] None (Some [7; 3])).1
    = Return (logits, None, rhs_y_index').
Proof.
  destruct (src_batch_default false (λ _, 0) (R := Z) Z.add int_dot int_dot
              (λ _, 100) (λ _, 1000) (λ _, 10000) id (λ i, [i; 1])
              example_model example_generator 4 [[1; 1]; [2; 2]]
              [[1; 0]; [0; 1]; [1; 1]; [2; 2]] [2; 3; 4; 5] [0; 0; 1; 1]
              [0; 1] [7; 3])
    as (logits & yb' & y' & _ & Hfits & _).
  - reflexivity.
  - simpl. lia.
  - repeat constructor; simpl; lia.
  - repeat constructor; simpl; lia.
  - discriminate.
  - reflexivity.
  - reflexivity.
  - reflexivity.
  - repeat constructor; simpl; lia.
  - exists logits, y'. apply Hfits. simpl. lia.
Defined.

(** ** Row ids that [get_rhs_index] is not meant for *)

Lemma getitem_out {A} (t : list A) i :
  ¬ in_range (length t) i → getitem t i = Raise IndexError.
Proof.
  intros Hout. unfold getitem.
  destruct (norm_index (length t) i) as [e|p] eqn:Hp.
  - by apply norm_index_Raise in Hp as [-> _].
  - by apply norm_index_Return in Hp as [? _].
Qed.

Lemma getitem_IndexError {A} (t : list A) i e :
  getitem t i = Raise e → e = IndexError.
Proof.
  unfold getitem. destruct (norm_index (length t) i) as [e'|p] eqn:Hp; simpl.
  - apply norm_index_Raise in Hp as [-> _]. congruence.
  - destruct (t !! p); congruence.
Qed.

Lemma index_select_IndexError {A} (t : list A) idx e :
  index_select t idx = Raise e → e = IndexError.
Proof.
  induction idx as [|i idx IH]; [done|]. simpl.
  destruct (getitem t i) as [e'|x] eqn:Hi; simpl.
  - intros [= <-]. by eapply getitem_IndexError.
  - destruct (index_select t idx) as [e'|xs]; simpl; [|done].
    intros [= <-]. by apply IH.
Qed.

Lemma index_select_out {A} (t : list A) idx :
  Exists (λ i, ¬ in_range (length t) i) idx →
  index_select t idx = Raise IndexError.
Proof.
  induction 1 as [i idx Hi|i idx _ IH]; simpl.
  - by rewrite getitem_out.
  - destruct (getitem t i) as [e|x] eqn:Hx; simpl.
    + by apply getitem_IndexError in Hx as ->.
    + by rewrite IH.
Qed.

Lemma getitem_wrap {A} (t : list A) i :
  in_range (length t) i → getitem t i = getitem t (i mod Z.of_nat (length t)).
Proof.
  intros Hi. unfold getitem.
  assert (Hm : 0 ≤ i mod Z.of_nat (length t) < Z.of_nat (length t)).
  { apply Z.mod_pos_bound. unfold in_range in Hi. lia. }
  rewrite (norm_index_nonneg _ (i mod _)) by done.
  destruct (norm_index (length t) i) as [e|p] eqn:Hp.
  - apply norm_index_Raise in Hp as [_ Hp]. done.
  - apply norm_index_Return in Hp as [_ Hp]. simpl.
    by rewrite <- Hp, Nat2Z.id.
Qed.

Lemma index_select_fmap_ext {A B} (t : list A) (f g : B → Z) src :
  Forall (λ r, getitem t (f r) = getitem t (g r)) src →
  index_select t (f <$> src) = index_select t (g <$> src).
Proof.
  induction 1 as [|r src Hr _ IH]; [done|].
  rewrite !fmap_cons. simpl. by rewrite Hr, IH.
Qed.

(** X15.  Row ids outside [[0, N)] in [get_rhs_index], [N + 1] being the
    length of [rowptr].  A row id [>= N] or [< -(N + 1)] raises an
    [IndexError] at [rowptr[src_index + 1]] or [rowptr[src_index]].  A
    negative row id down to [-(N + 1)], other than [-1], raises nothing: as
    tensor indexing counts from the end, the call returns what it returns
    with each such [r] replaced by [r + N + 1], so that [-2] stands for the
    last source. *)
Theorem get_rhs_index_row_ids (src_index rowptr col : list Z) :
  Z.of_nat (length rowptr) < 2 ^ 63 →
  Forall (λ r, - 2 ^ 63 ≤ r < 2 ^ 63) src_index →
  let n := Z.of_nat (length rowptr) in
  (Exists (λ r, r < - n ∨ n - 1 ≤ r) src_index →
   get_rhs_index src_index rowptr col = Raise IndexError) ∧
  (Forall (λ r, - n ≤ r < n - 1 ∧ r ≠ -1) src_index →
   get_rhs_index src_index rowptr col
   = get_rhs_index ((λ r, r mod n) <$> src_index) rowptr col ∧
   Forall (λ r, 0 ≤ r < n - 1) ((λ r, r mod n) <$> src_index)).
Proof.
  intros Hlen H64 n. split.
  - intros Hbad. unfold get_rhs_index.
    destruct (index_select rowptr ((λ r, add64 r 1) <$> src_index))
      as [e|hi] eqn:Hhi; simpl.
    { by apply index_select_IndexError in Hhi as ->. }
    rewrite index_select_out; [done|].
    apply Exists_exists in Hbad as (r & Hr & Hbad).
    apply Exists_exists. exists r. split; [done|].
    unfold in_range. fold n. intros Hin.
    destruct Hbad as [Hbad|Hbad]; [lia|].
    (* then [r + 1] is out of range, and [hi] cannot have been read *)
    assert (index_select rowptr ((λ r, add64 r 1) <$> src_index)
            = Raise IndexError) as Hcontra; [|congruence].
    apply index_select_out, Exists_exists. exists (add64 r 1).
    split; [by apply (list_elem_of_fmap_2 (λ r, add64 r 1))|].
    unfold in_range. fold n.
    pose proof (proj1 (Forall_forall _ _) H64 r Hr) as Hr64. simpl in Hr64.
    unfold add64. destruct (decide (r + 1 < 2 ^ 63)) as [Hsmall|Hbig].
    + rewrite wrap64_small by lia. lia.
    + assert (r = 2 ^ 63 - 1) as -> by lia. unfold wrap64.
      replace (2 ^ 63 - 1 + 1 + 2 ^ 63) with (1 * 2 ^ 64) by lia.
      rewrite Z.mod_mul by lia. lia.
  - intros Hok. split.
    + unfold get_rhs_index.
      rewrite <- (list_fmap_compose (λ r, r mod n) (λ r, add64 r 1)).
      rewrite (index_select_fmap_ext rowptr (λ r, add64 r 1)
                 ((λ r, add64 r 1) ∘ (λ r, r mod n)) src_index).
      2:{ eapply Forall_impl; [exact Hok|]. intros r [Hr Hne]. simpl.
          unfold add64. rewrite !wrap64_small.
          - rewrite getitem_wrap by (unfold in_range; fold n; lia).
            f_equal. fold n.
            destruct (decide (0 ≤ r)) as [Hpos|Hneg].
            + rewrite !Z.mod_small by lia. done.
            + rewrite <- (Z.mod_add (r + 1) 1 n) by lia.
              rewrite <- (Z.mod_add r 1 n) by lia.
              rewrite !Z.mod_small by lia. lia.
          - pose proof (Z.mod_pos_bound r n). lia.
          - lia. }
      assert (index_select rowptr ((λ r, r mod n) <$> src_index)
              = index_select rowptr src_index) as ->; [|done].
      rewrite <- (list_fmap_id src_index) at 2.
      symmetry. apply index_select_fmap_ext.
      eapply Forall_impl; [exact Hok|]. intros r [Hr Hne]. simpl.
      apply getitem_wrap. unfold in_range. fold n. lia.
    + apply Forall_fmap. eapply Forall_impl; [exact Hok|].
      intros r [Hr Hne]. simpl.
      destruct (decide (0 ≤ r)) as [Hpos|Hneg].
      * rewrite Z.mod_small by lia. lia.
      * rewrite <- (Z.mod_add r 1 n) by lia.
        rewrite Z.mod_small by lia. lia.
Qed.

Lemma get_rhs_index_row_ids_witness :
  get_rhs_index [-2] [0; 2; 2; 5] [10; 11; 20; 21; 22]
  = get_rhs_index [2] [0; 2; 2; 5] [10; 11; 20; 21; 22].
Proof.
  destruct (get_rhs_index_row_ids [-2] [0; 2; 2; 5] [10; 11; 20; 21; 22])
    as [_ Hneg].
  - simpl. lia.
  - repeat constructor; simpl; lia.
  - destruct Hneg as [Heq _]; [|exact Heq].
    repeat constructor; simpl; lia.
Defined.

(** * The benchmark script: adjacency, batches, evaluation *)

(** ** [coalesce] *)

Lemma foldr_max_ge (x : Z) (t : list Z) :
  x ≤ foldr Z.max x t ∧ Forall (λ y, y ≤ foldr Z.max x t) t.
Proof.
  induction t as [|y t [IH1 IH2]]; simpl; [by split|].
  split; [lia|]. constructor; [lia|].
  eapply Forall_impl; [exact IH2|]. simpl. lia.
Qed.

Lemma maybe_num_nodes_bound (edges : list (Z * Z)) (e : Z * Z) :
  e ∈ edges → e.1 < maybe_num_nodes edges ∧ e.2 < maybe_num_nodes edges.
Proof.
  intros He. unfold maybe_num_nodes.
  assert (e.1 ∈ edges.*1 ++ edges.*2) as H1.
  { apply elem_of_app. left. by apply list_elem_of_fmap_2. }
  assert (e.2 ∈ edges.*1 ++ edges.*2) as H2.
  { apply elem_of_app. right. by apply list_elem_of_fmap_2. }
  destruct (edges.*1 ++ edges.*2) as [|x t]; [by apply elem_of_nil in H1|].
  destruct (foldr_max_ge x t) as [Hx Ht].
  rewrite Forall_forall in Ht.
  apply elem_of_cons in H1 as [-> | H1%Ht];
    apply elem_of_cons in H2 as [-> | H2%Ht]; lia.
Qed.

Lemma maybe_num_nodes_nonneg (edges : list (Z * Z)) :
  valid_edges edges → 0 ≤ maybe_num_nodes edges.
Proof.
  intros Hv. destruct edges as [|e edges]; [done|].
  apply Forall_cons in Hv as [[He _] _].
  pose proof (maybe_num_nodes_bound (e :: edges) e) as [H1 _]; [left|]. lia.
Qed.

Section EdgeKeys.
Context (n : Z).
Hypothesis Hn : n * n ≤ MAX_INT64.

Lemma edge_key_small e : in_square n e → edge_key n e = e.1 * n + e.2.
Proof.
  intros [H1 H2]. unfold edge_key, add64, mul64, MAX_INT64 in *.
  assert (0 ≤ e.1 * n ≤ (n - 1) * n) by nia.
  rewrite (wrap64_small (e.1 * n)) by nia.
  apply wrap64_small. nia.
Qed.

Lemma edge_key_nonneg e : in_square n e → 0 ≤ edge_key n e.
Proof. intros He. rewrite edge_key_small by done. destruct He. nia. Qed.

Lemma edge_key_lt a b :
  in_square n a → in_square n b →
  edge_key n a < edge_key n b ↔ lex_lt a b.
Proof.
  intros Ha Hb. rewrite !edge_key_small by done.
  destruct Ha, Hb. unfold lex_lt. nia.
Qed.

Lemma edge_key_inj a b :
  in_square n a → in_square n b → edge_key n a = edge_key n b → a = b.
Proof.
  intros Ha Hb. rewrite !edge_key_small by done.
  destruct Ha, Hb, a as [a1 a2], b as [b1 b2]. simpl in *. intros Heq.
  assert (a1 = b1) by nia. f_equal; [done | nia].
Qed.
End EdgeKeys.

Lemma kept_cons n p x l :
  kept n p (x :: l)
  = if bool_decide (edge_key n x > p) then x :: kept n (edge_key n x) l
    else kept n (edge_key n x) l.
Proof. done. Qed.

Lemma filter_mask_forallb {A} (l : list A) (mask : list bool) :
  forallb id mask = true → length mask = length l → filter_mask l mask = l.
Proof.
  revert mask. induction l as [|x l IH]; intros [|b mask]; try done.
  simpl. intros [-> Hm]%andb_true_iff [= Hlen]. f_equal. by apply IH.
Qed.

Lemma StronglySorted_impl_elem {A} (R1 R2 : relation A) (l : list A) :
  (∀ a b, a ∈ l → b ∈ l → R1 a b → R2 a b) →
  StronglySorted R1 l → StronglySorted R2 l.
Proof.
  induction l as [|x l IH]; intros HR Hs; [constructor|].
  apply StronglySorted_inv in Hs as [Hs Hx]. constructor.
  - apply IH; [|done]. intros a b Ha Hb. apply HR; by right.
  - apply Forall_forall. intros y Hy. apply HR; [left | by right|].
    by apply (proj1 (Forall_forall _ _) Hx).
Qed.

Lemma StronglySorted_NoDup {A} (R : relation A) `{!Irreflexive R}
    (l : list A) : StronglySorted R l → NoDup l.
Proof.
  induction 1 as [|x l _ IH Hx]; constructor; [|done].
  intros Hin. apply (proj1 (Forall_forall _ _) Hx) in Hin.
  by apply (irreflexivity R x).
Qed.

Section Dedupe.
Context (n : Z).
Hypothesis Hn : n * n ≤ MAX_INT64.

(** Among sorted edges, the mask keeps one copy of each edge whose key
    exceeds [p], in strictly increasing key order. *)
Lemma kept_sorted l p :
  Forall (in_square n) l →
  StronglySorted (key_le n) l →
  Forall (λ e, p ≤ edge_key n e) l →
  (∀ e, e ∈ kept n p l ↔ e ∈ l ∧ p < edge_key n e) ∧
  StronglySorted (λ a b, edge_key n a < edge_key n b) (kept n p l) ∧
  Forall (λ e, p < edge_key n e) (kept n p l).
Proof.
  revert p. induction l as [|x l IH]; intros p Hsq Hs Hp.
  - split_and!; [|constructor..]. intros e. split; [|by intros [? _]].
    intros H. by apply elem_of_nil in H.
  - apply Forall_cons in Hsq as [Hx Hsq].
    apply StronglySorted_inv in Hs as [Hs Hxl].
    apply Forall_cons in Hp as [Hpx Hp].
    destruct (IH (edge_key n x) Hsq Hs Hxl) as (Hel & Hso & Hgt).
    rewrite kept_cons. case_bool_decide as Hkey.
    + split_and!.
      * intros e. rewrite !elem_of_cons, Hel. split.
        -- intros [-> | [He Hlt]]; [split; [by left | lia]|].
           split; [by right | lia].
        -- intros [[-> | He] Hlt]; [by left|].
           pose proof (proj1 (Forall_forall _ _) Hxl e He) as Hle.
           unfold key_le in Hle.
           destruct (decide (edge_key n e = edge_key n x)) as [Heq|Hne].
           ++ left. apply (edge_key_inj n Hn); [|done..].
              by apply (proj1 (Forall_forall _ _) Hsq).
           ++ right. split; [done | lia].
      * constructor; [done|]. exact Hgt.
      * constructor; [lia|].
        eapply Forall_impl; [exact Hgt|]. simpl. lia.
    + assert (edge_key n x = p) as Heq by lia.
      rewrite Heq in Hel, Hso, Hgt |- *. split_and!; [|done..].
      intros e. rewrite elem_of_cons, Hel. split; [intros [? ?]; auto|].
      intros [[-> | He] Hlt]; [lia | done].
Qed.
End Dedupe.

#[local] Instance key_le_trans n : Transitive (key_le n).
Proof. intros a b c. unfold key_le. lia. Qed.
#[local] Instance key_le_total n : Total (key_le n).
Proof. intros a b. unfold key_le. lia. Qed.
#[local] Instance lex_lt_irrefl : Irreflexive lex_lt.
Proof. intros a Ha. unfold lex_lt in Ha. lia. Qed.

Lemma coalesce_kept (edges : list (Z * Z)) :
  let n := maybe_num_nodes edges in
  n * n ≤ MAX_INT64 →
  coalesce edges = Return (kept n (-1) (merge_sort (key_le n) edges)).
Proof.
  intros n Hn. unfold coalesce. fold n.
  rewrite bool_decide_eq_false_2 by lia. simpl.
  fold (kept n (-1) (merge_sort (key_le n) edges)).
  destruct (forallb id _) eqn:Hall; [|done].
  f_equal. symmetry. unfold kept. apply filter_mask_forallb; [done|].
  rewrite length_zip_with. simpl. rewrite length_fmap. lia.
Qed.

Lemma coalesce_spec (edges : list (Z * Z)) :
  valid_edges edges →
  maybe_num_nodes edges * maybe_num_nodes edges ≤ MAX_INT64 →
  ∃ edge_index,
    coalesce edges = Return edge_index ∧
    (∀ e, e ∈ edge_index ↔ e ∈ edges) ∧
    StronglySorted lex_lt edge_index.
Proof.
  intros Hv. set (n := maybe_num_nodes edges). intros Hn.
  eexists. split; [by apply coalesce_kept|]. fold n.
  set (sorted := merge_sort (key_le n) edges).
  assert (Hperm : sorted ≡ₚ edges) by apply merge_sort_Permutation.
  assert (Hsq : Forall (in_square n) sorted).
  { rewrite Hperm. apply Forall_forall. intros e He.
    pose proof (maybe_num_nodes_bound edges e He) as [? ?].
    pose proof (proj1 (Forall_forall _ _) Hv e He) as [? ?].
    unfold in_square. fold n. lia. }
  destruct (kept_sorted n Hn sorted (-1) Hsq) as (Hel & Hso & _).
  { apply (StronglySorted_merge_sort _). }
  { eapply Forall_impl; [exact Hsq|]. intros e He. simpl.
    pose proof (edge_key_nonneg n Hn e He). lia. }
  split.
  - intros e. rewrite Hel, Hperm. split; [by intros [? _]|].
    intros He. split; [done|].
    assert (in_square n e) as Hin.
    { rewrite Forall_forall in Hsq. apply Hsq. by rewrite Hperm. }
    pose proof (edge_key_nonneg n Hn e Hin). lia.
  - eapply StronglySorted_impl_elem; [|exact Hso].
    intros a b Ha Hb Hlt. simpl in Hlt.
    apply Hel in Ha as [Ha _]. apply Hel in Hb as [Hb _].
    rewrite Forall_forall in Hsq.
    by apply (edge_key_lt n Hn); [apply Hsq..|].
Qed.

(** X5.  [coalesce] on edges with non-negative ids: when the square of the
    node count [max id + 1] exceeds the int64 range it raises a
    [ValueError]; otherwise it returns the same set of edges, each once,
    sorted by source and then by destination. *)
Theorem coalesce_sorted_distinct (edges : list (Z * Z)) :
  valid_edges edges →
  let n := maybe_num_nodes edges in
  (n * n > MAX_INT64 → coalesce edges = Raise ValueError) ∧
  (n * n ≤ MAX_INT64 →
   ∃ edge_index,
     coalesce edges = Return edge_index ∧
     (∀ e, e ∈ edge_index ↔ e ∈ edges) ∧
     StronglySorted lex_lt edge_index ∧
     NoDup edge_index).
Proof.
  intros Hv n. split.
  - intros Hbig. unfold coalesce. fold n.
    by rewrite bool_decide_eq_true_2 by done.
  - intros Hn. destruct (coalesce_spec edges Hv Hn) as (e' & He' & Hel & Hs).
    exists e'. split_and!; [done..|].
    by apply (StronglySorted_NoDup lex_lt).
Qed.

Lemma coalesce_sorted_distinct_witness :
  ∃ edge_index,
    coalesce [(2, 1); (0, 5); (2, 1); (0, 3)] = Return edge_index ∧
    (∀ e, e ∈ edge_index ↔ e ∈ [(2, 1); (0, 5); (2, 1); (0, 3)]) ∧
    StronglySorted lex_lt edge_index ∧
    NoDup edge_index.
Proof.
  destruct (coalesce_sorted_distinct [(2, 1); (0, 5); (2, 1); (0, 3)])
    as [_ Hok].
  - repeat constructor; simpl; lia.
  - apply Hok. vm_compute. discriminate.
Defined.

(** ** Row pointers *)

Lemma convert_lookup input size :
  0 ≤ size + 1 →
  ∃ rowptr,
    _convert_indices_from_coo_to_csr input size = Return rowptr ∧
    Z.of_nat (length rowptr) = size + 1 ∧
    ∀ i, 0 ≤ i ≤ size → rowptr !! Z.to_nat i = Some (count_below input i).
Proof.
  intros Hsize. unfold _convert_indices_from_coo_to_csr.
  rewrite bool_decide_eq_true_2 by done. eexists. split; [done|]. split.
  - rewrite length_fmap, length_seqZ. lia.
  - intros i Hi. rewrite list_lookup_fmap, lookup_seqZ_lt by lia.
    simpl. unfold count_below. by rewrite Z.add_0_l, Z2Nat.id by lia.
Qed.

Lemma count_below_fst (l : list (Z * Z)) i :
  count_below l.*1 i = Z.of_nat (length (filter (λ e, e.1 < i) l)).
Proof.
  unfold count_below. f_equal. induction l as [|x l IH]; [done|].
  rewrite fmap_cons, !filter_cons. simpl.
  destruct (decide (x.1 < i)); simpl; by rewrite IH.
Qed.

Lemma count_below_mono input i j :
  i ≤ j → count_below input i ≤ count_below input j.
Proof.
  intros Hij. unfold count_below. apply inj_le.
  induction input as [|x l IH]; [done|]. rewrite !filter_cons.
  destruct (decide (x < i)), (decide (x < j)); simpl; lia.
Qed.

Lemma count_below_all input i :
  Forall (λ r, r < i) input → count_below input i = Z.of_nat (length input).
Proof. intros H. unfold count_below. by rewrite filter_all. Qed.

Lemma count_below_none input i :
  Forall (λ r, i ≤ r) input → count_below input i = 0.
Proof.
  intros H. unfold count_below. rewrite filter_none; [done|].
  eapply Forall_impl; [exact H|]. simpl. lia.
Qed.

(** In a list sorted by row, the edges of row [r] sit between the edges of
    smaller rows and the rest. *)
Lemma sorted_rows_segment (l : list (Z * Z)) r :
  StronglySorted row_le l →
  take (length (filter (λ e, e.1 < r + 1) l)
        - length (filter (λ e, e.1 < r) l))
    (drop (length (filter (λ e, e.1 < r) l)) l)
  = filter (λ e, e.1 = r) l.
Proof.
  induction 1 as [|x l Hs IH Hx]; [done|].
  unfold row_le in Hx. rewrite !filter_cons.
  destruct (decide (x.1 < r)) as [Hlt|Hge].
  - rewrite decide_True by lia. rewrite decide_False by lia. simpl.
    exact IH.
  - assert (filter (λ e : Z * Z, e.1 < r) l = []) as Hnone.
    { apply filter_none. eapply Forall_impl; [exact Hx|]. simpl. lia. }
    rewrite Hnone in IH |- *. simpl in IH |- *.
    destruct (decide (x.1 < r + 1)) as [Hlt1|Hge1].
    + rewrite decide_True by lia. simpl. f_equal.
      rewrite Nat.sub_0_r in IH. exact IH.
    + rewrite decide_False by lia.
      rewrite (filter_none (λ e : Z * Z, e.1 < r + 1) l)
        by (eapply Forall_impl; [exact Hx|]; simpl; lia).
      rewrite (filter_none (λ e : Z * Z, e.1 = r) l)
        by (eapply Forall_impl; [exact Hx|]; simpl; lia).
      done.
Qed.

Lemma lex_lt_row_le (l : list (Z * Z)) :
  StronglySorted lex_lt l → StronglySorted row_le l.
Proof.
  apply StronglySorted_impl_elem. intros a b _ _. unfold lex_lt, row_le. lia.
Qed.

Lemma row_destinations_sorted (l : list (Z * Z)) r :
  StronglySorted lex_lt l →
  StronglySorted Z.lt (filter (λ e, e.1 = r) l).*2.
Proof.
  induction 1 as [|x l Hs IH Hx]; [constructor|].
  rewrite filter_cons. destruct (decide (x.1 = r)) as [Hr|Hr]; [|done].
  rewrite fmap_cons. constructor; [done|].
  apply Forall_forall. intros d Hd.
  apply list_elem_of_fmap in Hd as ([r' d'] & -> & Hd).
  apply list_elem_of_filter in Hd as [Hr' Hd]. simpl in *.
  pose proof (proj1 (Forall_forall _ _) Hx _ Hd) as Hlt.
  unfold lex_lt in Hlt. simpl in Hlt. lia.
Qed.

Lemma row_destinations_elem (l : list (Z * Z)) r d :
  d ∈ (filter (λ e, e.1 = r) l).*2 ↔ (r, d) ∈ l.
Proof.
  rewrite list_elem_of_fmap. split.
  - intros ([r' d'] & -> & [Hr Hin]%list_elem_of_filter). simpl in *.
    by subst.
  - intros Hin. exists (r, d). split; [done|].
    by apply list_elem_of_filter.
Qed.

Section LoadedSplit.
Context (size : Z) (edge_index : list (Z * Z)) (rowptr : list Z).
Hypothesis Hsorted : StronglySorted lex_lt edge_index.
Hypothesis Hrows : Forall (λ e, 0 ≤ e.1 < size) edge_index.
Hypothesis Hsize : 0 ≤ size.
Hypothesis Hlen : Z.of_nat (length rowptr) = size + 1.
Hypothesis Hlookup : ∀ i, 0 ≤ i ≤ size →
  rowptr !! Z.to_nat i = Some (count_below edge_index.*1 i).

Lemma loaded_csr : csr_well_formed rowptr edge_index.*2.
Proof.
  split.
  - exists (count_below edge_index.*1 0). split.
    + apply (Hlookup 0). lia.
    + unfold count_below. lia.
  - intros i x y Hx Hy.
    pose proof (lookup_lt_Some _ _ _ Hy) as Hi.
    rewrite <- (Nat2Z.id i) in Hx. rewrite Hlookup in Hx by lia.
    rewrite <- (Nat2Z.id (S i)) in Hy. rewrite Hlookup in Hy by lia.
    injection Hx as <-. injection Hy as <-.
    apply count_below_mono. lia.
  - rewrite last_lookup.
    replace (pred (length rowptr)) with (Z.to_nat size) by lia.
    rewrite Hlookup by lia. f_equal.
    rewrite count_below_all; [by rewrite !length_fmap|].
    apply Forall_fmap. eapply Forall_impl; [exact Hrows|]. simpl. lia.
Qed.

Lemma loaded_row_start r :
  0 ≤ r ≤ size → row_start rowptr r = count_below edge_index.*1 r.
Proof.
  intros Hr. unfold row_start. apply list_lookup_total_correct.
  by apply Hlookup.
Qed.

Lemma loaded_neighbours r :
  0 ≤ r < size →
  neighbours rowptr edge_index.*2 r = (filter (λ e, e.1 = r) edge_index).*2.
Proof.
  intros Hr. unfold neighbours, degree.
  rewrite !loaded_row_start by lia. rewrite !count_below_fst.
  rewrite <- fmap_drop, <- fmap_take. f_equal.
  rewrite Nat2Z.id.
  rewrite <- (sorted_rows_segment edge_index r) by (by apply lex_lt_row_le).
  f_equal. lia.
Qed.
End LoadedSplit.

Lemma load_split_spec (num_src_nodes : Z) (edges : list (Z * Z)) :
  valid_edges edges →
  Forall (λ e, e.1 < num_src_nodes) edges →
  0 ≤ num_src_nodes →
  maybe_num_nodes edges * maybe_num_nodes edges ≤ MAX_INT64 →
  ∃ rowptr edge_index,
    load_split num_src_nodes edges = Return (rowptr, edge_index) ∧
    coalesce edges = Return edge_index ∧
    Z.of_nat (length rowptr) = num_src_nodes + 1 ∧
    csr_well_formed rowptr edge_index.*2 ∧
    ∀ r, 0 ≤ r < num_src_nodes →
      let ds := neighbours rowptr edge_index.*2 r in
      ds = (filter (λ e, e.1 = r) edge_index).*2 ∧
      StronglySorted Z.lt ds ∧
      ∀ d, d ∈ ds ↔ (r, d) ∈ edges.
Proof.
  intros Hv Hsrc Hsize Hn.
  destruct (coalesce_spec edges Hv Hn) as (e' & He' & Hel & Hs).
  destruct (convert_lookup e'.*1 num_src_nodes) as (rowptr & Hr & Hlen & Hlk);
    [lia|].
  exists rowptr, e'. unfold load_split. rewrite He'. simpl. rewrite Hr.
  assert (Hrows : Forall (λ e, 0 ≤ e.1 < num_src_nodes) e').
  { apply Forall_forall. intros e He%Hel.
    pose proof (proj1 (Forall_forall _ _) Hv e He) as [? _].
    pose proof (proj1 (Forall_forall _ _) Hsrc e He). simpl in *. lia. }
  split_and!; [done..| by eapply loaded_csr |].
  intros r Hr0. cbv zeta.
  rewrite (loaded_neighbours num_src_nodes e' rowptr) by done.
  split_and!; [done | by apply row_destinations_sorted |].
  intros d. by rewrite row_destinations_elem, Hel.
Qed.


(** X6.  One split of [load_data_dict].  For edges with non-negative ids
    whose sources are below [num_src_nodes] (and a node count whose square
    fits int64), the loop body returns [num_src_nodes + 1] row pointers
    that form a well-formed CSR adjacency over [edge_index[1]]; the stored
    neighbours of a source [r] are the destinations of its edges, each
    once and in increasing order. *)
Theorem load_split_adjacency (num_src_nodes : Z) (edges : list (Z * Z)) :
  valid_edges edges →
  Forall (λ e, e.1 < num_src_nodes) edges →
  0 ≤ num_src_nodes →
  maybe_num_nodes edges * maybe_num_nodes edges ≤ MAX_INT64 →
  ∃ rowptr edge_index,
    load_split num_src_nodes edges = Return (rowptr, edge_index) ∧
    coalesce edges = Return edge_index ∧
    Z.of_nat (length rowptr) = num_src_nodes + 1 ∧
    csr_well_formed rowptr edge_index.*2 ∧
    ∀ r, 0 ≤ r < num_src_nodes →
      let ds := neighbours rowptr edge_index.*2 r in
      ds = (filter (λ e, e.1 = r) edge_index).*2 ∧
      StronglySorted Z.lt ds ∧
      ∀ d, d ∈ ds ↔ (r, d) ∈ edges.
Proof. apply load_split_spec. Qed.

Lemma load_split_adjacency_witness :
  ∃ rowptr edge_index,
    load_split 3 [(2, 1); (0, 5); (2, 1); (0, 3)]
    = Return (rowptr, edge_index) ∧
    csr_well_formed rowptr edge_index.*2 ∧
    ∀ d, d ∈ neighbours rowptr edge_index.*2 0
         ↔ (0, d) ∈ [(2, 1); (0, 5); (2, 1); (0, 3)].
Proof.
  destruct (load_split_adjacency 3 [(2, 1); (0, 5); (2, 1); (0, 3)])
    as (rowptr & e' & Hrun & _ & _ & Hwf & Hrow).
  - repeat constructor; simpl; lia.
  - repeat constructor; simpl; lia.
  - lia.
  - vm_compute. discriminate.
  - exists rowptr, e'. split_and!; [done..|].
    apply (Hrow 0). lia.
Defined.

(** ** The interaction matrix of a batch *)

Lemma index_fill2_at_valid {A} (t : list (list A)) (S : nat) idx (v : A) :
  Forall (λ row, length row = S) t →
  Forall (λ e, 0 ≤ e.1 < Z.of_nat (length t) ∧ 0 ≤ e.2 < Z.of_nat S) idx →
  ∃ t', index_fill2_at t idx v = Return t' ∧
        length t' = length t ∧ Forall (λ row, length row = S) t' ∧
        ∀ p q, (p < length t)%nat → (q < S)%nat →
          cell t' p q
          = if bool_decide ((Z.of_nat p, Z.of_nat q) ∈ idx) then Some v
            else cell t p q.
Proof.
  revert t. induction idx as [|[i j] idx IH]; intros t Ht Hidx.
  - exists t. split_and!; [done..|]. intros p q _ _.
    rewrite bool_decide_eq_false_2; [done|]. apply not_elem_of_nil.
  - apply Forall_cons in Hidx as [[Hi Hj] Hidx]. simpl in Hi, Hj.
    destruct (lookup_lt_is_Some_2 t (Z.to_nat i)) as [row Hrow]; [lia|].
    pose proof (proj1 (Forall_lookup _ _) Ht _ _ Hrow) as Hlen.
    simpl in Hlen. simpl.
    rewrite (getitem_nonneg t i row) by (done || lia). simpl.
    rewrite (norm_index_nonneg (length t) i) by lia. simpl.
    rewrite (norm_index_nonneg (length row) j) by lia. simpl.
    set (t1 := <[Z.to_nat i := <[Z.to_nat j := v]> row]> t).
    destruct (IH t1) as (t' & -> & Hl' & Hrows' & Hcell).
    { apply Forall_insert; [done|]. by rewrite length_insert. }
    { unfold t1. by rewrite length_insert. }
    unfold t1 in Hl'. rewrite length_insert in Hl'.
    exists t'. split_and!; [done..|]. intros p q Hp Hq.
    rewrite Hcell by (unfold t1; rewrite ?length_insert; done).
    unfold t1. rewrite cell_insert by (done || lia).
    destruct (decide (p = Z.to_nat i ∧ q = Z.to_nat j)) as [[-> ->]|Hne].
    + rewrite !Z2Nat.id by lia.
      rewrite (bool_decide_eq_true_2 (_ ∈ (i, j) :: idx)) by left.
      by case_bool_decide.
    + assert ((Z.of_nat p, Z.of_nat q) ≠ (i, j)) as Hne'.
      { intros [= <- <-]. apply Hne. by rewrite !Nat2Z.id. }
      destruct (decide ((Z.of_nat p, Z.of_nat q) ∈ idx)) as [Hin|Hout].
      * rewrite !bool_decide_eq_true_2; [done | by right | done].
      * rewrite !bool_decide_eq_false_2; [done | | done].
        by intros [?|?]%elem_of_cons.
Qed.

Lemma matrix_ext {A} (S : nat) (t u : list (list A)) :
  length t = length u →
  Forall (λ row, length row = S) t → Forall (λ row, length row = S) u →
  (∀ p q, (p < length t)%nat → (q < S)%nat → cell t p q = cell u p q) →
  t = u.
Proof.
  intros Hlen Ht Hu Hcell. apply list_eq_same_length with (length t);
    [done | done |].
  intros p x y Hp Hx Hy. rewrite Forall_lookup in Ht, Hu.
  pose proof (Ht _ _ Hx) as Hlx. pose proof (Hu _ _ Hy) as Hly.
  simpl in Hlx, Hly.
  apply list_eq_same_length with S; [done | done |].
  intros q a b Hq Ha Hb. specialize (Hcell p q Hp Hq).
  unfold cell in Hcell. rewrite Hx, Hy in Hcell. simpl in Hcell.
  congruence.
Qed.

(** The coordinates produced by [get_rhs_index]: row [p] of the batch is
    paired with the neighbours of its source. *)
Lemma elem_of_blocks (c : Z → Z) (block : Z → list Z) (src : list Z) p d :
  Forall (λ r, length (block r) = Z.to_nat (c r)) src →
  (Z.of_nat p, d) ∈ zip (batch_of 0 (c <$> src)) (r ← src; block r) ↔
  ∃ r, src !! p = Some r ∧ d ∈ block r.
Proof.
  intros Hc. rewrite <- row_destinations_elem.
  fold (elements_with_batch (Z.of_nat p) (batch_of 0 (c <$> src))
          (r ← src; block r)).
  destruct (src !! p) as [r|] eqn:Hr.
  - rewrite <- (Z.add_0_l (Z.of_nat p)).
    rewrite (elements_with_batch_blocks c block src 0 p r Hc Hr).
    split; [eauto|]. by intros (? & [= <-] & ?).
  - split; [|by intros (? & ? & ?)]. intros Hin.
    unfold elements_with_batch in Hin.
    apply list_elem_of_fmap in Hin as ([b d'] & -> & Hin).
    apply list_elem_of_filter in Hin as [Hb Hin]. simpl in Hb. subst b.
    apply elem_of_zip_l in Hin.
    apply elem_of_batch_of_inv in Hin as (i & c0 & Hi & Hc0 & _).
    assert (i = p) as -> by lia.
    rewrite list_lookup_fmap, Hr in Hc0. done.
Qed.

Section BatchInput.
Context (rowptr col : list Z) (num_dst_nodes : Z).
Hypothesis Hwf : csr_well_formed rowptr col.
Hypothesis Hrowptr64 : Z.of_nat (length rowptr) ≤ 2 ^ 63.
Hypothesis Hcol64 : Z.of_nat (length col) < 2 ^ 63.
Hypothesis Hdst : Forall (λ d, 0 ≤ d < num_dst_nodes) col.
Hypothesis Hnum : 0 ≤ num_dst_nodes.

Lemma elem_of_neighbours r d : d ∈ neighbours rowptr col r → d ∈ col.
Proof.
  unfold neighbours. intros Hd.
  apply elem_of_take in Hd as (i & Hi & _).
  rewrite lookup_drop in Hi. by eapply list_elem_of_lookup_2.
Qed.

Lemma multi_hot_cell src p q r :
  src !! p = Some r → (q < Z.to_nat num_dst_nodes)%nat →
  cell (multi_hot num_dst_nodes rowptr col src) p q
  = Some (if bool_decide (Z.of_nat q ∈ neighbours rowptr col r)
          then (1 : Q) else (0 : Q)).
Proof.
  intros Hr Hq. unfold cell, multi_hot.
  rewrite list_lookup_fmap, Hr. simpl.
  rewrite list_lookup_fmap, lookup_seqZ_lt by lia. simpl.
  by rewrite Z.add_0_l.
Qed.

(** The matrix built from the output of [get_rhs_index] is the multi-hot
    encoding of the neighbour lists. *)
Lemma batch_input src :
  valid_rows rowptr src →
  sumZ (degree rowptr <$> src) < 2 ^ 63 →
  get_rhs_index src rowptr col
    ≫= (λ '(src_batch, dst_index),
          interaction_matrix (Z.of_nat (length src)) num_dst_nodes
            src_batch dst_index)
  = Return (multi_hot num_dst_nodes rowptr col src).
Proof.
  intros Hsrc Hsum.
  rewrite (get_rhs_index_blocks rowptr col Hwf Hrowptr64 Hcol64 src Hsrc Hsum).
  simpl. unfold interaction_matrix, zeros2.
  rewrite bool_decide_eq_true_2 by lia. simpl.
  unfold index_fill2, broadcast_indices.
  assert (Hdeg : Forall (λ r, length (neighbours rowptr col r)
                              = Z.to_nat (degree rowptr r)) src).
  { eapply Forall_impl; [exact Hsrc|]. intros r [Hr0 Hr1]. simpl.
    by apply (length_neighbours rowptr col Hwf). }
  rewrite bool_decide_eq_true_2; [simpl|].
  2:{ apply Nat2Z.inj.
      rewrite (length_blocks rowptr col Hwf src Hsrc).
      apply length_batch_of.
      by apply (degree_nonneg rowptr col Hwf). }
  set (S := Z.to_nat num_dst_nodes).
  set (zero := replicate (Z.to_nat (Z.of_nat (length src)))
                 (replicate S (0 : Q))).
  destruct (index_fill2_at_valid zero S
              (zip (batch_of 0 (degree rowptr <$> src))
                 (r ← src; neighbours rowptr col r)) (1 : Q))
    as (x & -> & Hlx & Hrows & Hcell).
  { apply Forall_replicate. apply length_replicate. }
  { apply Forall_forall. intros [b d] Hin. simpl.
    unfold zero. rewrite length_replicate, Nat2Z.id.
    pose proof (elem_of_zip_l _ _ _ _ Hin) as Hb.
    apply elem_of_batch_of_inv in Hb as (i & c & -> & Hc & _).
    apply lookup_lt_Some in Hc. rewrite length_fmap in Hc.
    rewrite Z.add_0_l in Hin.
    apply (elem_of_blocks (degree rowptr) (neighbours rowptr col) src i d
             Hdeg) in Hin as (r & _ & Hd%elem_of_neighbours).
    pose proof (proj1 (Forall_forall _ _) Hdst d Hd). simpl in *.
    unfold S. lia. }
  f_equal. unfold zero in Hlx. rewrite length_replicate, Nat2Z.id in Hlx.
  apply (matrix_ext S); [| done | |].
  - unfold multi_hot. by rewrite length_fmap.
  - unfold multi_hot. apply Forall_fmap, Forall_forall. intros r _. simpl.
    rewrite length_fmap, length_seqZ. done.
  - intros p q Hp Hq. rewrite Hlx in Hp.
    destruct (lookup_lt_is_Some_2 src p Hp) as [r Hr].
    rewrite (multi_hot_cell src p q r Hr Hq).
    rewrite Hcell by (unfold zero; rewrite ?length_replicate, ?Nat2Z.id; done).
    assert (cell zero p q = Some (0 : Q)) as ->.
    { unfold cell, zero. rewrite lookup_replicate_2 by lia. simpl.
      by rewrite lookup_replicate_2. }
    destruct (decide (Z.of_nat q ∈ neighbours rowptr col r)) as [Hin|Hout].
    + rewrite !bool_decide_eq_true_2; [done | done |].
      apply (elem_of_blocks (degree rowptr) (neighbours rowptr col) src p _
               Hdeg). eauto.
    + rewrite !bool_decide_eq_false_2; [done | done |].
      intros (r' & Hr' & Hin')%(elem_of_blocks (degree rowptr)
                                  (neighbours rowptr col) src p _ Hdeg).
      congruence.
Qed.
End BatchInput.

(** ** Batches *)

Lemma py_range_from_0 N step :
  0 < step → py_range 0 N step = Return (chunk_starts N step).
Proof.
  intros Hstep. unfold py_range, chunk_starts.
  rewrite bool_decide_eq_false_2 by lia.
  rewrite bool_decide_eq_true_2 by lia.
  rewrite Z.sub_0_r. done.
Qed.

Lemma py_slice_inner {A} (l : list A) a b :
  0 ≤ a ≤ b → b ≤ Z.of_nat (length l) →
  py_slice l a b = take (Z.to_nat (b - a)) (drop (Z.to_nat a) l).
Proof.
  intros Ha Hb. unfold py_slice, slice_index.
  rewrite !bool_decide_eq_false_2 by lia.
  rewrite !Z.min_l by lia. f_equal. lia.
Qed.

Lemma seqZ_seq m n : seqZ m n = (λ i, Z.of_nat i + m) <$> seq 0 (Z.to_nat n).
Proof. done. Qed.

Lemma chunk_starts_lookup N bs i s :
  0 < bs → chunk_starts N bs !! i = Some s →
  s = Z.of_nat i * bs ∧ 0 ≤ s < N.
Proof.
  intros Hbs. unfold chunk_starts. rewrite list_lookup_fmap.
  destruct (seqZ 0 _ !! i) as [j|] eqn:Hj; [|done].
  apply lookup_seqZ in Hj as [-> Hi]. simpl. intros [= <-].
  split; [f_equal; lia|]. split; [lia|].
  assert (Z.of_nat i + 1 ≤ (N + bs - 1) `div` bs) as Hle by lia.
  pose proof (Z.mul_div_le (N + bs - 1) bs Hbs). nia.
Qed.

Lemma foldlM_fmap {A B C} (f : A → B → result A) (g : A → C → A)
    (h : B → C) (l : list B) (a : A) :
  (∀ a b, b ∈ l → f a b = Return (g a (h b))) →
  foldlM f a l = Return (foldl g a (h <$> l)).
Proof.
  revert a. induction l as [|b l IH]; intros a Hf; [done|]. simpl.
  rewrite Hf by left. simpl. apply IH. intros a' b' Hb'. apply Hf.
  by right.
Qed.

Lemma chunks_take {A} (bs : Z) (l : list A) (k : nat) :
  0 < bs →
  mjoin ((λ start, take (Z.to_nat bs) (drop (Z.to_nat start) l))
           <$> ((λ i, i * bs) <$> seqZ 0 (Z.of_nat k)))
  = take (k * Z.to_nat bs) l.
Proof.
  intros Hbs. induction k as [|k IH]; [done|].
  rewrite seqZ_S. rewrite !fmap_app, join_app, IH.
  simpl. rewrite app_nil_r, Z.add_0_l.
  replace (Z.to_nat (Z.of_nat k * bs)) with (k * Z.to_nat bs)%nat by lia.
  rewrite take_take_drop. f_equal. lia.
Qed.

Lemma chunks_join {A} (bs : Z) (l : list A) :
  0 < bs → mjoin (chunks bs l) = l.
Proof.
  intros Hbs. unfold chunks, chunk_starts.
  set (K := (Z.of_nat (length l) + bs - 1) `div` bs).
  assert (0 ≤ K) as HK by (apply Z.div_pos; lia).
  rewrite <- (Z2Nat.id K) by done. rewrite chunks_take by done.
  apply take_ge.
  assert (Z.of_nat (length l) ≤ K * bs); [|nia].
  pose proof (Z.mod_pos_bound (Z.of_nat (length l) + bs - 1) bs Hbs).
  pose proof (Z.div_mod (Z.of_nat (length l) + bs - 1) bs). fold K in H0.
  nia.
Qed.

Lemma chunks_lookup {A} (bs : Z) (l : list A) i c :
  0 < bs → chunks bs l !! i = Some c →
  c = take (Z.to_nat bs) (drop (i * Z.to_nat bs) l) ∧
  (0 < length c ≤ Z.to_nat bs)%nat.
Proof.
  intros Hbs. unfold chunks. rewrite list_lookup_fmap.
  destruct (chunk_starts _ _ !! i) as [s|] eqn:Hs; [|done].
  apply chunk_starts_lookup in Hs as [-> Hs]; [|done]. simpl.
  intros [= <-].
  replace (Z.to_nat (Z.of_nat i * bs)) with (i * Z.to_nat bs)%nat by lia.
  split; [done|]. rewrite length_take, length_drop. nia.
Qed.

Lemma length_chunks {A} (bs : Z) (l : list A) :
  0 < bs →
  Z.of_nat (length (chunks bs l)) = (Z.of_nat (length l) + bs - 1) `div` bs.
Proof.
  intros Hbs. unfold chunks, chunk_starts.
  rewrite !length_fmap, length_seqZ.
  assert (0 ≤ (Z.of_nat (length l) + bs - 1) `div` bs)
    by (apply Z.div_pos; lia). lia.
Qed.

Lemma sumZ_app l1 l2 : sumZ (l1 ++ l2) = sumZ l1 + sumZ l2.
Proof. induction l1 as [|x l1 IH]; simpl; lia. Qed.

Lemma sumZ_Permutation l1 l2 : l1 ≡ₚ l2 → sumZ l1 = sumZ l2.
Proof. induction 1; simpl; lia. Qed.

Lemma sumZ_sublist l1 l2 :
  l1 `sublist_of` l2 → Forall (λ c, 0 ≤ c) l2 → sumZ l1 ≤ sumZ l2.
Proof.
  induction 1 as [|x l1 l2 _ IH|x l1 l2 _ IH]; intros Hl2; [done|..];
    apply Forall_cons in Hl2 as [Hx Hl2]; simpl; specialize (IH Hl2); lia.
Qed.

Section AllRows.
Context (rowptr col : list Z).
Hypothesis Hwf : csr_well_formed rowptr col.
Local Abbreviation N := (Z.of_nat (length rowptr) - 1).

Lemma degree_telescope (k : nat) :
  Z.of_nat k ≤ N →
  sumZ (degree rowptr <$> seqZ 0 (Z.of_nat k))
  = row_start rowptr (Z.of_nat k) - row_start rowptr 0.
Proof.
  induction k as [|k IH]; intros Hk.
  { change (Z.of_nat 0) with 0. change (seqZ 0 0) with (@nil Z).
    rewrite fmap_nil. unfold sumZ. simpl foldr. lia. }
  rewrite seqZ_S, fmap_app, sumZ_app, IH by lia. simpl.
  rewrite Z.add_0_l, Nat2Z.inj_succ. unfold degree, Z.succ. lia.
Qed.

Lemma rows_valid (src : list Z) :
  Forall (λ r, 0 ≤ r < N) src → valid_rows rowptr src.
Proof. intros H. eapply Forall_impl; [exact H|]. simpl. lia. Qed.

(** The neighbour lists of distinct rows fit [col]. *)
Lemma degree_sum_bound (idxlist src : list Z) :
  idxlist ≡ₚ seqZ 0 N → src `sublist_of` idxlist →
  sumZ (degree rowptr <$> src) ≤ Z.of_nat (length col).
Proof.
  intros Hperm Hsub.
  assert (0 ≤ N) as HN.
  { destruct Hwf as [(x & Hx & _) _ _].
    apply lookup_lt_Some in Hx. lia. }
  assert (Hall : Forall (λ r, 0 ≤ r < N) (seqZ 0 N)).
  { apply Forall_forall. intros r Hr%elem_of_seqZ. lia. }
  etrans; [apply sumZ_sublist; [by apply fmap_sublist|]|].
  { rewrite Hperm. by apply (degree_nonneg rowptr col), rows_valid. }
  rewrite (sumZ_Permutation _ (degree rowptr <$> seqZ 0 N))
    by (by apply fmap_Permutation).
  rewrite <- (Z2Nat.id N) at 1 by done.
  rewrite degree_telescope by lia. rewrite Z2Nat.id by done.
  destruct Hwf as [(x0 & Hx0 & H0) _ Hend].
  rewrite last_lookup in Hend.
  unfold row_start.
  rewrite (list_lookup_total_correct rowptr (Z.to_nat 0) x0) by done.
  rewrite (list_lookup_total_correct rowptr (Z.to_nat N)
             (Z.of_nat (length col))).
  - lia.
  - rewrite <- Hend. f_equal. lia.
Qed.
End AllRows.

(** ** One epoch of [train] *)

Section TrainEpoch.
Context {F Net Rng : Type} (fzero : F) (fadd : F → F → F).
Context (fdiv_int : F → Z → F) (true_div : Z → Z → F) (fmin : F → F → F).
Context (shuffle : Rng → list Z → list Z * Rng).
Context (fit : Net → list (list Q) → F → Net * F).
Context (args : Args F) (num_dst_nodes : Z).
Context (rowptr : list Z) (edge_index : list (Z * Z)).
Local Abbreviation col := (edge_index.*2).
Hypothesis Hwf : csr_well_formed rowptr col.
Hypothesis Hrowptr64 : Z.of_nat (length rowptr) ≤ 2 ^ 63.
Hypothesis Hcol64 : Z.of_nat (length col) < 2 ^ 63.
Hypothesis Hdst : Forall (λ d, 0 ≤ d < num_dst_nodes) col.
Hypothesis Hnum : 0 ≤ num_dst_nodes.
Hypothesis Hbs : 0 < batch_size args.

Local Abbreviation N := (Z.of_nat (length rowptr) - 1).
Local Abbreviation step :=
  (fit_step F Net fadd true_div fmin fit args).

Lemma train_batch_chunk idxlist acc start :
  idxlist ≡ₚ seqZ 0 N → start ∈ chunk_starts N (batch_size args) →
  train_batch F Net fadd true_div fmin fit args num_dst_nodes rowptr col
    idxlist N acc start
  = Return (step acc
              (multi_hot num_dst_nodes rowptr col
                 (take (Z.to_nat (batch_size args))
                    (drop (Z.to_nat start) idxlist)))).
Proof.
  intros Hperm [i Hi]%list_elem_of_lookup.
  apply chunk_starts_lookup in Hi as [_ Hstart]; [|done].
  assert (Hlen : Z.of_nat (length idxlist) = N).
  { rewrite Hperm, length_seqZ. lia. }
  destruct acc as [[model steps] accum_loss]. unfold train_batch.
  set (bs := batch_size args) in *.
  set (chunk := take (Z.to_nat bs) (drop (Z.to_nat start) idxlist)).
  assert (Hslice : py_slice idxlist start (Z.min (start + bs) N) = chunk).
  { rewrite py_slice_inner by lia. unfold chunk.
    destruct (decide (start + bs ≤ N)) as [Hle|Hgt].
    - f_equal. lia.
    - rewrite !take_ge; [done | rewrite length_drop; lia..]. }
  assert (Hsize : Z.min (start + bs) N - start = Z.of_nat (length chunk)).
  { unfold chunk. rewrite length_take, length_drop. lia. }
  rewrite Hslice, Hsize.
  assert (Hsub : chunk `sublist_of` idxlist).
  { unfold chunk. etrans; [apply sublist_take | apply sublist_drop]. }
  assert (Hvalid : valid_rows rowptr chunk).
  { apply rows_valid. apply Forall_forall. intros r Hr.
    assert (r ∈ idxlist) as Hin by (by eapply elem_of_sublist).
    rewrite Hperm in Hin. apply elem_of_seqZ in Hin. lia. }
  assert (Hsum : sumZ (degree rowptr <$> chunk) < 2 ^ 63).
  { pose proof (degree_sum_bound rowptr col Hwf idxlist chunk Hperm Hsub).
    lia. }
  pose proof (batch_input rowptr col num_dst_nodes Hwf Hrowptr64 Hcol64 Hdst
                Hnum chunk Hvalid Hsum) as Hx.
  destruct (get_rhs_index chunk rowptr col) as [e|[src_batch dst_index]];
    [done|].
  unfold mbind, result_bind in Hx |- *. rewrite Hx.
  unfold fit_step. by destruct (fit model _ _).
Qed.

Lemma foldl_step_count acc xs :
  (foldl step acc xs).1.2 = acc.1.2 + Z.of_nat (length xs).
Proof.
  revert acc. induction xs as [|x xs IH]; intros acc; simpl; [lia|].
  rewrite IH. destruct acc as [[model steps] accum]. simpl.
  destruct (fit model x _). simpl. lia.
Qed.

Lemma train_closed_form (data_dict : DataDict) (model : Net)
    (total_optimization_steps : Z) (rng : Rng) :
  dd_train data_dict = (rowptr, edge_index) →
  (∀ l, (shuffle rng l).1 ≡ₚ l) →
  let shuffled := shuffle rng (seqZ 0 N) in
  let batches := chunks (batch_size args) shuffled.1 in
  let final :=
    foldl step (model, total_optimization_steps, fzero)
      (multi_hot num_dst_nodes rowptr col <$> batches) in
  train F Net Rng fzero fadd fdiv_int true_div fmin shuffle fit args
    num_dst_nodes model total_optimization_steps rng data_dict
  = Return (final.1.1, final.1.2, shuffled.2, fdiv_int final.2 N) ∧
  final.1.2
  = total_optimization_steps
    + (N + batch_size args - 1) `div` batch_size args ∧
  mjoin batches ≡ₚ seqZ 0 N ∧
  Forall (λ b, (0 < length b ≤ Z.to_nat (batch_size args))%nat) batches.
Proof.
  intros Hdd Hshuffle shuffled batches final.
  assert (Hperm : shuffled.1 ≡ₚ seqZ 0 N) by apply Hshuffle.
  assert (Hlen : Z.of_nat (length shuffled.1) = N).
  { destruct Hwf as [(x & Hx & _) _ _]. apply lookup_lt_Some in Hx.
    rewrite Hperm, length_seqZ. lia. }
  split_and!.
  - unfold train. rewrite Hdd. fold shuffled.
    destruct shuffled as [idxlist rng'] eqn:Hsh. simpl in Hperm, Hlen.
    rewrite py_range_from_0 by done. simpl.
    rewrite (foldlM_fmap _ step
               (λ start, multi_hot num_dst_nodes rowptr col
                           (take (Z.to_nat (batch_size args))
                              (drop (Z.to_nat start) idxlist)))).
    2:{ intros acc start Hstart. by apply train_batch_chunk. }
    simpl. subst final batches. simpl. unfold chunks.
    rewrite Hlen, <- list_fmap_compose.
    by destruct (foldl _ _ _) as [[model' steps'] accum].
  - subst final. rewrite foldl_step_count. simpl.
    rewrite length_fmap. unfold batches.
    rewrite length_chunks by done. by rewrite Hlen.
  - unfold batches. by rewrite chunks_join.
  - apply Forall_forall. intros b [i Hb]%list_elem_of_lookup.
    by apply chunks_lookup in Hb as [_ Hb].
Qed.

(** X7.  One call of [train] on a well-formed adjacency, with a positive
    [batch_size] and a [shuffle] that permutes.  It raises nothing.  The
    shuffled rows are cut into consecutive batches, none empty and none
    longer than [batch_size], so that every source row is in exactly one
    batch; the input [x] of a batch is the multi-hot encoding of the
    neighbour lists of its rows; [total_optimization_steps] advances by
    the number of batches, [ceil(N / batch_size)]. *)
Theorem train_epoch (data_dict : DataDict) (model : Net)
    (total_optimization_steps : Z) (rng : Rng) :
  dd_train data_dict = (rowptr, edge_index) →
  (∀ l, (shuffle rng l).1 ≡ₚ l) →
  let shuffled := shuffle rng (seqZ 0 N) in
  let batches := chunks (batch_size args) shuffled.1 in
  let final :=
    foldl step (model, total_optimization_steps, fzero)
      (multi_hot num_dst_nodes rowptr col <$> batches) in
  train F Net Rng fzero fadd fdiv_int true_div fmin shuffle fit args
    num_dst_nodes model total_optimization_steps rng data_dict
  = Return (final.1.1, final.1.2, shuffled.2, fdiv_int final.2 N) ∧
  final.1.2
  = total_optimization_steps
    + (N + batch_size args - 1) `div` batch_size args ∧
  mjoin batches ≡ₚ seqZ 0 N ∧
  Forall (λ b, (0 < length b ≤ Z.to_nat (batch_size args))%nat) batches.
Proof. apply train_closed_form. Qed.
End TrainEpoch.

(** ** [test]: which rows are evaluated *)

Lemma filter_mask_filter {A} (P : A → Prop) `{!∀ x, Decision (P x)}
    (l : list A) :
  filter_mask l ((λ s, bool_decide (P s)) <$> l) = filter P l.
Proof.
  induction l as [|x l IH]; [done|]. rewrite fmap_cons, filter_cons. simpl.
  rewrite IH. by destruct (decide (P x)); [rewrite bool_decide_eq_true_2
                                         |rewrite bool_decide_eq_false_2].
Qed.

Lemma mapM_app {A B} (f : A → result B) l1 l2 r1 r2 :
  mapM f l1 = Return r1 → mapM f l2 = Return r2 →
  mapM f (l1 ++ l2) = Return (r1 ++ r2).
Proof.
  revert r1. induction l1 as [|x l1 IH]; intros r1.
  - intros [= <-]. done.
  - simpl. destruct (f x) as [|y]; [done|]. simpl.
    destruct (mapM f l1) as [|k] eqn:Hk; [done|]. simpl.
    intros [= <-] H2. by rewrite (IH k eq_refl H2).
Qed.

Lemma mapM_Return {A B} (f : A → result B) (P : B → Prop) l :
  Forall (λ x, ∃ y, f x = Return y ∧ P y) l →
  ∃ r, mapM f l = Return r ∧ length r = length l ∧ Forall P r.
Proof.
  induction 1 as [|x l (y & Hy & HP) _ (r & Hr & Hlen & HPr)].
  - by exists [].
  - exists (y :: r). simpl. rewrite Hy. simpl. rewrite Hr. simpl.
    split_and!; [done | by rewrite Hlen | by constructor].
Qed.

Lemma mapM_Forall2 {A B} (f : A → result B) l r :
  mapM f l = Return r → Forall2 (λ x y, f x = Return y) l r.
Proof.
  revert r. induction l as [|x l IH]; intros r; simpl.
  - intros [= <-]. constructor.
  - destruct (f x) as [|y] eqn:Hy; [done|]. simpl.
    destruct (mapM f l) as [|k]; [done|]. simpl. intros [= <-].
    constructor; [done | by apply IH].
Qed.

(** [topk] lists its selection by decreasing value. *)
Lemma topk_descending k t l a b i j qi qj :
  topk k t = Return l → (a < b)%nat →
  l !! a = Some i → l !! b = Some j →
  t !! Z.to_nat i = Some qi → t !! Z.to_nat j = Some qj →
  (qj <= qi)%Q.
Proof.
  unfold topk. case_bool_decide as Hk; [|done]. intros [= <-] Hab Ha Hb Hqi Hqj.
  set (ps := zip (seqZ 0 (Z.of_nat (length t))) t) in *.
  set (sorted := merge_sort prio_ge ps) in *.
  assert (Hperm : sorted ≡ₚ ps) by apply merge_sort_Permutation.
  assert (Hsort : StronglySorted prio_ge sorted)
    by apply (StronglySorted_merge_sort _).
  apply lookup_take_Some in Ha as [Ha _].
  apply lookup_take_Some in Hb as [Hb _].
  rewrite list_lookup_fmap in Ha, Hb.
  destruct (sorted !! a) as [[i' qi']|] eqn:Hsa; [|done].
  destruct (sorted !! b) as [[j' qj']|] eqn:Hsb; [|done].
  simpl in Ha, Hb. injection Ha as ->. injection Hb as ->.
  assert ((i, qi') ∈ ps) as [_ Hqi']%elem_of_zip_seqZ
    by (rewrite <- Hperm; by eapply list_elem_of_lookup_2).
  assert ((j, qj') ∈ ps) as [_ Hqj']%elem_of_zip_seqZ
    by (rewrite <- Hperm; by eapply list_elem_of_lookup_2).
  assert (qi' = qi) as -> by congruence.
  assert (qj' = qj) as -> by congruence.
  rewrite <- (take_drop b sorted) in Hsort.
  apply (StronglySorted_app_1_elem_of _ _ _ (i, qi) (j, qj) Hsort).
  - apply list_elem_of_lookup. exists a. by rewrite lookup_take_lt.
  - apply list_elem_of_lookup. exists 0%nat.
    by rewrite lookup_drop, Nat.add_0_r.
Qed.

Lemma topk_top_k_of k t l : topk k t = Return l → top_k_of k t l.
Proof.
  intros Hl. destruct (topk_Return k t l Hl) as (_ & Hlen & Hnd & Hin & Hdom).
  split_and!; [done..|].
  intros a b i j qi qj. by apply (topk_descending k t l).
Qed.

Lemma filter_join {A} (P : A → Prop) `{!∀ x, Decision (P x)}
    (ls : list (list A)) :
  filter P (mjoin ls) = mjoin (filter P <$> ls).
Proof.
  induction ls as [|l ls IH]; [done|]. simpl.
  by rewrite filter_app, IH.
Qed.

Section TestEpoch.
Context {F Net : Type} (scores : Net → list (list Q) → list (list Q)).
Context (evaluate : list (list Z) → String.string → Q).
Context (args : Args F) (num_src_nodes num_dst_nodes eval_k : Z).
Context (score_row : Net → list Q → list Q).
Context (rowptr col : list Z) (test_edge_index : list (Z * Z)).
Hypothesis Hwf : csr_well_formed rowptr col.
Hypothesis Hrowptr64 : Z.of_nat (length rowptr) ≤ 2 ^ 63.
Hypothesis Hcol64 : Z.of_nat (length col) < 2 ^ 63.
Hypothesis Hdst : Forall (λ d, 0 ≤ d < num_dst_nodes) col.
Hypothesis Hbs : 0 < batch_size args.
Hypothesis Hk : 0 ≤ eval_k ≤ num_dst_nodes.
Hypothesis Hrowwise : ∀ model x, scores model x = score_row model <$> x.
Hypothesis Hwidth : ∀ model row,
  length row = Z.to_nat num_dst_nodes →
  length (score_row model row) = Z.to_nat num_dst_nodes.

Local Abbreviation N := (Z.of_nat (length rowptr) - 1).
Local Abbreviation wanted := (λ s : Z, s ∈ test_edge_index.*1).
Local Abbreviation preds model rows :=
  (mapM (topk eval_k)
     (score_row model <$> multi_hot num_dst_nodes rowptr col rows)).
Local Abbreviation chunk_at start :=
  (take (Z.to_nat (batch_size args)) (drop (Z.to_nat start) (seqZ 0 N))).

Lemma preds_ok model rows :
  ∃ pred, preds model rows = Return pred ∧ length pred = length rows ∧
          Forall (λ row, length row = Z.to_nat eval_k) pred.
Proof.
  destruct (mapM_Return (topk eval_k)
              (λ row, length row = Z.to_nat eval_k)
              (score_row model <$> multi_hot num_dst_nodes rowptr col rows))
    as (pred & Hpred & Hlen & Hrows).
  - apply Forall_fmap, Forall_fmap, Forall_forall. intros r _. simpl.
    destruct (topk_ok eval_k
                (score_row model
                   ((λ d, if bool_decide (d ∈ neighbours rowptr col r)
                          then (1 : Q) else (0 : Q))
                      <$> seqZ 0 num_dst_nodes))) as [l Hl].
    { rewrite Hwidth by (by rewrite length_fmap, length_seqZ). lia. }
    exists l. split; [done|]. by apply topk_Return in Hl as (_ & ? & _).
  - exists pred. split_and!; [done | | done].
    rewrite Hlen. unfold multi_hot. by rewrite !length_fmap.
Qed.

Lemma test_batch_chunk model pred_list start :
  start ∈ chunk_starts N (batch_size args) →
  test_batch F Net scores args num_dst_nodes eval_k model rowptr col
    test_edge_index.*1 (seqZ 0 N) N pred_list start
  = match filter wanted (chunk_at start) with
    | [] => Return pred_list
    | rows =>
        pred_mini ← preds model rows; Return (pred_list ++ [pred_mini])
    end.
Proof.
  intros [i Hi]%list_elem_of_lookup.
  apply chunk_starts_lookup in Hi as [_ Hstart]; [|done].
  unfold test_batch.
  assert (Hslice :
    py_slice (seqZ 0 N) start (Z.min (start + batch_size args) N)
    = chunk_at start).
  { rewrite py_slice_inner by (rewrite ?length_seqZ; lia).
    destruct (decide (start + batch_size args ≤ N)) as [Hle|Hgt].
    - f_equal. lia.
    - rewrite !take_ge; [done | rewrite length_drop, length_seqZ; lia..]. }
  rewrite Hslice, (filter_mask_filter wanted).
  set (rows := filter wanted (chunk_at start)).
  assert (Hsub : rows `sublist_of` seqZ 0 N).
  { unfold rows. etrans; [apply sublist_filter|].
    etrans; [apply sublist_take | apply sublist_drop]. }
  case_bool_decide as Hempty.
  { by destruct rows. }
  assert (Hvalid : valid_rows rowptr rows).
  { apply rows_valid. apply Forall_forall. intros r Hr.
    assert (r ∈ seqZ 0 N) as Hin by (by eapply elem_of_sublist).
    apply elem_of_seqZ in Hin. lia. }
  assert (Hsum : sumZ (degree rowptr <$> rows) < 2 ^ 63).
  { pose proof (degree_sum_bound rowptr col Hwf (seqZ 0 N) rows
                  (reflexivity _) Hsub). lia. }
  assert (0 ≤ num_dst_nodes) as Hnum by lia.
  pose proof (batch_input rowptr col num_dst_nodes Hwf Hrowptr64 Hcol64 Hdst
                Hnum rows Hvalid Hsum) as Hx.
  destruct (get_rhs_index rows rowptr col) as [e|[src_batch dst_index]];
    [done|].
  unfold mbind at 1, result_bind at 1 in Hx.
  unfold mbind at 1, result_bind at 1. rewrite Hx. simpl.
  rewrite Hrowwise. by destruct rows.
Qed.

Lemma test_loop model starts pred_list done :
  Forall (λ s, s ∈ chunk_starts N (batch_size args)) starts →
  preds model done = Return (mjoin pred_list) →
  (pred_list = [] ↔ done = []) →
  ∃ pred_list',
    foldlM (test_batch F Net scores args num_dst_nodes eval_k model rowptr
              col test_edge_index.*1 (seqZ 0 N) N) pred_list starts
    = Return pred_list' ∧
    preds model (done ++ filter wanted (mjoin ((λ s, chunk_at s) <$> starts)))
    = Return (mjoin pred_list') ∧
    (pred_list' = [] ↔
     done ++ filter wanted (mjoin ((λ s, chunk_at s) <$> starts)) = []).
Proof.
  revert pred_list done.
  induction starts as [|s starts IH]; intros pred_list done Hs Hdone Hnil.
  - exists pred_list. simpl. by rewrite !app_nil_r.
  - apply Forall_cons in Hs as [Hs Hss]. simpl.
    rewrite test_batch_chunk by done. rewrite filter_app.
    destruct (filter wanted (chunk_at s)) as [|r rows] eqn:Hrows.
    + simpl. by apply IH.
    + destruct (preds_ok model (r :: rows)) as (pm & Hpm & Hlen & _).
      rewrite Hpm. simpl.
      destruct (IH (pred_list ++ [pm]) (done ++ r :: rows) Hss)
        as (pl' & Hfold & Hpreds & Hnil').
      * rewrite join_app. simpl. rewrite app_nil_r.
        unfold multi_hot. rewrite !fmap_app.
        by apply mapM_app.
      * split; intros Heq; by destruct pred_list, done.
      * exists pl'. rewrite <- !(assoc_L (++)) in Hpreds, Hnil'.
        by split_and!.
Qed.

Lemma test_closed_form (model : Net) (data_dict : DataDict)
    (stage : String.string) :
  test_inputs num_src_nodes data_dict stage
  = Return (rowptr, col, test_edge_index) →
  let rows := filter wanted (seqZ 0 N) in
  let run := test F Net scores evaluate args num_src_nodes num_dst_nodes
               eval_k model data_dict stage in
  (rows = [] → run = Raise ValueError) ∧
  (rows ≠ [] →
   ∃ pred,
     preds model rows = Return pred ∧
     run = Return (0 : Q, evaluate pred stage) ∧
     length pred = length rows ∧
     Forall (λ row, length row = Z.to_nat eval_k) pred).
Proof.
  intros Hinputs rows run.
  assert (0 ≤ N) as HN.
  { destruct Hwf as [(x & Hx & _) _ _]. apply lookup_lt_Some in Hx. lia. }
  destruct (test_loop model (chunk_starts N (batch_size args)) [] [])
    as (pl & Hfold & Hpreds & Hnil); [by apply Forall_forall | done..|].
  assert (Hchunks :
    mjoin ((λ s, chunk_at s) <$> chunk_starts N (batch_size args))
    = seqZ 0 N).
  { trans (mjoin (chunks (batch_size args) (seqZ 0 N)));
      [|by apply chunks_join].
    unfold chunks. rewrite length_seqZ. do 3 f_equal. lia. }
  rewrite app_nil_l, Hchunks in Hpreds, Hnil. fold rows in Hpreds, Hnil.
  assert (Hrun : run = pred ← torch_cat pl; Return (0 : Q, evaluate pred stage)).
  { unfold run, test. rewrite Hinputs. simpl.
    rewrite py_range_from_0 by done. simpl. by rewrite Hfold. }
  rewrite Hrun. split.
  - intros Hrows. apply Hnil in Hrows as ->. done.
  - intros Hrows. destruct (preds_ok model rows) as (pred & Hpred & Hlen & Hw).
    exists pred. split_and!; [done | | done..].
    rewrite Hpred in Hpreds. injection Hpreds as Hjoin.
    unfold torch_cat. rewrite <- Hjoin.
    destruct pred as [|row pred]; [by destruct rows|].
    apply Forall_cons in Hw as [Hrow Hw].
    rewrite bool_decide_eq_true_2; [done|].
    eapply Forall_impl; [exact Hw|]. simpl. congruence.
Qed.

(** X8.  [test], once the stage has chosen its adjacency and its target
    edges, for a positive [batch_size], [0 <= eval_k <= num_dst_nodes] and
    a network that scores each row of its input on its own.  The rows
    evaluated are the sources of a target edge, in increasing order, one
    prediction each, whatever the batch size.  The prediction of a row is a
    top-k selection from the scores of the multi-hot encoding of its
    neighbour list: [eval_k] distinct items, none left out scoring more
    than a selected one, listed by decreasing score; which of several
    equally scored items is taken is left open.  When no source has a
    target edge, [torch.cat] receives an empty list and [test] raises a
    [ValueError]. *)
Theorem test_predictions (model : Net) (data_dict : DataDict)
    (stage : String.string) :
  test_inputs num_src_nodes data_dict stage
  = Return (rowptr, col, test_edge_index) →
  let rows := filter wanted (seqZ 0 N) in
  let run := test F Net scores evaluate args num_src_nodes num_dst_nodes
               eval_k model data_dict stage in
  (rows = [] → run = Raise ValueError) ∧
  (rows ≠ [] →
   ∃ pred,
     run = Return (0 : Q, evaluate pred stage) ∧
     Forall2 (λ x p, top_k_of eval_k (score_row model x) p)
       (multi_hot num_dst_nodes rowptr col rows) pred).
Proof.
  intros Hinputs rows run.
  destruct (test_closed_form model data_dict stage Hinputs) as [Hnone Hsome].
  split; [exact Hnone|]. intros Hrows.
  destruct (Hsome Hrows) as (pred & Hpred & Hrun & _).
  exists pred. split; [exact Hrun|].
  apply mapM_Forall2 in Hpred. apply Forall2_fmap_l in Hpred.
  eapply Forall2_impl; [exact Hpred|]. intros x p. apply topk_top_k_of.
Qed.
End TestEpoch.

(** ** [test]: the adjacency of each stage *)

Lemma test_inputs_other num_src_nodes data_dict (s : String.string) :
  s ≠ Stage.val → s ≠ Stage.test →
  test_inputs num_src_nodes data_dict s = Raise ValueError.
Proof.
  intros Hval Htest. unfold test_inputs.
  by rewrite (proj2 (String.eqb_neq _ _) Hval),
             (proj2 (String.eqb_neq _ _) Htest).
Qed.

Lemma test_inputs_spec {F Net : Type}
    (scores : Net → list (list Q) → list (list Q))
    (evaluate : list (list Z) → String.string → Q) (args : Args F)
    (num_src_nodes num_dst_nodes eval_k : Z) (model : Net)
    (data_dict : DataDict) (rowptr_train rowptr_val rowptr_test : list Z)
    (train_edges val_edges test_edges : list (Z * Z)) :
  dd_train data_dict = (rowptr_train, train_edges) →
  dd_val data_dict = (rowptr_val, val_edges) →
  dd_test data_dict = (rowptr_test, test_edges) →
  test_inputs num_src_nodes data_dict Stage.val
  = Return (rowptr_train, train_edges.*2, val_edges) ∧
  (valid_edges (train_edges ++ val_edges) →
   Forall (λ e, e.1 < num_src_nodes) (train_edges ++ val_edges) →
   0 ≤ num_src_nodes →
   maybe_num_nodes (train_edges ++ val_edges)
   * maybe_num_nodes (train_edges ++ val_edges) ≤ MAX_INT64 →
   ∃ (rowptr : list Z) (edge_index : list (Z * Z)),
     test_inputs num_src_nodes data_dict Stage.test
     = Return (rowptr, edge_index.*2, test_edges) ∧
     coalesce (train_edges ++ val_edges) = Return edge_index ∧
     Z.of_nat (length rowptr) = num_src_nodes + 1 ∧
     csr_well_formed rowptr edge_index.*2 ∧
     ∀ r, 0 ≤ r < num_src_nodes →
       StronglySorted Z.lt (neighbours rowptr edge_index.*2 r) ∧
       ∀ d, d ∈ neighbours rowptr edge_index.*2 r ↔
            (r, d) ∈ train_edges ∨ (r, d) ∈ val_edges) ∧
  (∀ s, s ≠ Stage.val → s ≠ Stage.test →
     test F Net scores evaluate args num_src_nodes num_dst_nodes eval_k
       model data_dict s = Raise ValueError).
Proof.
  intros Htrain Hval Htest. split_and!.
  - unfold test_inputs. simpl. by rewrite Htrain, Hval.
  - intros Hv Hsrc Hsize Hn.
    destruct (load_split_spec num_src_nodes (train_edges ++ val_edges)
                Hv Hsrc Hsize Hn)
      as (rowptr & e' & Hload & Hco & Hlen & Hwf & Hrows).
    exists rowptr, e'. split_and!; [|done..|].
    + unfold test_inputs. simpl. rewrite Htrain, Hval, Htest, Hco. simpl.
      unfold load_split in Hload. rewrite Hco in Hload. simpl in Hload.
      by destruct (_convert_indices_from_coo_to_csr _ _) as [|rp];
        [|injection Hload as ->].
    + intros r Hr. destruct (Hrows r Hr) as (_ & Hs & Hel).
      split; [done|]. intros d. by rewrite Hel, elem_of_app.
  - intros s Hs1 Hs2. unfold test.
    by rewrite test_inputs_other.
Qed.

(** X9.  What [test] reads at each stage.  At ['val'] the model sees the
    training adjacency as loaded and is scored on the validation edges.  At
    ['test'] the adjacency is rebuilt from the training and validation edges
    together: it is a well-formed CSR adjacency in which the neighbours of
    a source are its destinations in either split, each once and in
    increasing order, and the model is scored on the test edges.  Any other
    stage name raises a [ValueError]. *)
Theorem test_inputs_by_stage {F Net : Type}
    (scores : Net → list (list Q) → list (list Q))
    (evaluate : list (list Z) → String.string → Q) (args : Args F)
    (num_src_nodes num_dst_nodes eval_k : Z) (model : Net)
    (data_dict : DataDict) (rowptr_train rowptr_val rowptr_test : list Z)
    (train_edges val_edges test_edges : list (Z * Z)) :
  dd_train data_dict = (rowptr_train, train_edges) →
  dd_val data_dict = (rowptr_val, val_edges) →
  dd_test data_dict = (rowptr_test, test_edges) →
  test_inputs num_src_nodes data_dict Stage.val
  = Return (rowptr_train, train_edges.*2, val_edges) ∧
  (valid_edges (train_edges ++ val_edges) →
   Forall (λ e, e.1 < num_src_nodes) (train_edges ++ val_edges) →
   0 ≤ num_src_nodes →
   maybe_num_nodes (train_edges ++ val_edges)
   * maybe_num_nodes (train_edges ++ val_edges) ≤ MAX_INT64 →
   ∃ (rowptr : list Z) (edge_index : list (Z * Z)),
     test_inputs num_src_nodes data_dict Stage.test
     = Return (rowptr, edge_index.*2, test_edges) ∧
     coalesce (train_edges ++ val_edges) = Return edge_index ∧
     Z.of_nat (length rowptr) = num_src_nodes + 1 ∧
     csr_well_formed rowptr edge_index.*2 ∧
     ∀ r, 0 ≤ r < num_src_nodes →
       StronglySorted Z.lt (neighbours rowptr edge_index.*2 r) ∧
       ∀ d, d ∈ neighbours rowptr edge_index.*2 r ↔
            (r, d) ∈ train_edges ∨ (r, d) ∈ val_edges) ∧
  (∀ s, s ≠ Stage.val → s ≠ Stage.test →
     test F Net scores evaluate args num_src_nodes num_dst_nodes eval_k
       model data_dict s = Raise ValueError).
Proof. apply test_inputs_spec. Qed.

Lemma test_inputs_by_stage_witness :
  ∃ (rowptr : list Z) (edge_index : list (Z * Z)),
    test_inputs 3
      {| dd_train := ([0; 1; 1; 2], [(0, 3); (2, 1)]);
         dd_val := ([0; 1; 1; 1], [(0, 5)]);
         dd_test := ([0; 0; 0; 1], [(2, 4)]) |} Stage.test
    = Return (rowptr, edge_index.*2, [(2, 4)]) ∧
    ∀ d, d ∈ neighbours rowptr edge_index.*2 0 ↔
         (0, d) ∈ [(0, 3); (2, 1)] ∨ (0, d) ∈ [(0, 5)].
Proof.
  destruct (test_inputs_by_stage (F := Q) (Net := Z) (λ _ x, x) (λ _ _, 0%Q)
              {| batch_size := 2; epochs := 1; total_anneal_steps := 0;
                 anneal_cap := 0%Q; seed := 42 |} 3 6 2 0
              {| dd_train := ([0; 1; 1; 2], [(0, 3); (2, 1)]);
                 dd_val := ([0; 1; 1; 1], [(0, 5)]);
                 dd_test := ([0; 0; 0; 1], [(2, 4)]) |}
              [0; 1; 1; 2] [0; 1; 1; 1] [0; 0; 0; 1]
              [(0, 3); (2, 1)] [(0, 5)] [(2, 4)])
    as (_ & Htest & _); [reflexivity..|].
  destruct Htest as (rowptr & e' & Hrun & _ & _ & _ & Hrows).
  - repeat constructor; simpl; lia.
  - repeat constructor; simpl; lia.
  - lia.
  - vm_compute. discriminate.
  - exists rowptr, e'. split; [done|]. apply (Hrows 0). lia.
Defined.

(** ** A batch size that is not positive *)

Lemma py_range_empty N step : step < 0 → 0 ≤ N → py_range 0 N step = Return [].
Proof.
  intros Hstep HN. unfold py_range.
  rewrite !bool_decide_eq_false_2 by lia.
  rewrite seqZ_nil; [done|].
  assert ((0 - N - step - 1) `div` (- step) < 1); [|lia].
  apply Z.div_lt_upper_bound; lia.
Qed.

(** X10.  [batch_size] is the step of [range(0, N, batch_size)] in [train]
    and in [test].  With [batch_size = 0] both raise a [ValueError].  With
    a negative [batch_size] the range is empty: [train] returns without an
    optimisation step, the model and [total_optimization_steps] unchanged,
    and [test] raises a [ValueError] of its own at [torch.cat], which
    receives an empty list. *)
Theorem batch_size_not_positive {F Net Rng : Type} (fzero : F)
    (fadd : F → F → F) (fdiv_int : F → Z → F) (true_div : Z → Z → F)
    (fmin : F → F → F) (shuffle : Rng → list Z → list Z * Rng)
    (fit : Net → list (list Q) → F → Net * F)
    (scores : Net → list (list Q) → list (list Q))
    (evaluate : list (list Z) → String.string → Q) (args : Args F)
    (num_src_nodes num_dst_nodes eval_k : Z) (model : Net)
    (total_optimization_steps : Z) (rng : Rng) (data_dict : DataDict)
    (stage : String.string) (rowptr col : list Z)
    (test_edge_index : list (Z * Z)) :
  rowptr ≠ [] →
  (dd_train data_dict).1 = rowptr →
  test_inputs num_src_nodes data_dict stage
  = Return (rowptr, col, test_edge_index) →
  let N := Z.of_nat (length rowptr) - 1 in
  let train_run :=
    train F Net Rng fzero fadd fdiv_int true_div fmin shuffle fit args
      num_dst_nodes model total_optimization_steps rng data_dict in
  let test_run :=
    test F Net scores evaluate args num_src_nodes num_dst_nodes eval_k model
      data_dict stage in
  (batch_size args = 0 →
   train_run = Raise ValueError ∧ test_run = Raise ValueError) ∧
  (batch_size args < 0 →
   train_run
   = Return (model, total_optimization_steps, (shuffle rng (seqZ 0 N)).2,
             fdiv_int fzero N) ∧
   test_run = Raise ValueError).
Proof.
  intros Hne Htrain Hinputs N train_run test_run.
  assert (0 ≤ N) as HN by (unfold N; destruct rowptr; [done | simpl; lia]).
  unfold train_run, test_run, train, test.
  destruct (dd_train data_dict) as [rowptr' edge_index] eqn:Hdd.
  simpl in Htrain. subst rowptr'. rewrite Hinputs. simpl. fold N.
  destruct (shuffle rng (seqZ 0 N)) as [idxlist rng']. simpl. split.
  - intros Hbs. rewrite Hbs. done.
  - intros Hbs. rewrite !py_range_empty by done. done.
Qed.

Lemma batch_size_not_positive_witness :
  train Q Z unit 0%Q Qplus (λ a _, a) (λ a b, inject_Z a) (λ a _, a)
    (λ rng l, (reverse l, rng)) (λ m _ a, (m + 1, a))
    {| batch_size := 0; epochs := 3; total_anneal_steps := 0;
       anneal_cap := 1%Q; seed := 42 |} 30 0 5 tt example_data
  = Raise ValueError ∧
  test Q Z (λ _ x, x) (λ _ _, 1%Q)
    {| batch_size := -2; epochs := 3; total_anneal_steps := 0;
       anneal_cap := 1%Q; seed := 42 |} 3 30 2 0 example_data Stage.val
  = Raise ValueError.
Proof.
  split.
  - destruct (batch_size_not_positive 0%Q Qplus (λ a _, a)
                (λ a b, inject_Z a) (λ a _, a)
                (λ (rng : unit) l, (reverse l, rng))
                (λ (m : Z) _ a, (m + 1, a)) (λ _ x, x) (λ _ _, 1%Q)
                {| batch_size := 0; epochs := 3; total_anneal_steps := 0;
                   anneal_cap := 1%Q; seed := 42 |} 3 30 2 0 5 tt
                example_data Stage.val
                [0; 2; 2; 5] [10; 11; 20; 21; 22] [(0, 12); (2, 23)])
      as [Hzero _].
    + discriminate.
    + reflexivity.
    + reflexivity.
    + by apply Hzero.
  - destruct (batch_size_not_positive 0%Q Qplus (λ a _, a)
                (λ a b, inject_Z a) (λ a _, a)
                (λ (rng : unit) l, (reverse l, rng))
                (λ (m : Z) _ a, (m + 1, a)) (λ _ x, x) (λ _ _, 1%Q)
                {| batch_size := -2; epochs := 3; total_anneal_steps := 0;
                   anneal_cap := 1%Q; seed := 42 |} 3 30 2 0 5 tt
                example_data Stage.val
                [0; 2; 2; 5] [10; 11; 20; 21; 22] [(0, 12); (2, 23)])
      as [_ Hneg].
    + discriminate.
    + reflexivity.
    + reflexivity.
    + apply Hneg. simpl. lia.
Defined.

(** ** The layers of [MultiVAE] *)

Lemma mapM_Linear l :
  (Forall (λ d, 0 ≤ d.1 ∧ 0 ≤ d.2) l → mapM Linear l = Return l) ∧
  (∀ l', mapM Linear l = Return l' → l' = l).
Proof.
  induction l as [|d l [IH1 IH2]]; [split; [done | by intros ? [= <-]]|].
  split.
  - intros [Hd Hl]%Forall_cons. simpl.
    assert (Linear d = Return d) as ->
      by (unfold Linear; by rewrite bool_decide_eq_true_2).
    simpl. by rewrite IH1.
  - intros l'. simpl.
    destruct (Linear d) as [|d'] eqn:Hd; [done|].
    assert (d' = d) as ->.
    { unfold Linear in Hd. case_bool_decide; congruence. }
    simpl. destruct (mapM Linear l) as [|k]; [done|]. simpl. intros [= <-].
    f_equal. by apply IH2.
Qed.

Lemma py_slice_init {A} (l : list A) :
  py_slice l 0 (-1) = take (length l - 1) l.
Proof.
  unfold py_slice, slice_index.
  rewrite (bool_decide_eq_true_2 (-1 < 0)) by lia.
  rewrite (bool_decide_eq_false_2 (0 < 0)) by lia.
  rewrite Z.min_l by lia. simpl. f_equal. lia.
Qed.

Lemma py_slice_mid {A} (l : list A) :
  py_slice l 1 (-1) = take (length l - 2) (drop 1 l).
Proof.
  unfold py_slice, slice_index.
  rewrite (bool_decide_eq_true_2 (-1 < 0)) by lia.
  rewrite (bool_decide_eq_false_2 (1 < 0)) by lia.
  destruct l as [|x l]; [done|]. rewrite Z.min_l by (simpl; lia).
  f_equal. simpl. lia.
Qed.

Lemma getitem_last {A} (l : list A) :
  getitem l (-1)
  = match last l with Some x => Return x | None => Raise IndexError end.
Proof.
  unfold getitem, norm_index.
  rewrite bool_decide_eq_false_2 by lia.
  destruct l as [|x l]; [done|].
  rewrite bool_decide_eq_true_2 by (simpl; lia). simpl.
  rewrite last_lookup. simpl.
  by replace (Z.to_nat (-1 + Z.of_nat (S (length l))))
    with (length l) by lia.
Qed.

Lemma getitem_first {A} (l : list A) :
  getitem l 0
  = match head l with Some x => Return x | None => Raise IndexError end.
Proof.
  destruct l as [|x l]; [done|]. unfold getitem, norm_index.
  by rewrite bool_decide_eq_true_2 by (simpl; lia).
Qed.

Lemma pairs_lookup (l : list Z) i a b :
  zip (take (length l - 1) l) (drop 1 l) !! i = Some (a, b) ↔
  l !! i = Some a ∧ l !! S i = Some b.
Proof.
  rewrite lookup_zip_with_Some. split.
  - intros (x & y & [= <- <-] & [Hx _]%lookup_take_Some & Hy).
    rewrite lookup_drop in Hy. done.
  - intros [Ha Hb]. exists a, b. split_and!; [done| |by rewrite lookup_drop].
    apply lookup_take_Some. split; [done|].
    apply lookup_lt_Some in Hb. lia.
Qed.

Lemma encoder_pairs_lookup (l : list Z) (x : Z) i a b :
  zip (take (length l - 1) l) (take (length l - 2) (drop 1 l) ++ [x]) !! i
  = Some (a, b) →
  l !! i = Some a ∧ (S i < length l)%nat ∧
  (if decide (S (S i) = length l) then b = x else l !! S i = Some b).
Proof.
  intros (a' & b' & [= <- <-] & [Ha Hi]%lookup_take_Some & Hb)%lookup_zip_with_Some.
  split_and!; [done | lia |].
  destruct (decide (S (S i) = length l)) as [Hlast|Hmid].
  - rewrite lookup_app_r in Hb by (rewrite length_take, length_drop; lia).
    rewrite length_take, length_drop in Hb.
    replace (i - (length l - 2) `min` (length l - 1))%nat with 0%nat in Hb
      by lia.
    by injection Hb.
  - rewrite lookup_app_l in Hb by (rewrite length_take, length_drop; lia).
    apply lookup_take_Some in Hb as [Hb _]. by rewrite lookup_drop in Hb.
Qed.

Lemma dims_differ_false q i p j :
  dims_differ q i p j = Return false →
  match q with
  | Some (q0 :: qs) =>
      ∃ a, getitem (q0 :: qs) i = Return a ∧ getitem p j = Return a
  | _ => True
  end.
Proof.
  destruct q as [[|q0 qs]|]; [done| |done]. unfold dims_differ.
  destruct (getitem (q0 :: qs) i) as [|a]; [done|]. simpl.
  destruct (getitem p j) as [|b]; [done|]. simpl.
  case_bool_decide as Hne; [done|]. subst. eauto.
Qed.

Lemma MultiVAE_layers_Return p q m :
  MultiVAE_layers p q = Return m →
  let qd := encoder_dims p q in
  p_dims m = p ∧ q_dims m = qd ∧
  p_layers m = zip (take (length p - 1) p) (drop 1 p) ∧
  (∃ x, last qd = Some x ∧
        q_layers m
        = zip (take (length qd - 1) qd)
            (take (length qd - 2) (drop 1 qd) ++ [x * 2])) ∧
  head qd = last p ∧ last qd = head p.
Proof.
  intros Hrun qd. unfold MultiVAE_layers in Hrun.
  fold (encoder_dims p q) in Hrun. fold qd in Hrun.
  destruct (dims_differ q 0 p (-1)) as [|[|]] eqn:H1; try done.
  simpl in Hrun.
  destruct (dims_differ q (-1) p 0) as [|[|]] eqn:H2; try done.
  simpl in Hrun.
  apply dims_differ_false in H1, H2.
  assert (Hends : head qd = last p ∧ last qd = head p).
  { subst qd. destruct q as [[|q0 qs]|]; simpl;
      [by rewrite head_reverse, last_reverse| |
       by rewrite head_reverse, last_reverse].
    destruct H1 as (a & Ha & Hb). destruct H2 as (a' & Ha' & Hb').
    rewrite getitem_first in Ha. rewrite getitem_last in Hb, Ha'.
    rewrite getitem_first in Hb'. simpl in Ha. injection Ha as <-.
    destruct (last p); [|done]. destruct (last (q0 :: qs)); [|done].
    destruct (head p); [|done]. by simplify_eq. }
  clear H1 H2.
  destruct (mapM Linear (zip (py_slice p 0 (-1)) (drop 1 p)))
    as [|pl] eqn:Hpl; [done|]. simpl in Hrun.
  rewrite getitem_last in Hrun.
  destruct (last qd) as [x|] eqn:Hx; [|done]. simpl in Hrun.
  destruct (mapM Linear _) as [|ql] eqn:Hql in Hrun; [done|].
  simpl in Hrun. injection Hrun as <-. simpl.
  apply mapM_Linear in Hpl as ->. apply mapM_Linear in Hql as ->.
  rewrite !py_slice_init, py_slice_mid.
  destruct Hends. split_and!; [done..| |done|done].
  by exists x.
Qed.

Lemma Forall_zip_nonneg (l1 l2 : list Z) :
  Forall (λ d, 0 ≤ d) l1 → Forall (λ d, 0 ≤ d) l2 →
  Forall (λ d : Z * Z, 0 ≤ d.1 ∧ 0 ≤ d.2) (zip l1 l2).
Proof.
  rewrite !Forall_forall. intros H1 H2 [a b] Hin. simpl. split.
  - apply H1. by eapply elem_of_zip_l.
  - apply H2. by eapply elem_of_zip_r.
Qed.

Lemma MultiVAE_layers_accepts p q :
  p ≠ [] →
  Forall (λ d, 0 ≤ d) p → Forall (λ d, 0 ≤ d) (encoder_dims p q) →
  head (encoder_dims p q) = last p → last (encoder_dims p q) = head p →
  ∃ m, MultiVAE_layers p q = Return m.
Proof.
  intros Hne Hp Hq Hhead Hlast. unfold MultiVAE_layers.
  fold (encoder_dims p q). set (qd := encoder_dims p q) in *.
  destruct (last p) as [a|] eqn:Ha; [|by apply last_None in Ha].
  destruct (head p) as [b|] eqn:Hb; [|by apply head_None in Hb].
  assert (dims_differ q 0 p (-1) = Return false) as ->.
  { unfold dims_differ. destruct q as [[|q0 qs]|]; [done| |done].
    rewrite getitem_first, getitem_last, Ha. simpl in Hhead |- *.
    injection Hhead as ->. by rewrite bool_decide_eq_false_2 by auto. }
  simpl.
  assert (dims_differ q (-1) p 0 = Return false) as ->.
  { unfold dims_differ. destruct q as [[|q0 qs]|]; [done| |done].
    rewrite getitem_first, getitem_last, Hb. unfold qd in Hlast.
    simpl in Hlast. rewrite Hlast. simpl.
    by rewrite bool_decide_eq_false_2 by auto. }
  simpl.
  rewrite (proj1 (mapM_Linear _)).
  2:{ rewrite py_slice_init.
      apply Forall_zip_nonneg; [by apply Forall_take | by apply Forall_drop]. }
  simpl. rewrite getitem_last, Hlast. simpl.
  rewrite (proj1 (mapM_Linear _)); [by eexists|].
  rewrite py_slice_init, py_slice_mid.
  apply Forall_zip_nonneg; [by apply Forall_take|].
  apply Forall_app. split; [by apply Forall_take, Forall_drop|].
  apply Forall_singleton.
  assert (0 ≤ b); [|lia].
  apply (proj1 (Forall_forall _ _) Hp). apply head_Some in Hb as [? ->].
  by left.
Qed.

Lemma reset_layers_spec layers :
  (Exists (λ d : Z * Z, d.1 + d.2 = 0) layers →
   reset_layers layers = ZeroDivisionError) ∧
  (Forall (λ d : Z * Z, d.1 + d.2 ≠ 0) layers →
   reset_layers layers = Finished ()).
Proof.
  induction layers as [|d layers [IH1 IH2]].
  - split; [by intros ?%Exists_nil | done].
  - simpl. unfold xavier_uniform_. split.
    + intros [Hd|Hl]%Exists_cons.
      * by rewrite bool_decide_eq_true_2.
      * case_bool_decide; [done|]. simpl. by apply IH1.
    + intros [Hd Hl]%Forall_cons.
      rewrite bool_decide_eq_false_2 by done. simpl. by apply IH2.
Qed.

Lemma reset_layers_Finished layers :
  reset_layers layers = Finished () →
  Forall (λ d : Z * Z, d.1 + d.2 ≠ 0) layers.
Proof.
  intros Hrun. apply Forall_forall. intros d Hd Hzero.
  destruct (reset_layers_spec layers) as [Hraise _].
  rewrite Hraise in Hrun; [done|].
  apply Exists_exists. by exists d.
Qed.

Lemma MultiVAE_init_Finished p q m :
  MultiVAE_init p q = Finished m ↔
  MultiVAE_layers p q = Return m ∧
  Forall (λ d : Z * Z, d.1 + d.2 ≠ 0) (p_layers m ++ q_layers m).
Proof.
  unfold MultiVAE_init, reset_parameters.
  destruct (MultiVAE_layers p q) as [e|m']; simpl.
  - split; [done | by intros [? _]].
  - destruct (reset_layers (p_layers m' ++ q_layers m')) as [| | | |[]] eqn:Hr;
      simpl; try (split; [done|]; intros [[= ->] Hall];
                  apply reset_layers_spec in Hall; congruence).
    split.
    + intros [= ->]. split; [done|]. by apply reset_layers_Finished.
    + by intros [[= ->] _].
Qed.

Lemma adjacent_zeros_reverse (l : list Z) :
  adjacent_zeros (reverse l) → adjacent_zeros l.
Proof.
  intros (i & Ha & Hb).
  pose proof (lookup_lt_Some _ _ _ Hb) as Hi. rewrite length_reverse in Hi.
  rewrite reverse_lookup in Ha by lia. rewrite reverse_lookup in Hb by lia.
  exists (length l - S (S i))%nat. split; [done|].
  by replace (S (length l - S (S i))) with (length l - S i)%nat by lia.
Qed.

(** The layers built from non-negative dimensions without two neighbouring
    zeros all have a positive [fan_in + fan_out]. *)
Lemma decoder_layers_fan (l : list Z) :
  Forall (λ d, 0 ≤ d) l → ¬ adjacent_zeros l →
  Forall (λ d : Z * Z, d.1 + d.2 ≠ 0) (zip (take (length l - 1) l) (drop 1 l)).
Proof.
  intros Hl Hadj. apply Forall_forall. intros [a b] Hin Hzero.
  apply list_elem_of_lookup in Hin as [i [Ha Hb]%pairs_lookup].
  assert (0 ≤ a) by (eapply (proj1 (Forall_forall _ _) Hl);
                     by eapply list_elem_of_lookup_2).
  assert (0 ≤ b) by (eapply (proj1 (Forall_forall _ _) Hl);
                     by eapply list_elem_of_lookup_2).
  simpl in Hzero. apply Hadj. exists i.
  by replace a with 0 in Ha by lia; replace b with 0 in Hb by lia.
Qed.

Lemma encoder_layers_fan (l : list Z) (x : Z) :
  Forall (λ d, 0 ≤ d) l → ¬ adjacent_zeros l → last l = Some x →
  Forall (λ d : Z * Z, d.1 + d.2 ≠ 0)
    (zip (take (length l - 1) l) (take (length l - 2) (drop 1 l) ++ [x * 2])).
Proof.
  intros Hl Hadj Hx. apply Forall_forall. intros [a b] Hin Hzero.
  apply list_elem_of_lookup in Hin as [i Hi].
  apply encoder_pairs_lookup in Hi as (Ha & Hlen & Hb).
  assert (∃ b', l !! S i = Some b' ∧ (b = b' ∨ b = b' * 2)) as (b' & Hb' & Hbb).
  { destruct (decide (S (S i) = length l)) as [Hlast|_].
    - exists x. split; [|by right].
      rewrite last_lookup in Hx. by replace (S i) with (pred (length l)) by lia.
    - exists b. by split; [|left]. }
  assert (0 ≤ a) by (eapply (proj1 (Forall_forall _ _) Hl);
                     by eapply list_elem_of_lookup_2).
  assert (0 ≤ b') by (eapply (proj1 (Forall_forall _ _) Hl);
                      by eapply list_elem_of_lookup_2).
  simpl in Hzero. apply Hadj. exists i.
  by replace a with 0 in Ha by lia; replace b' with 0 in Hb' by lia.
Qed.

(** [__init__] without encoder dimensions of its own. *)
Lemma MultiVAE_init_default p q :
  q = None ∨ q = Some [] → p ≠ [] → Forall (λ d, 0 ≤ d) p →
  (adjacent_zeros p → MultiVAE_init p q = ZeroDivisionError) ∧
  (¬ adjacent_zeros p →
   ∃ m, MultiVAE_init p q = Finished m ∧ q_dims m = reverse p).
Proof.
  intros Hq Hne Hp.
  assert (encoder_dims p q = reverse p) as Hqd by (by destruct Hq as [->| ->]).
  destruct (MultiVAE_layers_accepts p q) as [m Hm]; [done..| | | |].
  { rewrite Hqd. by apply Forall_reverse. }
  { by rewrite Hqd, head_reverse. }
  { by rewrite Hqd, last_reverse. }
  destruct (MultiVAE_layers_Return p q m Hm)
    as (_ & Hqm & Hpl & (x & Hx & Hql) & _).
  rewrite Hqd in Hqm, Hx, Hql. split.
  - intros (i & Ha & Hb). unfold MultiVAE_init, reset_parameters.
    rewrite Hm. simpl.
    rewrite (proj1 (reset_layers_spec _)); [done|].
    apply Exists_app. left. apply Exists_exists. exists (0, 0).
    split; [|done]. rewrite Hpl. apply list_elem_of_lookup. exists i.
    by apply pairs_lookup.
  - intros Hadj. exists m. split; [|done].
    apply MultiVAE_init_Finished. split; [done|].
    apply Forall_app. split.
    + rewrite Hpl. by apply decoder_layers_fan.
    + rewrite Hql. apply encoder_layers_fan; [by apply Forall_reverse| |done].
      intros Hrev. by apply Hadj, adjacent_zeros_reverse.
Qed.

(** X11.  The dimensions [MultiVAE.__init__] accepts.  Without [q_dims]
    (or with an empty one) the encoder takes the decoder dimensions in
    reverse; a non-empty list of non-negative [p_dims] is then accepted
    unless two neighbouring dimensions are both zero, in which case
    [reset_parameters] raises a [ZeroDivisionError] in [xavier_uniform_].
    A given [q_dims] whose first entry is not the last of [p_dims], or
    whose last entry is not the first of [p_dims], raises a [ValueError];
    an empty [p_dims] raises an [IndexError].  In every accepted model each
    layer's output width is the next layer's input width, the encoder ends
    on twice the width the decoder starts from (mean and log-variance),
    the encoder starts from the width the decoder ends on, and no layer has
    both widths zero. *)
Theorem MultiVAE_init_dims (p : list Z) (q : option (list Z)) :
  (q = None ∨ q = Some [] → p ≠ [] → Forall (λ d, 0 ≤ d) p →
   (adjacent_zeros p → MultiVAE_init p q = ZeroDivisionError) ∧
   (¬ adjacent_zeros p →
    ∃ m, MultiVAE_init p q = Finished m ∧ q_dims m = reverse p)) ∧
  (∀ q0 qs a b, q = Some (q0 :: qs) → last p = Some a → head p = Some b →
     q0 ≠ a ∨ last (q0 :: qs) ≠ Some b →
     MultiVAE_init p q = Raised ValueError) ∧
  (p = [] → MultiVAE_init p q = Raised IndexError) ∧
  (∀ m, MultiVAE_init p q = Finished m →
     length (p_layers m) = pred (length (p_dims m)) ∧
     length (q_layers m) = pred (length (q_dims m)) ∧
     composable (p_layers m) ∧ composable (q_layers m) ∧
     (∀ a b, last (q_layers m) = Some a → head (p_layers m) = Some b →
             a.2 = 2 * b.1) ∧
     (∀ a b, head (q_layers m) = Some a → last (p_layers m) = Some b →
             a.1 = b.2) ∧
     Forall (λ d : Z * Z, d.1 + d.2 ≠ 0) (p_layers m ++ q_layers m)).
Proof.
  split_and!.
  - apply MultiVAE_init_default.
  - intros q0 qs a b -> Ha Hb Hbad.
    unfold MultiVAE_init, MultiVAE_layers, dims_differ.
    rewrite !getitem_first, !getitem_last, Ha, Hb. simpl.
    case_bool_decide as H1; [done|]. simpl.
    destruct Hbad as [Hbad|Hbad]; [done|].
    destruct (last (q0 :: qs)) as [x|] eqn:Hx; [|by apply last_None in Hx].
    simpl. rewrite bool_decide_eq_true_2; [done|]. congruence.
  - intros ->. unfold MultiVAE_init, MultiVAE_layers, dims_differ.
    by destruct q as [[|q0 qs]|].
  - intros m [Hm Hfan]%MultiVAE_init_Finished.
    destruct (MultiVAE_layers_Return p q m Hm)
      as (-> & -> & Hpl & (x & Hx & Hql) & Hhead & Hlast).
    set (qd := encoder_dims p q) in *.
    assert (qd ≠ []) as Hqne by (intros Heq; by rewrite Heq in Hx).
    assert (0 < length qd)%nat as Hqlen by (destruct qd; [done | simpl; lia]).
    assert (Hlp : length (p_layers m) = pred (length p)).
    { rewrite Hpl, length_zip_with, length_take, length_drop. lia. }
    assert (Hlq : length (q_layers m) = pred (length qd)).
    { rewrite Hql, length_zip_with, length_app, !length_take, length_drop.
      simpl. lia. }
    split_and!; [done | done | | | | | done].
    + intros i [a1 a2] [b1 b2]. rewrite Hpl.
      intros [_ Ha]%pairs_lookup [Hb _]%pairs_lookup. simpl. congruence.
    + intros i [a1 a2] [b1 b2] Ha Hb.
      pose proof (lookup_lt_Some _ _ _ Hb) as Hi. rewrite Hlq in Hi.
      rewrite Hql in Ha, Hb.
      apply encoder_pairs_lookup in Ha as (_ & _ & Ha).
      apply encoder_pairs_lookup in Hb as (Hb & _).
      rewrite decide_False in Ha by lia. simpl. congruence.
    + intros [a1 a2] [b1 b2]. rewrite last_lookup, head_lookup, Hlq.
      rewrite Hql, Hpl.
      intros (_ & Hi & Ha)%encoder_pairs_lookup [Hb _]%pairs_lookup.
      rewrite decide_True in Ha by lia. simpl.
      rewrite Hlast, head_lookup, Hb in Hx. injection Hx as ->. lia.
    + intros [a1 a2] [b1 b2]. rewrite last_lookup, head_lookup, Hlp.
      rewrite Hql, Hpl.
      intros (Ha & _)%encoder_pairs_lookup Hb.
      pose proof (lookup_lt_Some _ _ _ Hb) as Hi.
      rewrite length_zip_with, length_take, length_drop in Hi.
      apply pairs_lookup in Hb as [_ Hb]. simpl.
      rewrite head_lookup, Ha, last_lookup in Hhead.
      replace (S (pred (pred (length p)))) with (pred (length p)) in Hb
        by lia.
      congruence.
Qed.

Lemma MultiVAE_init_dims_witness :
  (∃ m, MultiVAE_init [200; 600; 30] None = Finished m ∧
        q_dims m = [30; 600; 200]) ∧
  MultiVAE_init [5; 0; 0] None = ZeroDivisionError.
Proof.
  split.
  - destruct (MultiVAE_init_dims [200; 600; 30] None) as [Hdefault _].
    destruct Hdefault as [_ Hok].
    + by left.
    + discriminate.
    + repeat constructor; lia.
    + apply Hok. intros (i & Ha & Hb).
      destruct i as [|[|[|i]]]; simpl in Ha, Hb; discriminate.
  - destruct (MultiVAE_init_dims [5; 0; 0] None) as [Hdefault _].
    destruct Hdefault as [Hzero _].
    + by left.
    + discriminate.
    + repeat constructor; lia.
    + apply Hzero. by exists 1%nat.
Defined.

(** ** The loop of [main] *)

Lemma track_le best v : (best <= track best v)%Q.
Proof.
  unfold track. case_bool_decide; [by apply Qlt_le_weak | apply Qle_refl].
Qed.

Section MainLoop.
Context {F Net Rng : Type} (fzero : F) (fadd : F → F → F).
Context (fdiv_int : F → Z → F) (true_div : Z → Z → F) (fmin : F → F → F).
Context (shuffle : Rng → list Z → list Z * Rng).
Context (fit : Net → list (list Q) → F → Net * F).
Context (scores : Net → list (list Q) → list (list Q)).
Context (evaluate : list (list Z) → String.string → Q).
Context (sub_atol : Q → Q).
Context (args : Args F) (num_src_nodes num_dst_nodes eval_k : Z).
Context (score_row : Net → list Q → list Q).
Context (data_dict : DataDict) (rowptr rowptr_val : list Z).
Context (edge_index val_edge_index : list (Z * Z)).
Hypothesis Htrain : dd_train data_dict = (rowptr, edge_index).
Hypothesis Hval : dd_val data_dict = (rowptr_val, val_edge_index).
Hypothesis Hwf : csr_well_formed rowptr edge_index.*2.
Hypothesis Hrowptr64 : Z.of_nat (length rowptr) ≤ 2 ^ 63.
Hypothesis Hcol64 : Z.of_nat (length edge_index.*2) < 2 ^ 63.
Hypothesis Hdst : Forall (λ d, 0 ≤ d < num_dst_nodes) edge_index.*2.
Hypothesis Hbs : 0 < batch_size args.
Hypothesis Hk : 0 ≤ eval_k ≤ num_dst_nodes.
Hypothesis Hshuffle : ∀ rng l, (shuffle rng l).1 ≡ₚ l.
Hypothesis Hrowwise : ∀ model x, scores model x = score_row model <$> x.
Hypothesis Hwidth : ∀ model row,
  length row = Z.to_nat num_dst_nodes →
  length (score_row model row) = Z.to_nat num_dst_nodes.
Hypothesis Hsome :
  filter (λ s, s ∈ val_edge_index.*1)
    (seqZ 0 (Z.of_nat (length rowptr) - 1)) ≠ [].

Local Abbreviation train' :=
  (train F Net Rng fzero fadd fdiv_int true_div fmin shuffle fit args
     num_dst_nodes).
Local Abbreviation test' :=
  (test F Net scores evaluate args num_src_nodes num_dst_nodes eval_k).
Local Abbreviation loop :=
  (epoch_loop F Net Rng fzero fadd fdiv_int true_div fmin shuffle fit scores
     evaluate sub_atol args num_src_nodes num_dst_nodes eval_k data_dict).

Lemma train_returns m steps rng :
  ∃ r, train' m steps rng data_dict = Return r.
Proof.
  assert (0 ≤ num_dst_nodes) as Hnum by lia.
  destruct (train_closed_form fzero fadd fdiv_int true_div fmin shuffle fit
              args num_dst_nodes rowptr edge_index Hwf Hrowptr64 Hcol64 Hdst
              Hnum Hbs data_dict m steps rng Htrain (Hshuffle rng))
    as (Hrun & _).
  eauto.
Qed.

Lemma validate_returns m :
  ∃ v, test' m data_dict Stage.val = Return (0 : Q, v).
Proof.
  destruct (test_closed_form scores evaluate args num_src_nodes num_dst_nodes
              eval_k score_row rowptr edge_index.*2 val_edge_index Hwf
              Hrowptr64 Hcol64 Hdst Hbs Hk Hrowwise Hwidth m data_dict
              Stage.val) as (_ & Hrun).
  - unfold test_inputs. simpl. by rewrite Htrain, Hval.
  - destruct (Hrun Hsome) as (pred & _ & Hpred & _). eauto.
Qed.

Lemma closing_line_cons (l : Z * F * Q * Q) lines :
  (lines = [] → stops_early sub_atol l = false) →
  closing_line sub_atol (l :: lines) = closing_line sub_atol lines.
Proof.
  intros Hl. unfold closing_line. destruct lines as [|l' lines]; [|done].
  simpl. by rewrite Hl.
Qed.

Lemma epoch_loop_spec (k : nat) (a : Z) (s : Progress F Net Rng) :
  ∃ s' lines,
    loop (seqZ a (Z.of_nat k)) s = Return s' ∧
    printed s' = printed s ++ (epoch_line <$> lines)
                 ++ closing_line sub_atol lines ∧
    (λ l, l.1.1.1) <$> lines = seqZ a (Z.of_nat (length lines)) ∧
    (length lines ≤ k)%nat ∧
    (λ l, l.2) <$> lines
    = running_best (best_val_map s) ((λ l, l.1.2) <$> lines) ∧
    best_val_map s' = foldl track (best_val_map s) ((λ l, l.1.2) <$> lines) ∧
    (length lines = k ∨
     ∃ l, last lines = Some l ∧ l.1.1.1 > MIN_EPOCHS ∧
          (l.1.2 < sub_atol l.2)%Q) ∧
    (best_val_map s <= best_val_map s')%Q ∧
    ((best_val_map s < best_val_map s')%Q → is_Some (checkpoint s')) ∧
    (¬ (best_val_map s < best_val_map s')%Q →
     checkpoint s' = checkpoint s ∧ best_val_map s' = best_val_map s).
Proof.
  revert a s. induction k as [|k IH]; intros a s.
  - exists s, []. simpl. rewrite app_nil_r.
    split_and!; try done; [by left | apply Qle_refl |].
    by intros ?%Qlt_irrefl.
  - rewrite Nat2Z.inj_succ, seqZ_cons by lia. simpl.
    destruct (train_returns (model s) (total_optimization_steps s)
                (np_random s)) as ([[[m1 steps1] rng1] loss] & ->).
    simpl. destruct (validate_returns m1) as (v & ->). simpl.
    set (best1 := if bool_decide (best_val_map s < v)%Q
                  then v else best_val_map s).
    set (file1 := if bool_decide (best_val_map s < v)%Q
                  then Some m1 else checkpoint s).
    set (s1 := {| model := m1; total_optimization_steps := steps1;
                  np_random := rng1; best_val_map := best1;
                  checkpoint := file1;
                  printed := printed s ++ [EpochLine a loss v best1] |}).
    assert (Hbest1 : best1 = track (best_val_map s) v) by done.
    assert (Hle1 : (best_val_map s <= best1)%Q)
      by (rewrite Hbest1; apply track_le).
    assert (Hfile1 :
      ((best_val_map s < best1)%Q → is_Some file1) ∧
      (¬ (best_val_map s < best1)%Q →
       file1 = checkpoint s ∧ best1 = best_val_map s)).
    { unfold best1, file1. case_bool_decide as Hv; split; try done.
      by intros ?%Qlt_irrefl. }
    destruct Hfile1 as [Hsome1 Hnone1].
    destruct (bool_decide (a > MIN_EPOCHS)
              && bool_decide (v < sub_atol best1)%Q) eqn:Hstop.
    + apply andb_true_iff in Hstop as [Ha%bool_decide_eq_true
                                        Hv%bool_decide_eq_true].
      exists {| model := m1; total_optimization_steps := steps1;
                np_random := rng1; best_val_map := best1;
                checkpoint := file1;
                printed := (printed s ++ [EpochLine a loss v best1])
                           ++ [BestVal best1] |}, [(a, loss, v, best1)].
      unfold closing_line, stops_early. simpl.
      rewrite bool_decide_eq_true_2, bool_decide_eq_true_2 by done. simpl.
      rewrite <- (assoc_L (++)).
      split_and!; try done; [lia|].
      right. by exists (a, loss, v, best1).
    + replace (Z.pred (Z.succ (Z.of_nat k))) with (Z.of_nat k) by lia.
      destruct (IH (Z.succ a) s1)
        as (s' & lines & -> & Hprinted & Hepochs & Hlen & Hrun & Hbest
            & Hend & Hle & Hsome' & Hnone').
      exists s', ((a, loss, v, best1) :: lines).
      subst s1. cbn [printed best_val_map checkpoint] in *.
      rewrite !fmap_cons. cbn [fst snd length running_best foldl].
      rewrite Hprinted, <- (assoc_L (++)), <- Hbest1.
      rewrite closing_line_cons.
      2:{ intros _. exact Hstop. }
      split_and!; try done.
      * rewrite Hepochs, Nat2Z.inj_succ.
        by rewrite (seqZ_cons a), Z.pred_succ by lia.
      * lia.
      * by rewrite Hrun.
      * destruct Hend as [Hend | (l & Hl & Hstop')]; [left; lia|].
        right. exists l. split; [|done].
        destruct lines; [done|]. done.
      * by eapply Qle_trans.
      * intros Hlt.
        destruct (Qlt_le_dec best1 (best_val_map s')) as [Hlt1|Hge1].
        -- by apply Hsome'.
        -- destruct (Hnone' (Qle_not_lt _ _ Hge1)) as [-> Heq].
           apply Hsome1. by rewrite <- Heq.
      * intros Hnlt.
        assert (¬ (best1 < best_val_map s')%Q) as Hn1.
        { intros Hlt. apply Hnlt. by eapply Qle_lt_trans. }
        destruct (Hnone' Hn1) as [Hc Hb]. rewrite Hc, Hb.
        apply Hnone1. intros Hlt. apply Hnlt. by rewrite Hb.
Qed.

Lemma py_range_epochs n : py_range 1 (n + 1) 1 = Return (seqZ 1 n).
Proof.
  unfold py_range. rewrite bool_decide_eq_false_2 by lia.
  rewrite bool_decide_eq_true_2 by lia. f_equal.
  replace ((n + 1 - 1 + 1 - 1) `div` 1) with n by (rewrite Z.div_1_r; lia).
  change (seqZ 1 n) with (seqZ (1 + 0) n).
  rewrite <- (fmap_add_seqZ 1 0 n). apply list_fmap_ext.
  intros _ i _. lia.
Qed.

Lemma epochs_run (s : Progress F Net Rng) :
  ∃ s' lines,
    (epoch_range ← py_range 1 (epochs args + 1) 1; loop epoch_range s)
    = Return s' ∧
    printed s' = printed s ++ (epoch_line <$> lines)
                 ++ closing_line sub_atol lines ∧
    (λ l, l.1.1.1) <$> lines = seqZ 1 (Z.of_nat (length lines)) ∧
    Z.of_nat (length lines) ≤ Z.max 0 (epochs args) ∧
    Z.min (epochs args) (MIN_EPOCHS + 1) ≤ Z.of_nat (length lines) ∧
    (Z.of_nat (length lines) < epochs args →
     ∃ l, last lines = Some l ∧ (l.1.2 < sub_atol l.2)%Q) ∧
    (λ l, l.2) <$> lines
    = running_best (best_val_map s) ((λ l, l.1.2) <$> lines) ∧
    best_val_map s' = foldl track (best_val_map s) ((λ l, l.1.2) <$> lines) ∧
    ((best_val_map s < best_val_map s')%Q → is_Some (checkpoint s')) ∧
    (¬ (best_val_map s < best_val_map s')%Q →
     checkpoint s' = checkpoint s ∧ best_val_map s' = best_val_map s).
Proof.
  rewrite py_range_epochs. simpl.
  assert (seqZ 1 (epochs args) = seqZ 1 (Z.of_nat (Z.to_nat (epochs args))))
    as -> by (unfold seqZ; by rewrite Nat2Z.id).
  destruct (epoch_loop_spec (Z.to_nat (epochs args)) 1 s)
    as (s' & lines & Hrun & Hprinted & Hepochs & Hlen & Hbests & Hbest
        & Hend & _ & Hsome' & Hnone').
  exists s', lines. split_and!; try done.
  - lia.
  - destruct Hend as [Hend | (l & Hl & Hl10 & _)]; [lia|].
    assert (l.1.1.1 = Z.of_nat (length lines)); [|lia].
    assert (last ((λ l, l.1.1.1) <$> lines) = Some l.1.1.1) as Hlast
      by (by rewrite fmap_last, Hl).
    rewrite Hepochs, last_lookup, length_seqZ in Hlast.
    apply lookup_seqZ in Hlast as [-> Hlt].
    destruct lines; [done | simpl in *; lia].
  - intros Hshort. destruct Hend as [Hend | (l & Hl & _ & Hstop)]; [lia|].
    by exists l.
Qed.

(** X12.  The loop of [main] on well-formed data (a well-formed training
    adjacency, at least one source with a validation edge, a positive
    [batch_size], [eval_k] within the catalog).  No epoch raises.  The
    lines printed are those of epochs 1, 2, ..., n with
    [min(epochs, MIN_EPOCHS + 1) <= n <= epochs], followed by the line
    ['Best val'] when and only when the last of them is past epoch ten with
    a validation score below [best_val_map - VAL_MAP_ATOL]: there is no
    early stop in the first ten epochs, and a run shorter than [epochs]
    ended on such a score.  The best score of each line is the running
    maximum of the validation scores, starting from the initial value.  A
    best score above its initial value leaves a checkpoint behind; a best
    score that did not rise leaves the checkpoint as it was before the
    loop. *)
Theorem early_stopping (s : Progress F Net Rng) :
  ∃ s' lines,
    (epoch_range ← py_range 1 (epochs args + 1) 1; loop epoch_range s)
    = Return s' ∧
    printed s' = printed s ++ (epoch_line <$> lines)
                 ++ closing_line sub_atol lines ∧
    (λ l, l.1.1.1) <$> lines = seqZ 1 (Z.of_nat (length lines)) ∧
    Z.of_nat (length lines) ≤ Z.max 0 (epochs args) ∧
    Z.min (epochs args) (MIN_EPOCHS + 1) ≤ Z.of_nat (length lines) ∧
    (Z.of_nat (length lines) < epochs args →
     ∃ l, last lines = Some l ∧ (l.1.2 < sub_atol l.2)%Q) ∧
    (λ l, l.2) <$> lines
    = running_best (best_val_map s) ((λ l, l.1.2) <$> lines) ∧
    best_val_map s' = foldl track (best_val_map s) ((λ l, l.1.2) <$> lines) ∧
    ((best_val_map s < best_val_map s')%Q → is_Some (checkpoint s')) ∧
    (¬ (best_val_map s < best_val_map s')%Q →
     checkpoint s' = checkpoint s ∧ best_val_map s' = best_val_map s).
Proof. apply epochs_run. Qed.
End MainLoop.

(** ** [main] from the tables of the task *)

Lemma foldr_max_lt (x M : Z) (t : list Z) :
  x < M → Forall (λ y, y < M) t → foldr Z.max x t < M.
Proof. intros Hx. induction 1; simpl; lia. Qed.

Lemma maybe_num_nodes_le (edges : list (Z * Z)) M :
  0 ≤ M → Forall (λ e, e.1 < M ∧ e.2 < M) edges →
  maybe_num_nodes edges ≤ M.
Proof.
  intros HM Hall. unfold maybe_num_nodes.
  assert (Forall (λ y, y < M) (edges.*1 ++ edges.*2)) as Hids.
  { apply Forall_app. split; apply Forall_fmap;
      (eapply Forall_impl; [exact Hall|]); simpl; tauto. }
  destruct (edges.*1 ++ edges.*2) as [|x t]; [done|].
  apply Forall_cons in Hids as [Hx Ht].
  pose proof (foldr_max_lt x M t Hx Ht). lia.
Qed.

Section TaskEdges.
Context (num_src_nodes num_dst_nodes : Z).
Hypothesis Hsrc_sq : num_src_nodes * num_src_nodes ≤ MAX_INT64.
Hypothesis Hdst_sq : num_dst_nodes * num_dst_nodes ≤ MAX_INT64.
Hypothesis Hsrc0 : 0 ≤ num_src_nodes.
Hypothesis Hdst0 : 0 ≤ num_dst_nodes.

Lemma task_edges_ready edges :
  task_edges num_src_nodes num_dst_nodes edges →
  valid_edges edges ∧ Forall (λ e, e.1 < num_src_nodes) edges ∧
  maybe_num_nodes edges * maybe_num_nodes edges ≤ MAX_INT64.
Proof.
  intros Hedges.
  assert (Hv : valid_edges edges).
  { eapply Forall_impl; [exact Hedges|]. simpl. lia. }
  split_and!; [done | |].
  - eapply Forall_impl; [exact Hedges|]. simpl. lia.
  - pose proof (maybe_num_nodes_nonneg edges Hv) as H0.
    pose proof (maybe_num_nodes_le edges (Z.max num_src_nodes num_dst_nodes))
      as Hle.
    assert (maybe_num_nodes edges ≤ Z.max num_src_nodes num_dst_nodes).
    { apply Hle; [lia|]. eapply Forall_impl; [exact Hedges|]. simpl. lia. }
    destruct (Z.max_spec num_src_nodes num_dst_nodes) as [[_ Hm]|[_ Hm]];
      rewrite Hm in *; nia.
Qed.

(** A loaded split: the adjacency, with the edges of the table. *)
Lemma load_split_task edges :
  task_edges num_src_nodes num_dst_nodes edges →
  ∃ rowptr edge_index,
    load_split num_src_nodes edges = Return (rowptr, edge_index) ∧
    Z.of_nat (length rowptr) = num_src_nodes + 1 ∧
    csr_well_formed rowptr edge_index.*2 ∧
    (∀ e, e ∈ edge_index ↔ e ∈ edges) ∧
    (length edge_index ≤ length edges)%nat.
Proof.
  intros Hedges.
  destruct (task_edges_ready edges Hedges) as (Hv & Hs & Hn).
  destruct (load_split_spec num_src_nodes edges Hv Hs Hsrc0 Hn)
    as (rowptr & e' & Hload & Hco & Hlen & Hwf & _).
  destruct (coalesce_spec edges Hv Hn) as (e'' & Hco' & Hel & Hsorted).
  rewrite Hco in Hco'. injection Hco' as <-.
  exists rowptr, e'. split_and!; [done..|].
  apply submseteq_length, NoDup_submseteq.
  - by apply (StronglySorted_NoDup lex_lt).
  - intros e. by rewrite Hel.
Qed.

Lemma task_edges_elem edges edges' :
  task_edges num_src_nodes num_dst_nodes edges →
  (∀ e, e ∈ edges' → e ∈ edges) →
  task_edges num_src_nodes num_dst_nodes edges'.
Proof.
  unfold task_edges. rewrite !Forall_forall. intros H Hsub e He.
  by apply H, Hsub.
Qed.

Lemma task_edges_rows edges :
  task_edges num_src_nodes num_dst_nodes edges → edges ≠ [] →
  filter (λ s, s ∈ edges.*1) (seqZ 0 num_src_nodes) ≠ [].
Proof.
  intros Hedges Hne. destruct edges as [|[s d] edges]; [done|].
  apply Forall_cons in Hedges as [[Hs _] _]. simpl in Hs.
  intros Hnil.
  assert (s ∈ filter (λ s0, s0 ∈ ((s, d) :: edges).*1)
                (seqZ 0 num_src_nodes)) as Hin.
  { apply list_elem_of_filter. split; [by left|].
    apply elem_of_seqZ. lia. }
  rewrite Hnil in Hin. by apply elem_of_nil in Hin.
Qed.
End TaskEdges.

Section MainRun.
Context {F Net Rng : Type} (fzero : F) (fadd : F → F → F).
Context (fdiv_int : F → Z → F) (true_div : Z → Z → F) (fmin : F → F → F).
Context (shuffle : Rng → list Z → list Z * Rng).
Context (fit : Net → list (list Q) → F → Net * F).
Context (scores : Net → list (list Q) → list (list Q)).
Context (evaluate : list (list Z) → String.string → Q).
Context (sub_atol : Q → Q).
Context (seeded_rng : Z → Rng) (new_model : MultiVAE → Z → Net).
Context (args : Args F) (num_src_nodes num_dst_nodes eval_k : Z).
Context (score_row : Net → list Q → list Q).
Context (train_edges val_edges test_edges : list (Z * Z)).
Hypothesis Hsrc_sq : num_src_nodes * num_src_nodes ≤ MAX_INT64.
Hypothesis Hdst_sq : num_dst_nodes * num_dst_nodes ≤ MAX_INT64.
Hypothesis Htrain_e : task_edges num_src_nodes num_dst_nodes train_edges.
Hypothesis Hval_e : task_edges num_src_nodes num_dst_nodes val_edges.
Hypothesis Htest_e : task_edges num_src_nodes num_dst_nodes test_edges.
Hypothesis Hval_ne : val_edges ≠ [].
Hypothesis Htest_ne : test_edges ≠ [].
Hypothesis Hsize :
  Z.of_nat (length train_edges) + Z.of_nat (length val_edges) < 2 ^ 63.
Hypothesis Hbs : 0 < batch_size args.
Hypothesis Hk : 0 ≤ eval_k ≤ num_dst_nodes.
Hypothesis Hshuffle : ∀ rng l, (shuffle rng l).1 ≡ₚ l.
Hypothesis Hrowwise : ∀ model x, scores model x = score_row model <$> x.
Hypothesis Hwidth : ∀ model row,
  length row = Z.to_nat num_dst_nodes →
  length (score_row model row) = Z.to_nat num_dst_nodes.

Local Abbreviation test' :=
  (test F Net scores evaluate args num_src_nodes num_dst_nodes eval_k).
Local Abbreviation loop :=
  (epoch_loop F Net Rng fzero fadd fdiv_int true_div fmin shuffle fit scores
     evaluate sub_atol args num_src_nodes num_dst_nodes eval_k).
Local Abbreviation main' :=
  (main F Net Rng fzero fadd fdiv_int true_div fmin shuffle fit scores
     evaluate sub_atol seeded_rng new_model args num_src_nodes num_dst_nodes
     eval_k train_edges val_edges test_edges).

Lemma sizes_positive : 0 < num_src_nodes ∧ 0 < num_dst_nodes.
Proof.
  destruct val_edges as [|e ?]; [done|].
  apply Forall_cons in Hval_e as [[? ?] _]. lia.
Qed.

Lemma main_run (file : option Net) :
  ∃ data_dict arch s,
    load_data_dict num_src_nodes train_edges val_edges test_edges
    = Return data_dict ∧
    MultiVAE_init [200; 600; num_dst_nodes] None = Finished arch ∧
    (epoch_range ← py_range 1 (epochs args + 1) 1;
     loop data_dict epoch_range
       {| model := new_model arch (seed args); total_optimization_steps := 0;
          np_random := seeded_rng (seed args); best_val_map := 0;
          checkpoint := file; printed := [] |})
    = Return s ∧
    (∀ model, ∃ test_map,
       test' model data_dict Stage.test = Return (0 : Q, test_map)) ∧
    ((0 < best_val_map s)%Q → is_Some (checkpoint s)) ∧
    (¬ (0 < best_val_map s)%Q → checkpoint s = file ∧ best_val_map s = 0%Q) ∧
    main' file
    = match checkpoint s with
      | None => FileNotFoundError
      | Some _ => UnpicklingError
      end.
Proof.
  destruct sizes_positive as [Hsrc0 Hdst0].
  assert (0 ≤ num_src_nodes) as Hsrc0' by lia.
  assert (0 ≤ num_dst_nodes) as Hdst0' by lia.
  destruct (load_split_task num_src_nodes num_dst_nodes Hsrc_sq Hdst_sq
              Hsrc0' Hdst0' train_edges Htrain_e)
    as (rp_t & e_t & Hload_t & Hlen_t & Hwf_t & Hel_t & Hsz_t).
  destruct (load_split_task num_src_nodes num_dst_nodes Hsrc_sq Hdst_sq
              Hsrc0' Hdst0' val_edges Hval_e)
    as (rp_v & e_v & Hload_v & Hlen_v & Hwf_v & Hel_v & Hsz_v).
  destruct (load_split_task num_src_nodes num_dst_nodes Hsrc_sq Hdst_sq
              Hsrc0' Hdst0' test_edges Htest_e)
    as (rp_s & e_s & Hload_s & Hlen_s & Hwf_s & Hel_s & Hsz_s).
  set (dd := {| dd_train := (rp_t, e_t); dd_val := (rp_v, e_v);
                dd_test := (rp_s, e_s) |}).
  assert (Hdd : load_data_dict num_src_nodes train_edges val_edges test_edges
                = Return dd).
  { unfold load_data_dict. by rewrite Hload_t, Hload_v, Hload_s. }
  destruct (MultiVAE_init_default [200; 600; num_dst_nodes] None)
    as [_ Harch]; [by left | done | repeat constructor; lia |].
  destruct Harch as (arch & Harch & _).
  { intros (i & Ha & Hb).
    destruct i as [|[|[|i]]]; simpl in Ha, Hb; discriminate. }
  assert (He_t : task_edges num_src_nodes num_dst_nodes e_t)
    by (eapply task_edges_elem; [exact Htrain_e | by intros e ?%Hel_t]).
  assert (He_v : task_edges num_src_nodes num_dst_nodes e_v)
    by (eapply task_edges_elem; [exact Hval_e | by intros e ?%Hel_v]).
  assert (He_s : task_edges num_src_nodes num_dst_nodes e_s)
    by (eapply task_edges_elem; [exact Htest_e | by intros e ?%Hel_s]).
  assert (Hrp64 : num_src_nodes + 1 ≤ 2 ^ 63)
    by (unfold MAX_INT64 in Hsrc_sq; nia).
  assert (Hdst_of : ∀ e' : list (Z * Z),
            task_edges num_src_nodes num_dst_nodes e' →
            Forall (λ d, 0 ≤ d < num_dst_nodes) e'.*2).
  { intros e' He'. apply Forall_fmap.
    eapply Forall_impl; [exact He'|]. simpl. tauto. }
  assert (Hne_of : ∀ edges e' : list (Z * Z),
            (∀ e, e ∈ e' ↔ e ∈ edges) → edges ≠ [] → e' ≠ []).
  { intros edges e' Hel Hne ->. destruct edges as [|e ?]; [done|].
    assert (e ∈ []) as Hin by (apply Hel; left). by apply elem_of_nil in Hin. }
  (* the epochs *)
  destruct (epochs_run fzero fadd fdiv_int true_div fmin shuffle fit scores
              evaluate sub_atol args num_src_nodes num_dst_nodes eval_k
              score_row dd rp_t rp_v e_t e_v eq_refl eq_refl Hwf_t)
    with (s := ({| model := new_model arch (seed args);
                   total_optimization_steps := 0;
                   np_random := seeded_rng (seed args); best_val_map := 0%Q;
                   checkpoint := file; printed := [] |}
                : Progress F Net Rng))
    as (s & lines & Hloop & _ & _ & _ & _ & _ & _ & _ & Hsome & Hnone);
    try done.
  { lia. }
  { rewrite length_fmap. lia. }
  { by apply Hdst_of. }
  { replace (Z.of_nat (length rp_t) - 1) with num_src_nodes by lia.
    apply (task_edges_rows num_src_nodes num_dst_nodes); [done|].
    by eapply Hne_of. }
  (* the final evaluation *)
  assert (Hunion : task_edges num_src_nodes num_dst_nodes (e_t ++ e_v))
    by (by apply Forall_app).
  destruct (task_edges_ready num_src_nodes num_dst_nodes Hsrc_sq Hdst_sq
              Hsrc0' Hdst0' (e_t ++ e_v) Hunion) as (Hv_u & Hs_u & Hn_u).
  destruct (test_inputs_spec scores evaluate args num_src_nodes
              num_dst_nodes eval_k (new_model arch (seed args)) dd
              rp_t rp_v rp_s e_t e_v e_s eq_refl eq_refl eq_refl)
    as (_ & Hinputs & _).
  destruct (Hinputs Hv_u Hs_u Hsrc0' Hn_u)
    as (rp_u & e_u & Hin_u & Hco_u & Hlen_u & Hwf_u & _).
  destruct (coalesce_spec (e_t ++ e_v) Hv_u Hn_u)
    as (e_u' & Hco_u' & Hel_u & Hsorted_u).
  rewrite Hco_u in Hco_u'. injection Hco_u' as <-.
  assert (He_u : task_edges num_src_nodes num_dst_nodes e_u)
    by (eapply task_edges_elem; [exact Hunion | by intros e ?%Hel_u]).
  assert (Hsz_u : (length e_u ≤ length (e_t ++ e_v))%nat).
  { apply submseteq_length, NoDup_submseteq.
    - by apply (StronglySorted_NoDup lex_lt).
    - intros e. by rewrite Hel_u. }
  rewrite length_app in Hsz_u.
  assert (Htest_total : ∀ model, ∃ test_map,
            test' model dd Stage.test = Return (0 : Q, test_map)).
  { intros m.
    destruct (test_closed_form scores evaluate args num_src_nodes
                num_dst_nodes eval_k score_row rp_u e_u.*2 e_s Hwf_u)
      with (model := m) (data_dict := dd) (stage := Stage.test)
      as (_ & Hrun); try done.
    - lia.
    - rewrite length_fmap. lia.
    - by apply Hdst_of.
    - destruct Hrun as (pred & _ & Hpred & _); [|by eauto].
      replace (Z.of_nat (length rp_u) - 1) with num_src_nodes by lia.
      apply (task_edges_rows num_src_nodes num_dst_nodes); [done|].
      by eapply Hne_of. }
  exists dd, arch, s. split_and!; [done..| | |].
  - exact Hsome.
  - exact Hnone.
  - unfold main. rewrite Hdd. simpl. rewrite Harch. simpl.
    simpl in Hloop |- *. rewrite Hloop. simpl.
    by destruct (checkpoint s).
Qed.

(** X13.  [main] on the tables of a task (ids within the node counts, whose
    squares fit int64; at least one validation and one test edge; a
    positive [batch_size]; [eval_k] within the catalog).  Loading, building
    the model and every epoch succeed, and the evaluation at stage
    ['test'] would succeed for any model; but [main] does not get there.
    It calls [torch.load(model_filename)] with [weights_only] at its
    default, which refuses the module that [torch.save(model, ...)]
    pickled.  When some epoch reaches a validation score above 0 the
    checkpoint has been written and [main] ends with an
    [UnpicklingError].  When no epoch does, [main] has not written the
    checkpoint and meets the file as it was before the run: a
    [FileNotFoundError] without one, an [UnpicklingError] with the
    checkpoint of an earlier run.  In no case does [main] report a test
    score. *)
Theorem main_checkpoint (file : option Net) :
  ∃ data_dict arch s,
    load_data_dict num_src_nodes train_edges val_edges test_edges
    = Return data_dict ∧
    MultiVAE_init [200; 600; num_dst_nodes] None = Finished arch ∧
    (epoch_range ← py_range 1 (epochs args + 1) 1;
     loop data_dict epoch_range
       {| model := new_model arch (seed args); total_optimization_steps := 0;
          np_random := seeded_rng (seed args); best_val_map := 0;
          checkpoint := file; printed := [] |})
    = Return s ∧
    (∀ model, ∃ test_map,
       test' model data_dict Stage.test = Return (0 : Q, test_map)) ∧
    ((0 < best_val_map s)%Q → main' file = UnpicklingError) ∧
    (¬ (0 < best_val_map s)%Q →
     checkpoint s = file ∧
     main' file = match file with
                  | None => FileNotFoundError
                  | Some _ => UnpicklingError
                  end) ∧
    (∀ r, main' file ≠ Finished r).
Proof.
  destruct (main_run file)
    as (dd & arch & s & Hdd & Harch & Hloop & Htest & Hsome & Hnone & Hmain).
  exists dd, arch, s. split_and!; [done..| | |].
  - intros Hpos. destruct (Hsome Hpos) as [saved Hsaved].
    by rewrite Hmain, Hsaved.
  - intros Hzero. destruct (Hnone Hzero) as [Hfile _].
    split; [done|]. by rewrite Hmain, Hfile.
  - intros r. rewrite Hmain. by destruct (checkpoint s).
Qed.
End MainRun.

(** * The script on a small data set *)

Lemma train_epoch_witness :
  ∃ model loss,
    train Q Z unit 0%Q Qplus (λ a _, a) (λ a b, inject_Z a) (λ a _, a)
      (λ rng l, (reverse l, rng)) (λ m _ a, (m + 1, a)) example_args 30
      0 5 tt example_data
    = Return (model, 7, tt, loss).
Proof.
  pose proof (train_epoch 0%Q Qplus (λ a _, a) (λ a b, inject_Z a)
                (λ a _, a) (λ (rng : unit) l, (reverse l, rng))
                (λ (m : Z) _ a, (m + 1, a)) example_args 30
                [0; 2; 2; 5] [(0, 10); (0, 11); (2, 20); (2, 21); (2, 22)])
    as H.
  destruct (H example_csr) with (data_dict := example_data) (model := 0)
    (total_optimization_steps := 5) (rng := tt) as (Hrun & Hsteps & _).
  - simpl. lia.
  - simpl. lia.
  - repeat constructor; simpl; lia.
  - lia.
  - reflexivity.
  - reflexivity.
  - intros l. simpl. apply reverse_Permutation.
  - eexists _, _. rewrite Hrun, Hsteps. reflexivity.
Defined.

Lemma test_predictions_witness :
  (∃ pred,
     test Q Z (λ _ x, x) (λ _ _, 1%Q) example_args 3 30 2 0 example_data
       Stage.val
     = Return (0%Q, 1%Q) ∧
     Forall2 (top_k_of 2)
       (multi_hot 30 [0; 2; 2; 5] [10; 11; 20; 21; 22] [0; 2]) pred) ∧
  test Q Z (λ _ x, x) (λ _ _, 1%Q) example_args 3 30 2 0 no_targets
    Stage.val
  = Raise ValueError.
Proof.
  split.
  - pose proof (test_predictions (F := Q) (Net := Z) (λ _ x, x)
                  (λ _ _, 1%Q) example_args 3 30 2 (λ _ row, row)
                  [0; 2; 2; 5] [10; 11; 20; 21; 22] [(0, 12); (2, 23)]
                  example_csr) as H.
    destruct H with (model := 0) (data_dict := example_data)
      (stage := Stage.val) as (_ & Hrun).
    + simpl. lia.
    + simpl. lia.
    + repeat constructor; simpl; lia.
    + reflexivity.
    + lia.
    + intros model x. by rewrite list_fmap_id.
    + done.
    + reflexivity.
    + destruct Hrun as (pred & Hrun & Hpred); [discriminate|].
      exists pred. split; [exact Hrun | exact Hpred].
  - pose proof (test_predictions (F := Q) (Net := Z) (λ _ x, x)
                  (λ _ _, 1%Q) example_args 3 30 2 (λ _ row, row)
                  [0; 2; 2; 5] [10; 11; 20; 21; 22] []
                  example_csr) as H.
    destruct H with (model := 0) (data_dict := no_targets)
      (stage := Stage.val) as (Hnone & _).
    + simpl. lia.
    + simpl. lia.
    + repeat constructor; simpl; lia.
    + reflexivity.
    + lia.
    + intros model x. by rewrite list_fmap_id.
    + done.
    + reflexivity.
    + by apply Hnone.
Defined.

Lemma early_stopping_witness :
  ∃ s',
    (epoch_range ← py_range 1 (epochs example_args + 1) 1;
     epoch_loop Q Z unit 0%Q Qplus (λ a _, a) (λ a b, inject_Z a) (λ a _, a)
       (λ rng l, (reverse l, rng)) (λ m _ a, (m + 1, a)) (λ _ x, x)
       (λ _ _, 1%Q) (λ b : Q, b - (1 # 1000))%Q example_args 3 30 2 example_data
       epoch_range
       {| model := 0; total_optimization_steps := 0; np_random := tt;
          best_val_map := 0%Q; checkpoint := None; printed := [] |})
    = Return s' ∧
    length (printed s') = 3%nat.
Proof.
  destruct (early_stopping 0%Q Qplus (λ a _, a) (λ a b, inject_Z a)
              (λ a _, a) (λ (rng : unit) l, (reverse l, rng))
              (λ (m : Z) _ a, (m + 1, a)) (λ _ x, x) (λ _ _, 1%Q)
              (λ b : Q, b - (1 # 1000))%Q example_args 3 30 2 (λ _ row, row)
              example_data [0; 2; 2; 5] [0; 1; 1; 2]
              [(0, 10); (0, 11); (2, 20); (2, 21); (2, 22)]
              [(0, 12); (2, 23)] eq_refl eq_refl example_csr)
    with (s := ({| model := 0; total_optimization_steps := 0;
                   np_random := tt; best_val_map := 0%Q;
                   checkpoint := None; printed := [] |}
                : Progress Q Z unit))
    as (s' & lines & Hrun & _).
  - simpl. lia.
  - simpl. lia.
  - repeat constructor; simpl; lia.
  - reflexivity.
  - lia.
  - intros rng l. simpl. apply reverse_Permutation.
  - intros model x. by rewrite list_fmap_id.
  - done.
  - discriminate.
  - exists s'. split; [exact Hrun|].
    vm_compute in Hrun. injection Hrun as <-. reflexivity.
Defined.

Lemma main_checkpoint_witness :
  main Q Z unit 0%Q Qplus (λ a _, a) (λ a b, inject_Z a) (λ a _, a)
    (λ rng l, (reverse l, rng)) (λ m _ a, (m + 1, a)) (λ _ x, x)
    (λ _ _, 0%Q) (λ b : Q, b - (1 # 1000))%Q (λ _, tt) (λ _ _, 0) example_args
    3 30 2 [(0, 10); (0, 11); (2, 20); (2, 21); (2, 22); (0, 10)]
    [(0, 12); (2, 23)] [(1, 5)] None
  = FileNotFoundError ∧
  main Q Z unit 0%Q Qplus (λ a _, a) (λ a b, inject_Z a) (λ a _, a)
    (λ rng l, (reverse l, rng)) (λ m _ a, (m + 1, a)) (λ _ x, x)
    (λ _ _, 1%Q) (λ b : Q, b - (1 # 1000))%Q (λ _, tt) (λ _ _, 0) example_args
    3 30 2 [(0, 10); (0, 11); (2, 20); (2, 21); (2, 22); (0, 10)]
    [(0, 12); (2, 23)] [(1, 5)] None
  = UnpicklingError.
Proof.
  split.
  - destruct (main_checkpoint 0%Q Qplus (λ a _, a) (λ a b, inject_Z a)
                (λ a _, a) (λ (rng : unit) l, (reverse l, rng))
                (λ (m : Z) _ a, (m + 1, a)) (λ _ x, x) (λ _ _, 0%Q)
                (λ b : Q, b - (1 # 1000))%Q (λ _, tt) (λ _ _, 0) example_args
                3 30 2 (λ _ row, row)
                [(0, 10); (0, 11); (2, 20); (2, 21); (2, 22); (0, 10)]
                [(0, 12); (2, 23)] [(1, 5)])
      with (file := @None Z)
      as (dd & arch & s & Hdd & Harch & Hloop & _ & _ & Hzero & _).
    + vm_compute. discriminate.
    + vm_compute. discriminate.
    + repeat constructor; simpl; lia.
    + repeat constructor; simpl; lia.
    + repeat constructor; simpl; lia.
    + discriminate.
    + discriminate.
    + simpl. lia.
    + reflexivity.
    + lia.
    + intros rng l. simpl. apply reverse_Permutation.
    + intros model x. by rewrite list_fmap_id.
    + done.
    + vm_compute in Hdd. injection Hdd as <-.
      vm_compute in Harch. injection Harch as <-.
      vm_compute in Hloop. injection Hloop as <-.
      destruct Hzero as [_ Hmain]; [|exact Hmain].
      vm_compute. discriminate.
  - destruct (main_checkpoint 0%Q Qplus (λ a _, a) (λ a b, inject_Z a)
                (λ a _, a) (λ (rng : unit) l, (reverse l, rng))
                (λ (m : Z) _ a, (m + 1, a)) (λ _ x, x) (λ _ _, 1%Q)
                (λ b : Q, b - (1 # 1000))%Q (λ _, tt) (λ _ _, 0) example_args
                3 30 2 (λ _ row, row)
                [(0, 10); (0, 11); (2, 20); (2, 21); (2, 22); (0, 10)]
                [(0, 12); (2, 23)] [(1, 5)])
      with (file := @None Z)
      as (dd & arch & s & Hdd & Harch & Hloop & _ & Hpos & _).
    + vm_compute. discriminate.
    + vm_compute. discriminate.
    + repeat constructor; simpl; lia.
    + repeat constructor; simpl; lia.
    + repeat constructor; simpl; lia.
    + discriminate.
    + discriminate.
    + simpl. lia.
    + reflexivity.
    + lia.
    + intros rng l. simpl. apply reverse_Permutation.
    + intros model x. by rewrite list_fmap_id.
    + done.
    + vm_compute in Hdd. injection Hdd as <-.
      vm_compute in Harch. injection Harch as <-.
      vm_compute in Hloop. injection Hloop as <-.
      apply Hpos. vm_compute. reflexivity.
Defined.
